(** * Origami: contour / line reconciliation

    A shallow embedding of the reconciliation code of the batch pipeline:

    - [origami/batch/core/lines.py]: [reliable_contours], [LineRewriter],
      [LineExtractor.__call__];
    - [origami/batch/detect/lines.py]: [scale_grid],
      [ConfidenceSampler.__call__] and [LineDetectionProcessor.process];
    - [origami/batch/detect/warp.py]: the entries that
      [WarpDetectionProcessor.process] writes.

    Python values are modelled as the code uses them: a path is a tuple of
    [str] and [int] components, a [dict] is an insertion-ordered association
    list, an exception is an explicit result, and the shapely geometry
    operations are an interface whose operations the code only calls. *)

From Stdlib Require Import List String Ascii ZArith QArith Bool Lia.
From Stdlib Require Import Numbers.DecimalString.
From Stdlib Require Numbers.DecimalPos.
Import ListNotations.

Open Scope string_scope.
Open Scope list_scope.
Open Scope Z_scope.

(* ================================================================= *)
(** ** Python exceptions and results *)

Inductive exn : Type :=
| TypeError
| ValueError
| IndexError
| KeyError
| AttributeError
| RuntimeError
| AssertionError
| ZeroDivisionError
| Cv2Error.                                      (* cv2.error *)

Inductive result (A : Type) : Type :=
| Ok (a : A)
| Raise (e : exn).

Arguments Ok {A} a.
Arguments Raise {A} e.

Definition bind {A B : Type} (r : result A) (f : A -> result B) : result B :=
  match r with
  | Ok a => f a
  | Raise e => Raise e
  end.

Notation "'let*' x ':=' r 'in' k" := (bind r (fun x => k))
  (at level 10, x pattern, r at level 100, k at level 200).

(** [for x in xs: acc = step(acc, x)], stopping at the first exception. *)
Fixpoint foldM {A S : Type} (step : S -> A -> result S) (xs : list A) (s : S)
  : result S :=
  match xs with
  | [] => Ok s
  | x :: xs' => let* s' := step s x in foldM step xs' s'
  end.

(* ================================================================= *)
(** ** Strings: [str.split], [int(str)], [str(int)] *)

(** [s.split(sep)] for a one-character separator: always at least one field. *)
Fixpoint split (sep : ascii) (s : string) : list string :=
  match s with
  | EmptyString => [EmptyString]
  | String c r =>
      if Ascii.eqb c sep then EmptyString :: split sep r
      else match split sep r with
           | [] => [String c EmptyString]
           | h :: t => String c h :: t
           end
  end.

(** [sep.join(fields)]. *)
Fixpoint join (sep : string) (fields : list string) : string :=
  match fields with
  | [] => EmptyString
  | [f] => f
  | f :: fs => f ++ sep ++ join sep fs
  end.

(** The white space that [int] skips around an ASCII literal. *)
Definition is_space (c : ascii) : bool :=
  let n := nat_of_ascii c in
  ((9 <=? n) && (n <=? 13) || (n =? 32))%nat.

Fixpoint lstrip (s : string) : string :=
  match s with
  | String c r => if is_space c then lstrip r else s
  | EmptyString => EmptyString
  end.

Fixpoint string_rev (s : string) : string :=
  match s with
  | EmptyString => EmptyString
  | String c r => string_rev r ++ String c EmptyString
  end.

Definition strip (s : string) : string :=
  string_rev (lstrip (string_rev (lstrip s))).

Definition digit_val (c : ascii) : option Z :=
  let n := nat_of_ascii c in
  if ((48 <=? n) && (n <=? 57))%nat then Some (Z.of_nat n - 48) else None.

(** Decimal digits, single underscores allowed between two digits. *)
Fixpoint parse_digits (s : string) (acc : Z) (after_digit : bool) : option Z :=
  match s with
  | EmptyString => if after_digit then Some acc else None
  | String c r =>
      match digit_val c with
      | Some d => parse_digits r (10 * acc + d) true
      | None =>
          if Ascii.eqb c "_"%char && after_digit
          then parse_digits r acc false
          else None
      end
  end.

(** [int(s)] for an ASCII [str]: surrounding white space, an optional sign,
    decimal digits.  [None] is Python's [ValueError]. *)
Definition int_of_string (s : string) : option Z :=
  match strip s with
  | String "-"%char r => option_map Z.opp (parse_digits r 0 false)
  | String "+"%char r => parse_digits r 0 false
  | r => parse_digits r 0 false
  end.

(** [str(z)] for an [int]. *)
Definition string_of_Z (z : Z) : string :=
  NilZero.string_of_int (Z.to_int z).

(* ================================================================= *)
(** ** Paths *)

(** A component of a path tuple: a [str] or an [int].  A [str] never equals
    an [int]. *)
Inductive comp : Type :=
| CStr (s : string)
| CInt (z : Z).

Definition path : Type := list comp.

Definition comp_eqb (a b : comp) : bool :=
  match a, b with
  | CStr s, CStr t => String.eqb s t
  | CInt x, CInt y => Z.eqb x y
  | _, _ => false
  end.

Fixpoint path_eqb (p q : path) : bool :=
  match p, q with
  | [], [] => true
  | a :: p', b :: q' => comp_eqb a b && path_eqb p' q'
  | _, _ => false
  end.

(** [int(c)] on a component. *)
Definition py_int (c : comp) : result Z :=
  match c with
  | CInt z => Ok z
  | CStr s => match int_of_string s with
              | Some z => Ok z
              | None => Raise ValueError
              end
  end.

(** [str(c)] on a component. *)
Definition py_str (c : comp) : string :=
  match c with
  | CStr s => s
  | CInt z => string_of_Z z
  end.

(** [t[i]]. *)
Definition index {A : Type} (t : list A) (i : nat) : result A :=
  match nth_error t i with
  | Some a => Ok a
  | None => Raise IndexError
  end.

(** [tuple(k.split("/"))]. *)
Definition path_of_key (k : string) : path :=
  map CStr (split "/"%char k).

(* ================================================================= *)
(** ** Dictionaries *)

(** A [dict] keeps its keys in insertion order; assigning to an existing key
    replaces the value where the key stands. *)
Section Dict.
Context {K V : Type} (keq : K -> K -> bool).

Fixpoint dict_get (d : list (K * V)) (k : K) : option V :=
  match d with
  | [] => None
  | (k', v) :: d' => if keq k' k then Some v else dict_get d' k
  end.

Fixpoint dict_set (d : list (K * V)) (k : K) (v : V) : list (K * V) :=
  match d with
  | [] => [(k, v)]
  | (k', v') :: d' =>
      if keq k' k then (k', v) :: d' else (k', v') :: dict_set d' k v
  end.

Definition dict_mem (d : list (K * V)) (k : K) : bool :=
  match dict_get d k with Some _ => true | None => false end.

(** [d[k]], raising [KeyError]. *)
Definition dict_item (d : list (K * V)) (k : K) : result V :=
  match dict_get d k with
  | Some v => Ok v
  | None => Raise KeyError
  end.

(** [d[k]] of a [defaultdict] with default [dflt]. *)
Definition dict_get_default (dflt : V) (d : list (K * V)) (k : K) : V :=
  match dict_get d k with
  | Some v => v
  | None => dflt
  end.
End Dict.

Definition pdict (V : Type) : Type := list (path * V).
Definition pget {V} (d : pdict V) (k : path) : option V := dict_get path_eqb d k.
Definition pset {V} (d : pdict V) (k : path) (v : V) : pdict V := dict_set path_eqb d k v.
Definition pmem {V} (d : pdict V) (k : path) : bool := dict_mem path_eqb d k.
Definition keys {K V : Type} (d : list (K * V)) : list K := map fst d.

(* ================================================================= *)
(** ** Geometry and lines *)

(** The shapely operations the code calls.  The code never looks inside a
    geometry, so the development is generic in them. *)
Class Geometry : Type := {
  geom : Type;
  convex_hull : geom -> geom;                (* g.convex_hull *)
  intersection : geom -> geom -> geom;       (* g.intersection(h) *)
  cascaded_union : list geom -> geom;        (* shapely.ops.cascaded_union *)
  geom_type : geom -> string;                (* g.geom_type *)
  is_empty : geom -> bool                    (* g.is_empty *)
}.

(** A detected line, as far as this code reads it.  Errors and thresholds
    are floats that the code only compares: they are the rational numbers
    they denote. *)
Record Line {G : Geometry} : Type := {
  line_name : string;                        (* tells line objects apart *)
  predicted_path : path;                     (* line.predicted_path *)
  predicted_path_error : path -> Q;          (* line.predicted_path_error(p) *)
  image_space_polygon : geom                 (* line.image_space_polygon *)
}.

(** Dictionaries of lines are objects that the caller and the callee share:
    a store maps a reference to the dictionary it currently holds. *)
Definition ref : Type := nat.
Definition store {G : Geometry} : Type := ref -> pdict Line.

Definition store_set {G : Geometry} (h : store) (r : ref) (d : pdict Line) : store :=
  fun r' => if Nat.eqb r' r then d else h r'.

(* ================================================================= *)
(** ** [reliable_contours] (origami/batch/core/lines.py) *)

Section ReliableContours.
Context {G : Geometry}.

(** [max_ids[k[:2]] = max(max_ids[k[:2]], int(k[2]))] *)
Definition max_ids_step (max_ids : pdict Z) (k : path) : result (pdict Z) :=
  let* k2 := index k 2 in
  let* id := py_int k2 in
  Ok (pset max_ids (firstn 2 k)
        (Z.max (dict_get_default path_eqb 0 max_ids (firstn 2 k)) id)).

Definition compute_max_ids (all_contours : pdict geom) : result (pdict Z) :=
  foldM max_ids_step (keys all_contours) [].

(** One round of [for pred_path, line in free_lines]. *)
Definition free_step (detected_lines : ref)
    (st : pdict Z * pdict geom * store) (item : path * Line)
  : pdict Z * pdict geom * store :=
  let '(max_ids, reliable, h) := st in
  let '(pred_path, line) := item in
  let new_id := dict_get_default path_eqb 0 max_ids pred_path + 1 in
  let max_ids := pset max_ids pred_path new_id in
  let new_path := pred_path ++ [CInt new_id] in
  let reliable := pset reliable new_path (image_space_polygon line) in
  let h := store_set h detected_lines
             (pset (h detected_lines) (new_path ++ [CInt 0]) line) in
  (max_ids, reliable, h).

Definition free_loop (detected_lines : ref) (free_lines : list (path * Line))
    (st : pdict Z * pdict geom * store) : pdict Z * pdict geom * store :=
  fold_left (free_step detected_lines) free_lines st.

(** [block_lines[path[:3]].append(line)] over [all_lines.items()]. *)
Definition group_step (block_lines : pdict (list Line)) (item : path * Line)
  : pdict (list Line) :=
  let '(path, line) := item in
  pset block_lines (firstn 3 path)
    (dict_get_default path_eqb [] block_lines (firstn 3 path) ++ [line]).

Definition group_block_lines (all_lines : pdict Line) : pdict (list Line) :=
  fold_left group_step all_lines [].

(** [ignore is None or not ignore(path)] *)
Definition not_ignored (ignore : option (path -> bool)) (p : path) : bool :=
  match ignore with
  | None => true
  | Some f => negb (f p)
  end.

(** The geometry computed for a block from its lines and its contour. *)
Definition block_geometry (lines : list Line) (contour : geom) : geom :=
  let hull := convex_hull (cascaded_union (map image_space_polygon lines)) in
  let g := intersection hull contour in
  if negb (String.eqb (geom_type g) "Polygon") then convex_hull g else g.

(** One round of [for path, lines in block_lines.items()]. *)
Definition block_step (all_contours : pdict geom) (ignore : option (path -> bool))
    (reliable : pdict geom) (item : path * list Line) : result (pdict geom) :=
  let '(p, lines) := item in
  if not_ignored ignore p then
    let* contour := dict_item path_eqb all_contours p in
    Ok (pset reliable p (block_geometry lines contour))
  else Ok reliable.

(** [for k in set(all_contours.keys()) - set(reliable.keys())]: the set is
    built before the loop; it is walked here in the order of
    [all_contours], its elements being distinct keys. *)
Definition passthrough (all_contours : pdict geom) (reliable : pdict geom)
  : pdict geom :=
  fold_left
    (fun rel k => match pget all_contours k with
                  | Some c => pset rel k c
                  | None => rel
                  end)
    (filter (fun k => negb (pmem reliable k)) (keys all_contours))
    reliable.

(** [reliable_contours(all_contours, all_lines, free_lines, detected_lines,
    ignore)].  [all_lines] and [detected_lines] are references, which may
    be the same object; the store that comes back holds the mutation of
    [detected_lines], also when the call raises afterwards. *)
Definition reliable_contours (all_contours : pdict geom) (all_lines : ref)
    (free_lines : list (path * Line)) (detected_lines : ref)
    (ignore : option (path -> bool)) (h : store)
  : result (pdict geom) * store :=
  match compute_max_ids all_contours with
  | Raise e => (Raise e, h)
  | Ok max_ids =>
      let '(_, reliable, h') :=
        free_loop detected_lines free_lines (max_ids, [], h) in
      let block_lines := group_block_lines (h' all_lines) in
      (let* reliable := foldM (block_step all_contours ignore) block_lines reliable in
       Ok (passthrough all_contours reliable),
       h')
  end.
End ReliableContours.

(* ================================================================= *)
(** ** [ConfidenceSampler] (origami/batch/detect/lines.py) *)

(** A sampling grid: the array of shape (h, w, 2) that [line.warped_grid]
    returns, as its h rows of w points (x, y).  Coordinates are kept as
    exact rational numbers. *)
Definition grid : Type := list (list (Q * Q)).

(** A predictor of the segmentation: its name, its class enumeration (name
    and value of every class) and its label raster.  The raster is given by
    its shape (height, width) and by the label that the nearest-neighbour
    lookup finds at the map coordinates (x, y), which is the border value 0
    outside the raster. *)
Record Predictor : Type := {
  predictor_name : string;
  predictor_classes : list (string * Z);
  labels_shape : Z * Z;                          (* predictor.labels.shape *)
  labels_at : Q -> Q -> nat                      (* predictor.labels *)
}.

(** The sampler: its predictions by name and the shape (height, width) of
    the warped page, [tuple(reversed(page.warped.size))], as [__init__]
    stores them.  [warped_grid] stands for the method
    [line.warped_grid(xres=res, yres=res)] of the lines. *)
Record ConfidenceSampler {G : Geometry} : Type := {
  predictions : list (string * Predictor);
  _page_shape : Z * Z;
  warped_grid : Line -> Q -> grid
}.

(** [a / b] on Python integers. *)
Definition py_true_divide (a b : Z) : result Q :=
  if b =? 0 then Raise ZeroDivisionError
  else Ok (inject_Z a / inject_Z b)%Q.

(** [scale_grid(s0, s1, grid)]: the code scales the grid in place, here the
    scaled grid is returned. *)
Definition scale_grid (s0 s1 : Z * Z) (g : grid) : result grid :=
  let '(h0, w0) := s0 in
  let '(h1, w1) := s1 in
  let* fx := py_true_divide w1 w0 in
  let g := map (map (fun pt : Q * Q => (fst pt * fx, snd pt)%Q)) g in
  let* fy := py_true_divide h1 h0 in
  Ok (map (map (fun pt : Q * Q => (fst pt, snd pt * fy)%Q)) g).

(** [cv2.remap(labels, grid, None, cv2.INTER_NEAREST)]: OpenCV refuses an
    empty map with [cv2.error]; for any other map the result has the shape
    of the map and holds the label found at each of its points.  What
    OpenCV requires of the element types and of the sizes of the arrays is
    taken as met. *)
Definition cv2_remap (labels : Q -> Q -> nat) (g : grid) : result (list (list nat)) :=
  match List.concat g with
  | [] => Raise Cv2Error
  | _ :: _ => Ok (map (map (fun pt : Q * Q => labels (fst pt) (snd pt))) g)
  end.

Definition count_label (labels : list nat) (v : nat) : Z :=
  Z.of_nat (count_occ Nat.eq_dec labels v).

(** [np.bincount(labels, minlength=m)]. *)
Definition bincount (labels : list nat) (minlength : nat) : list Z :=
  let n := match labels with
           | [] => minlength
           | _ => Nat.max minlength (S (list_max labels))
           end in
  map (count_label labels) (seq 0 n).

(** [np.sum(counts)]. *)
Definition np_sum (counts : list Z) : Z := fold_right Z.add 0 counts.

(** [counts[i]] on an array: negative indices count from the end. *)
Definition np_index (a : list Z) (i : Z) : result Z :=
  let n := Z.of_nat (List.length a) in
  if (0 <=? i) && (i <? n) then index a (Z.to_nat i)
  else if (- n <=? i) && (i <? 0) then index a (Z.to_nat (n + i))
  else Raise IndexError.

(** [a / b] on numpy integers.  A zero divisor is marked with
    [ZeroDivisionError], so that its absence can be stated (numpy itself
    answers nan or inf with a warning).  The quotient is kept as the exact rational number; the
    rounding of the float division is not modelled. *)
Definition np_true_divide (a b : Z) : result Q :=
  if b =? 0 then Raise ZeroDivisionError
  else Ok (inject_Z a / inject_Z b)%Q.

Definition evidence_step (prediction_name : string) (counts : list Z) (sum_all : Z)
    (evidence : list (string * Q)) (k : string * Z) : result (list (string * Q)) :=
  let key := (prediction_name ++ "/" ++ fst k)%string in
  let* c := np_index counts (snd k) in
  let* q := np_true_divide c sum_all in
  Ok (dict_set String.eqb evidence key q).

(** [ConfidenceSampler.__call__(path, line, res)]. *)
Definition ConfidenceSampler_call {G : Geometry} (s : ConfidenceSampler) (p : path)
    (line : Line) (res : Q) : result (list (string * Q)) :=
  match firstn 2 p with
  | [prediction_name; _] =>
      match prediction_name with
      | CStr name =>
          let* predictor := dict_item String.eqb (predictions s) name in
          let grid := warped_grid s line res in
          let* grid := scale_grid (_page_shape s) (labels_shape predictor) grid in
          let* labels := cv2_remap (labels_at predictor) grid in
          let counts := bincount (List.concat labels)     (* labels.flatten() *)
                          (List.length (predictor_classes predictor)) in
          let sum_all := np_sum counts in
          if 0 <? sum_all
          then foldM (evidence_step name counts sum_all)
                 (predictor_classes predictor) []
          else Ok []
      | CInt _ => Raise KeyError
      end
  | _ => Raise ValueError
  end.

(* ================================================================= *)
(** ** Line reclassification ([LineDetectionProcessor.process]) *)

Definition enumerate {A : Type} (l : list A) : list (nat * A) :=
  combine (seq 0 (List.length l)) l.

Definition path_in (p : path) (s : list path) : bool := existsb (path_eqb p) s.

(** [set([tuple(x.split("/")) for x in table_columns.keys()])] *)
Definition c_tables_of (table_columns : list (string * list Z)) : list path :=
  map path_of_key (keys table_columns).

(** [a > b] on numbers. *)
Definition Qgt_bool (a b : Q) : bool := negb (Qle_bool a b).

Section Reclassify.
Context {G : Geometry}.

(** The error of a line after the table rule (lines 114-120). *)
Definition line_error (c_tables : list path) (prediction_name class_name block_id : comp)
    (line : Line) : Q :=
  let error := predicted_path_error line [prediction_name; class_name] in
  if path_eqb [prediction_name; class_name] [CStr "regions"; CStr "TABULAR"] then
    let has_columns := path_in [prediction_name; class_name; block_id] c_tables in
    if negb has_columns then 0%Q else error
  else error.

(** One round of [for line_id, line in enumerate(lines)]. *)
Definition reclassify_line (threshold : Q) (c_tables : list path)
    (prediction_name class_name block_id : comp)
    (st : pdict Line * list (path * Line)) (item : nat * Line)
  : pdict Line * list (path * Line) :=
  let '(detected_lines, free_lines) := st in
  let '(line_id, line) := item in
  let error := line_error c_tables prediction_name class_name block_id line in
  if Qgt_bool error threshold then
    (detected_lines, free_lines ++ [(predicted_path line, line)])
  else
    (pset detected_lines
       [prediction_name; class_name; block_id; CInt (Z.of_nat line_id)] line,
     free_lines).

(** One round of [for parts, lines in detected_lines_by_block.items()]. *)
Definition reclassify_block (threshold : Q) (c_tables : list path)
    (st : pdict Line * list (path * Line)) (item : path * list Line)
  : result (pdict Line * list (path * Line)) :=
  let '(parts, lines) := item in
  let* prediction_name := index parts 0 in
  let* class_name := index parts 1 in
  let* block_id := index parts 2 in
  Ok (fold_left (reclassify_line threshold c_tables prediction_name class_name block_id)
        (enumerate lines) st).

(** Lines 103-127 of [process]: the kept lines ([detected_lines]) and the
    freed lines ([free_lines]). *)
Definition reclassify (threshold : Q) (table_columns : list (string * list Z))
    (detected_lines_by_block : list (path * list Line))
  : result (pdict Line * list (path * Line)) :=
  foldM (reclassify_block threshold (c_tables_of table_columns))
    detected_lines_by_block ([], []).
End Reclassify.

(* ================================================================= *)
(** ** The rest of [LineDetectionProcessor.process] *)

(** A positional argument of the call at lines 129-130. *)
Inductive pyval {G : Geometry} : Type :=
| VContours (c : pdict geom)
| VFree (l : list (path * Line))
| VLines (r : ref)
| VIgnore (f : path -> bool).

(** Binding positional arguments to the parameters
    [(all_contours, all_lines, free_lines, detected_lines, ignore=None)]:
    four are required, a fifth is optional. *)
Definition bind_positional {A : Type} (args : list A)
  : result (A * A * A * A * option A) :=
  match args with
  | [a; b; c; d] => Ok (a, b, c, d, None)
  | [a; b; c; d; e] => Ok (a, b, c, d, Some e)
  | _ => Raise TypeError
  end.

(** A call [reliable_contours(args...)].  Only the binding of arguments to
    parameters is dynamic here: once bound, the body is that of
    [reliable_contours] when every value has the type the body uses it at.
    Other bindings are outside the model and are reported as [TypeError]
    (what Python does with them depends on the values). *)
Definition call_reliable_contours {G : Geometry} (args : list pyval) (h : store)
  : result (pdict geom) * store :=
  match bind_positional args with
  | Raise e => (Raise e, h)
  | Ok (VContours c, VLines al, VFree fl, VLines dl, None) =>
      reliable_contours c al fl dl None h
  | Ok (VContours c, VLines al, VFree fl, VLines dl, Some (VIgnore f)) =>
      reliable_contours c al fl dl (Some f) h
  | Ok _ => (Raise TypeError, h)
  end.

(** What a zip entry holds: the entry's text is the serialization of the
    value kept here. *)
Inductive lines_entry {G : Geometry} : Type :=
| MetaJson (version : Z) (min_confidence : Z)   (* json.dumps(info) *)
| LineJson (line : Line).                       (* json.dumps(line.info) *)

Record page_output {G : Geometry} : Type := {
  lines_zip : list (string * lines_entry);
  contours_zip : list (string * geom);          (* name, contour.wkt *)
  error_log : list (path * string)              (* logging.error: key, type *)
}.

(** ["/".join(map(str, k)) + ext] *)
Definition entry_name (k : path) (ext : string) : string :=
  (join "/" (map py_str k) ++ ext)%string.

Section Process.
Context {G : Geometry}.

(** Lines 132-137. *)
Definition write_lines (min_confidence : Z) (detected_lines : pdict Line)
  : list (string * lines_entry) :=
  ("meta.json", MetaJson 1 min_confidence)
  :: map (fun item => (entry_name (fst item) ".json", LineJson (snd item)))
       detected_lines.

(** One round of the loop at lines 140-144. *)
Definition write_contour (st : list (path * string) * list (string * geom))
    (item : path * geom) : list (path * string) * list (string * geom) :=
  let '(log, files) := st in
  let '(k, contour) := item in
  let log := if negb (String.eqb (geom_type contour) "Polygon")
                && negb (is_empty contour)
             then log ++ [(k, geom_type contour)] else log in
  (log, files ++ [(entry_name k ".wkt", contour)]).

(** Lines 139-144. *)
Definition write_contours (reliable : pdict geom)
  : list (path * string) * list (string * geom) :=
  fold_left write_contour reliable ([], []).

(** The options and collaborators [process] reads. *)
Record Options : Type := {
  reclassify_lines_threshold : Q;
  text_regions : path -> bool                    (* RegionsFilter *)
}.

Record Page : Type := {
  blocks : pdict geom;                           (* aggregate.regions.by_path *)
  table_columns : list (string * list Z);        (* aggregate.tables["columns"] *)
  sampler : ConfidenceSampler;                   (* over warped.segmentation *)
  detector : pdict geom -> list (path * list Line)  (* ConcurrentLineDetector *)
}.

(** Lines 99-101: the sampler runs on every line; the confidence it feeds
    into the line is not read again by this code. *)
Definition update_confidences (s : ConfidenceSampler)
    (by_block : list (path * list Line)) : result unit :=
  foldM (fun _ item =>
           foldM (fun _ line => let* _ := ConfidenceSampler_call s (fst item) line (1 # 2) in Ok tt)
             (snd item) tt)
    by_block tt.

(** [LineDetectionProcessor.process]; [None] is the early return of an
    empty page. *)
Definition process (options : Options) (page : Page) : result (option page_output) :=
  match blocks page with
  | [] => Ok None
  | _ =>
      let text_blocks := filter (fun item => text_regions options (fst item)) (blocks page) in
      let detected_lines_by_block := detector page text_blocks in
      let* _ := update_confidences (sampler page) detected_lines_by_block in
      let* st := reclassify (reclassify_lines_threshold options) (table_columns page)
                   detected_lines_by_block in
      let '(detected_lines, free_lines) := st in
      let h : store := store_set (fun _ => []) 0%nat detected_lines in
      let '(r, h') := call_reliable_contours
                        [VContours (blocks page); VFree free_lines; VLines 0%nat] h in
      let* reliable := r in
      let '(log, files) := write_contours reliable in
      Ok (Some {| lines_zip := write_lines 0 (h' 0%nat);
                  contours_zip := files;
                  error_log := log |})
  end.
End Process.

(* ================================================================= *)
(** ** [LineRewriter] (origami/batch/core/lines.py) *)

(** [LineRewriter.__init__]: [dict((tuple(k.split("/")), xs) for ...)]. *)
Definition LineRewriter_init (columns : list (string * list Z)) : pdict (list Z) :=
  fold_left (fun d item => pset d (path_of_key (fst item)) (snd item)) columns [].

(** [path[-1]] *)
Definition last_comp (p : path) : result comp :=
  match rev p with
  | c :: _ => Ok c
  | [] => Raise IndexError
  end.

(** [LineRewriter._column_path(path, column)]. *)
Definition _column_path (p : path) (column : Z) : result path :=
  if column <? 1 then Raise AssertionError
  else
    match firstn 2 p with
    | [predictor; label] =>
        let* c2 := index p 2 in
        match c2 with
        | CInt _ => Raise AttributeError
        | CStr s =>
            match split "."%char s with
            | [block; division; _; _] =>
                let* l := last_comp p in
                let* n := py_int l in
                let line := 1 + n in
                let grid := join "." [block; division; string_of_Z line; string_of_Z column] in
                Ok [predictor; label; CStr grid; CStr (string_of_Z 0)]
            | _ => Raise RuntimeError
            end
        end
    | _ => Raise ValueError
    end.

(** [zip(line_columns, line_columns[1:])] for
    [line_columns = [None] + xs + [None]]. *)
Definition column_pairs (xs : list Z) : list (option Z * option Z) :=
  let line_columns := [None] ++ map Some xs ++ [None] in
  combine line_columns (tl line_columns).

Section Rewriter.
Context {G : Geometry}.

Definition line_part : Type := path * Line * option (option Z * option Z).

Definition column_part (p : path) (line : Line) (parts : list line_part)
    (item : nat * (option Z * option Z)) : result (list line_part) :=
  let* cp := _column_path p (1 + Z.of_nat (fst item)) in
  Ok (parts ++ [(cp, line, Some (snd item))]).

(** One round of [for path, line in lines.items()]. *)
Definition rewrite_line (columns : pdict (list Z)) (parts : list line_part)
    (item : path * Line) : result (list line_part) :=
  let '(p, line) := item in
  match pget columns (firstn 3 p) with
  | None => Ok (parts ++ [(p, line, None)])
  | Some xs => foldM (column_part p line) (enumerate (column_pairs xs)) parts
  end.

(** [LineRewriter.__call__(lines)]. *)
Definition LineRewriter_call (columns : pdict (list Z)) (lines : pdict Line)
  : result (list line_part) :=
  foldM (rewrite_line columns) lines [].
End Rewriter.

(* ================================================================= *)
(** ** A concrete geometry: unions of axis-parallel boxes *)

(** Regions built from closed boxes with integer corners, as point sets.
    Intersection and union are exact on them.  The convex hull is taken as
    the bounding box, which is the convex hull exactly when the four corners
    of the bounding box belong to the region ([hull_exact]); the concrete
    inputs below are chosen so.  The type of a region is told apart as far
    as the code needs it: a region is a [Polygon] when it has area, no
    dangling lower-dimensional piece, and its boxes hang together along
    edges. *)
Module Rect.

Record box : Type := { bx0 : Z; bx1 : Z; by0 : Z; by1 : Z }.

Definition box_ok (b : box) : bool :=
  (bx0 b <=? bx1 b) && (by0 b <=? by1 b).

Definition box_inter (a b : box) : box :=
  {| bx0 := Z.max (bx0 a) (bx0 b); bx1 := Z.min (bx1 a) (bx1 b);
     by0 := Z.max (by0 a) (by0 b); by1 := Z.min (by1 a) (by1 b) |}.

Definition box_join (a b : box) : box :=
  {| bx0 := Z.min (bx0 a) (bx0 b); bx1 := Z.max (bx1 a) (bx1 b);
     by0 := Z.min (by0 a) (by0 b); by1 := Z.max (by1 a) (by1 b) |}.

Definition box_dim (b : box) : nat :=
  Nat.add (if bx0 b <? bx1 b then 1%nat else 0%nat)
          (if by0 b <? by1 b then 1%nat else 0%nat).

Definition box_within (a b : box) : bool :=
  (bx0 b <=? bx0 a) && (bx1 a <=? bx1 b) && (by0 b <=? by0 a) && (by1 a <=? by1 b).

Definition region : Type := list box.

Definition inter (r s : region) : region :=
  filter box_ok (flat_map (fun a => map (box_inter a) s) r).

Definition union (l : list region) : region := List.concat l.

Definition hull (r : region) : region :=
  match filter box_ok r with
  | [] => []
  | b :: r' => [fold_left box_join r' b]
  end.

(** Two boxes hang together when they share more than a point. *)
Definition touch (a b : box) : bool :=
  let i := box_inter a b in box_ok i && (1 <=? box_dim i)%nat.

(** The boxes of [rest] that cannot be reached from [seen]. *)
Fixpoint unreached (fuel : nat) (seen rest : list box) : list box :=
  match fuel with
  | O => rest
  | S fuel' =>
      let '(near, far) := partition (fun b => existsb (touch b) seen) rest in
      match near with
      | [] => far
      | _ => unreached fuel' (near ++ seen) far
      end
  end.

Definition connected (r : region) : bool :=
  match r with
  | [] => true
  | b :: r' => match unreached (List.length r') [b] r' with
               | [] => true
               | _ => false
               end
  end.

Definition type_of (r : region) : string :=
  let r := filter box_ok r in
  let polys := filter (fun b => (box_dim b =? 2)%nat) r in
  let lower := filter (fun b => negb (box_dim b =? 2)%nat
                                && negb (existsb (box_within b) polys)) r in
  match polys, lower with
  | [], [] => "GeometryCollection"
  | [], [b] => if (box_dim b =? 1)%nat then "LineString" else "Point"
  | [], _ => "GeometryCollection"
  | _, [] => if connected polys then "Polygon" else "MultiPolygon"
  | _, _ => "GeometryCollection"
  end.

Definition empty (r : region) : bool :=
  match filter box_ok r with
  | [] => true
  | _ => false
  end.

(** The point [(x, y)] lies in the region. *)
Definition mem (r : region) (x y : Q) : bool :=
  existsb (fun b => Qle_bool (inject_Z (bx0 b)) x && Qle_bool x (inject_Z (bx1 b))
                    && Qle_bool (inject_Z (by0 b)) y && Qle_bool y (inject_Z (by1 b)))
    r.

(** [r] is contained in [s], as point sets. *)
Definition subset (r s : region) : Prop :=
  forall x y : Q, mem r x y = true -> mem s x y = true.

(** The bounding box of [r] is its convex hull: its corners lie in [r]. *)
Definition hull_exact (r : region) : bool :=
  match hull r with
  | [b] =>
      mem r (inject_Z (bx0 b)) (inject_Z (by0 b))
      && mem r (inject_Z (bx0 b)) (inject_Z (by1 b))
      && mem r (inject_Z (bx1 b)) (inject_Z (by0 b))
      && mem r (inject_Z (bx1 b)) (inject_Z (by1 b))
  | _ => true
  end.

#[export] Instance geometry : Geometry := {|
  geom := region;
  convex_hull := hull;
  intersection := inter;
  cascaded_union := union;
  geom_type := type_of;
  is_empty := empty
|}.

Definition rect (x0 x1 y0 y1 : Z) : region :=
  [{| bx0 := x0; bx1 := x1; by0 := y0; by1 := y1 |}].

End Rect.

(* ================================================================= *)
(** ** Words of the specification *)

(** [m] is the largest numeric suffix among the paths [ks] below the prefix
    [P], and [0] if there is none. *)
Definition is_max_of (ks : list path) (P : path) (m : Z) : Prop :=
  0 <= m
  /\ (forall k c z, In k ks -> firstn 2 k = P ->
        nth_error k 2 = Some c -> py_int c = Ok z -> z <= m)
  /\ (m = 0 \/ exists k c, In k ks /\ firstn 2 k = P
                           /\ nth_error k 2 = Some c /\ py_int c = Ok m).

Definition is_max_id {G : Geometry} (C : pdict geom) (P : path) (m : Z) : Prop :=
  is_max_of (keys C) P m.

(** How many of the freed lines in [pre] predict the path [P]. *)
Definition count_path {A : Type} (P : path) (pre : list (path * A)) : Z :=
  Z.of_nat (List.length (filter (fun it => path_eqb (fst it) P) pre)).

(** The region path given to a freed line that predicts [P] and comes after
    the freed lines [pre], when [m] is the largest suffix below [P]. *)
Definition fresh_path {A : Type} (P : path) (m : Z) (pre : list (path * A)) : path :=
  P ++ [CInt (m + 1 + count_path P pre)].

(** The lines of a block, in the order of the dictionary of lines. *)
Definition lines_of_block {G : Geometry} (lines : pdict Line) (p : path) : list Line :=
  map snd (filter (fun it => path_eqb (firstn 3 (fst it)) p) lines).

(** [k] is the key under which [reliable_contours] stores one of the freed
    lines [fl] in the dictionary of detected lines. *)
Definition new_line_key {G : Geometry} (C : pdict geom) (fl : list (path * Line))
    (k : path) : Prop :=
  exists pre P line post m,
    fl = pre ++ (P, line) :: post /\ is_max_id C P m
    /\ k = (P ++ [CInt (m + 1 + count_path P pre)]) ++ [CInt 0].

(** An entry of the mapping that is neither of type Polygon nor empty. *)
Definition logged {G : Geometry} (item : path * geom) : bool :=
  negb (String.eqb (geom_type (snd item)) "Polygon") && negb (is_empty (snd item)).

(** The kept lines of a block in detector order: those whose error, after
    the table rule, is at most the threshold. *)
Definition kept_lines {G : Geometry} (threshold : Q) (c_tables : list path)
    (prediction_name class_name block_id : comp) (lines : list Line) : list Line :=
  filter (fun l => Qle_bool (line_error c_tables prediction_name class_name block_id l)
                     threshold) lines.

(** The dot-separated fields of the table component of a path, when the
    component is a string. *)
Definition table_fields (p : path) : option (list string) :=
  match nth_error p 2 with
  | Some (CStr s) => Some (split "."%char s)
  | _ => None
  end.

(** The table component consists of exactly four fields. *)
Definition four_fields (p : path) : bool :=
  match table_fields p with
  | Some fs => Nat.eqb (List.length fs) 4
  | None => false
  end.

(** The last component of the path is an integer (the line identifier). *)
Definition line_id_ok (p : path) : Prop :=
  exists c n, last_comp p = Ok c /\ py_int c = Ok n.

(** Consecutive pairs of the boundaries [xs], open on the outer edges. *)
Fixpoint ranges_from (left : option Z) (xs : list Z) : list (option Z * option Z) :=
  match xs with
  | [] => [(left, None)]
  | x :: xs' => (left, Some x) :: ranges_from (Some x) xs'
  end.

Definition column_ranges (xs : list Z) : list (option Z * option Z) :=
  ranges_from None xs.

(** The parts that the rewriter emits for one line. *)
Definition parts_of_line {G : Geometry} (columns : pdict (list Z))
    (item : path * Line) (seg : list line_part) : Prop :=
  match pget columns (firstn 3 (fst item)) with
  | None => seg = [(fst item, snd item, None)]
  | Some xs =>
      List.length seg = S (List.length xs)
      /\ map snd seg = map Some (column_ranges xs)
      /\ Forall (fun part => snd (fst part) = snd item) seg
  end.

(** A line whose block prefix matches a table entry and whose table
    component does not consist of exactly four fields. *)
Definition malformed (columns : pdict (list Z)) (p : path) : bool :=
  match pget columns (firstn 3 p) with
  | Some _ => negb (four_fields p)
  | None => false
  end.

(* ================================================================= *)
(** ** Concrete pages *)

Module Ex.
Import Rect.

Definition regions_TEXT : path := [CStr "regions"; CStr "TEXT"].
Definition regions_TABULAR : path := [CStr "regions"; CStr "TABULAR"].

(** A line with a constant path error. *)
Definition mk_line (name : string) (pred : path) (err : Q) (poly : region) : Line :=
  {| line_name := name; predicted_path := pred;
     predicted_path_error := fun _ => err; image_space_polygon := poly |}.

Definition empty_store : store := fun _ => [].

(** Two TEXT contours with the identifiers 0 and 2, three freed lines. *)
Definition contours_0_2 : pdict geom :=
  [ (regions_TEXT ++ [CStr "0"], rect 0 10 0 10);
    (regions_TEXT ++ [CStr "2"], rect 0 10 20 30) ].

Definition freed_b : Line := mk_line "b" regions_TEXT (4 # 5) (rect 1 9 41 43).
Definition freed_c : Line := mk_line "c" regions_TABULAR (4 # 5) (rect 1 9 45 47).
Definition freed_d : Line := mk_line "d" regions_TEXT (4 # 5) (rect 1 9 49 51).

Definition three_freed : list (path * Line) :=
  [ (regions_TEXT, freed_b); (regions_TABULAR, freed_c); (regions_TEXT, freed_d) ].

(** One TEXT contour with the identifier 0; the dictionary of detected lines
    already holds a line under regions/TEXT/1/0. *)
Definition contour_0 : pdict geom :=
  [ (regions_TEXT ++ [CInt 0], rect 0 10 0 10) ].

Definition line_a : Line := mk_line "a" regions_TEXT (1 # 10) (rect 1 9 1 3).

Definition store_with_line_a : store :=
  store_set empty_store 0%nat [ (regions_TEXT ++ [CInt 1; CInt 0], line_a) ].

Definition store_kept_a : store :=
  store_set empty_store 0%nat [ (regions_TEXT ++ [CStr "0"; CInt 0], line_a) ].

(** The block regions/TEXT/0. *)
Definition block_0 : path := regions_TEXT ++ [CStr "0"].

(** A kept line in the block regions/TEXT/0, held by the dictionary behind
    the reference 1. *)
Definition store_of_kept (line : Line) : store :=
  store_set empty_store 1%nat [ (block_0 ++ [CInt 0], line) ].

(** A convex contour and a line inside it. *)
Definition square_contour : pdict geom := [ (block_0, rect 0 10 0 10) ].

(** A contour in the shape of a U (two arms of height 6 on a base) and a
    line that lies across both arms. *)
Definition shape_U : region :=
  [ {| bx0 := 0; bx1 := 6; by0 := 0; by1 := 2 |};
    {| bx0 := 0; bx1 := 2; by0 := 0; by1 := 6 |};
    {| bx0 := 4; bx1 := 6; by0 := 0; by1 := 6 |} ].

Definition contour_U : pdict geom := [ (block_0, shape_U) ].

Definition line_across : Line := mk_line "across" regions_TEXT (1 # 10) (rect 0 6 4 6).

(** A contour and a line that touches it from outside along an edge. *)
Definition small_contour : pdict geom := [ (block_0, rect 0 2 0 2) ].

Definition line_beside : Line := mk_line "beside" regions_TEXT (1 # 10) (rect 2 4 0 2).

(** A TEXT block whose first line has the error 0.8 and whose second line
    has the error 0.1. *)
Definition line_far : Line := mk_line "far" regions_TABULAR (4 # 5) (rect 1 9 1 3).
Definition line_near : Line := mk_line "near" regions_TEXT (1 # 10) (rect 1 9 5 7).

Definition far_then_near : list (path * list Line) :=
  [ (block_0, [line_far; line_near]) ].

(** A TABULAR block without registered columns and one of its lines, whose
    raw error is 0.9. *)
Definition table_block : path := regions_TABULAR ++ [CStr "0"].
Definition table_line : Line := mk_line "row" regions_TEXT (9 # 10) (rect 1 9 1 3).

Definition table_page : list (path * list Line) := [ (table_block, [table_line]) ].

(** The page of the end-to-end scenario: one TEXT block with the identifier
    0 and two detected lines with the errors 0.1 and 0.8. *)
Definition scenario_first : Line := mk_line "first" regions_TEXT (1 # 10) (rect 1 9 1 3).
Definition scenario_second : Line := mk_line "second" regions_TABULAR (4 # 5) (rect 1 9 5 7).

(** A label raster of 10 by 10 pixels: TEXT above TABULAR, and a margin of
    BACKGROUND on the right. *)
Definition regions_raster (x y : Q) : nat :=
  if Qle_bool x 8 then (if Qle_bool y 5 then 1 else 2)%nat else 0%nat.

Definition regions_predictor : Predictor :=
  {| predictor_name := "regions";
     predictor_classes := [("BACKGROUND", 0); ("TEXT", 1); ("TABULAR", 2)];
     labels_shape := (10, 10);
     labels_at := regions_raster |}.

(** The grids of the lines, by name: two by two points for the lines of the
    scenario, and no point for any other line. *)
Definition scenario_grid (line : Line) (res : Q) : grid :=
  if String.eqb (line_name line) "first"
  then [ [ (2, 2); (10, 2) ]; [ (2, 6); (18, 6) ] ]%Q
  else if String.eqb (line_name line) "second"
  then [ [ (2, 12); (10, 12) ]; [ (2, 10); (18, 14) ] ]%Q
  else [].

(** The warped page has 20 by 20 pixels, twice the raster. *)
Definition scenario_sampler : ConfidenceSampler :=
  {| predictions := [("regions", regions_predictor)];
     _page_shape := (20, 20);
     warped_grid := scenario_grid |}.



Definition scenario_page : Page :=
  {| blocks := square_contour;
     table_columns := [];
     sampler := scenario_sampler;
     detector := fun _ => [ (block_0, [scenario_first; scenario_second]) ] |}.

Definition scenario_options : Options :=
  {| reclassify_lines_threshold := 1 # 2; text_regions := fun _ => true |}.

(** The kept lines of the scenario, as a dictionary of their own behind the
    reference 1, next to the dictionary [detected_lines] behind 0. *)
Definition scenario_store : store :=
  store_set (store_set empty_store 0%nat [ (block_0 ++ [CInt 0], scenario_first) ])
    1%nat [ (block_0 ++ [CInt 0], scenario_first) ].

(** A table with the column boundaries 100 and 300, one of its lines and a
    line of a text block. *)
Definition cell : path := regions_TABULAR ++ [CStr "3.1.1.1"].

Definition table_with_columns : list (string * list Z) :=
  [ ("regions/TABULAR/3.1.1.1", [100; 300]) ].

Definition row_line : Line := mk_line "row" regions_TABULAR (1 # 10) (rect 0 400 0 20).

Definition lines_to_rewrite : pdict Line :=
  [ (cell ++ [CInt 0], row_line); (block_0 ++ [CInt 0], line_a) ].

(** A table entry whose block component has three fields only. *)
Definition short_table : list (string * list Z) :=
  [ ("regions/TABULAR/block.division.row", [100; 300]) ].

Definition lines_of_short_table : pdict Line :=
  [ (block_0 ++ [CInt 0], line_a);
    (regions_TABULAR ++ [CStr "block.division.row"; CInt 0], row_line) ].

End Ex.

(* ================================================================= *)
(** ** Further concrete pages *)

Module More.
Import Rect.

(** The contour of a table cell: its third component is no integer. *)
Definition cell_contours : pdict geom := [ (Ex.cell, rect 0 400 0 20) ].

(** A line in the block regions/TEXT/7, which has no contour among
    [Ex.contours_0_2]. *)
Definition store_of_stray : store :=
  store_set Ex.empty_store 1%nat [ (Ex.regions_TEXT ++ [CStr "7"; CInt 0], Ex.line_a) ].

End More.

(* ================================================================= *)
(** ** Further words for the properties below *)

(** The freed lines of one block, in detector order, each with its own
    predicted path. *)
Definition freed_of_block {G : Geometry} (threshold : Q) (c_tables : list path)
    (item : path * list Line) : list (path * Line) :=
  match firstn 3 (fst item) with
  | [pn; cn; bid] =>
      map (fun l => (predicted_path l, l))
        (filter (fun l => Qgt_bool (line_error c_tables pn cn bid l) threshold)
           (snd item))
  | _ => []
  end.

(** Whether the character [c] occurs in [s]. *)
Fixpoint has_char (c : ascii) (s : string) : bool :=
  match s with
  | EmptyString => false
  | String a r => Ascii.eqb a c || has_char c r
  end.

(** The path of a part that the rewriter emits. *)
Definition part_path {G : Geometry} (part : line_part) : path := fst (fst part).

(** Every character of [s] satisfies [P]. *)
Fixpoint string_forall (P : ascii -> bool) (s : string) : bool :=
  match s with
  | EmptyString => true
  | String a r => P a && string_forall P r
  end.

Definition is_digit (c : ascii) : bool :=
  match digit_val c with
  | Some _ => true
  | None => false
  end.

(* ================================================================= *)
(** ** Zero-padded numbers in entry names *)

Fixpoint zeros (k : nat) : string :=
  match k with
  | O => EmptyString
  | S k' => String "0" (zeros k')
  end.

Definition zero_pad (width : nat) (s : string) : string :=
  (zeros (width - String.length s) ++ s)%string.

(** ["%0<width>d" % n]: the sign counts in the width. *)
Definition format_0d (width : nat) (n : Z) : string :=
  if n <? 0 then String "-" (zero_pad (width - 1) (string_of_Z (- n)))
  else zero_pad width (string_of_Z n).

(* ================================================================= *)
(** ** [LineExtractor] (core/lines.py) *)

(** [dict(items)]: a later item replaces the value of an equal key. *)
Definition dict_of_items {V : Type} (items : list (path * V)) : pdict V :=
  fold_left (fun d kv => pset d (fst kv) (snd kv)) items [].

(** [a < b] on confidences. *)
Definition Qlt_bool (a b : Q) : bool := negb (Qle_bool b a).

Section Extractor.
Context {G : Geometry}.

(** What the extractor takes from a line: its confidence, and the image
    that [Line.image] renders for a column range under the extractor's
    options (line height, dewarping, deskewing, binarizer). *)
Variable Image : Type.
Variable confidence : Line -> Q.
Variable image : Line -> option (option Z * option Z) -> Image.

Record LineExtractor : Type := {
  _min_confidence : Q;
  _rewriter : pdict (list Z)                     (* LineRewriter(tables)._columns *)
}.

(** [_extract_line_image(item)] *)
Definition _extract_line_image (item : line_part) : path * Image :=
  let '(line_path, line, column) := item in
  (line_path, image line column).

(** The lines left by [ignored], a predicate on the first two components
    of a path. *)
Definition not_ignored_lines (ignored : option (path -> bool)) (lines : pdict Line)
  : pdict Line :=
  match ignored with
  | None => lines
  | Some ign =>
      dict_of_items (filter (fun kv => negb (ign (firstn 2 (fst kv)))) lines)
  end.

(** The loop over the lines: a line below the minimum confidence is
    skipped (and logged), any other line is kept. *)
Definition filtered_lines (ex : LineExtractor) (lines : pdict Line)
  : list (path * Line) :=
  filter (fun kv => negb (Qlt_bool (confidence (snd kv)) (_min_confidence ex))) lines.

(** [LineExtractor.__call__(lines, ignored)]; the pool maps
    [_extract_line_image] over the parts and returns the results in the
    order of the parts. *)
Definition LineExtractor_call (ex : LineExtractor) (lines : pdict Line)
    (ignored : option (path -> bool)) : result (list (path * Image)) :=
  let lines := not_ignored_lines ignored lines in
  let* line_parts :=
    LineRewriter_call (_rewriter ex) (dict_of_items (filtered_lines ex lines)) in
  Ok (map _extract_line_image line_parts).

(** A line that the extractor works on: not ignored, and with a confidence
    of at least the minimum. *)
Definition extracted (ex : LineExtractor) (ignored : option (path -> bool))
    (kv : path * Line) : bool :=
  match ignored with
  | None => true
  | Some ign => negb (ign (firstn 2 (fst kv)))
  end
  && Qle_bool (_min_confidence ex) (confidence (snd kv)).

(** The images of one line: the images of the parts the rewriter makes of
    it. *)
Definition images_of_line (ex : LineExtractor) (item : path * Line)
    (seg : list (path * Image)) : Prop :=
  exists parts,
    parts_of_line (_rewriter ex) item parts /\ seg = map _extract_line_image parts.
End Extractor.

(* ================================================================= *)
(** ** The warp stage (detect/warp.py) *)

Inductive warp_entry {G : Geometry} : Type :=
| WarpMeta (version : Z)                         (* json.dumps(dict(version=1)) *)
| WarpLine (line : Line).                        (* json.dumps(line.info) *)

(** ["%s/%s/%s/%04d" % (prediction_name, class_name, block_id, line_id)] *)
Definition warp_line_name (prediction_name class_name block_id : comp) (line_id : nat)
  : string :=
  (py_str prediction_name ++ "/" ++ py_str class_name ++ "/" ++ py_str block_id
   ++ "/" ++ format_0d 4 (Z.of_nat line_id))%string.

Section Warp.
Context {G : Geometry}.

(** One round of the loop over [block_lines.items()] (lines 46-54). *)
Definition warp_block (files : list (string * warp_entry)) (item : path * list Line)
  : result (list (string * warp_entry)) :=
  let '(parts, lines) := item in
  let* prediction_name := index parts 0 in
  let* class_name := index parts 1 in
  let* block_id := index parts 2 in
  Ok (files
      ++ map (fun il =>
                ((warp_line_name prediction_name class_name block_id (fst il)
                  ++ ".json")%string,
                 WarpLine (snd il)))
           (enumerate lines)).

(** [WarpDetectionProcessor.process]: the entries of the archive
    [.warped.lines.zip], in the order they are written; [detector] stands
    for [ConcurrentLineDetector]. *)
Definition warp_process (detector : pdict geom -> list (path * list Line))
    (blocks : pdict geom) : result (list (string * warp_entry)) :=
  foldM warp_block (detector blocks) [("meta.json", WarpMeta 1)].
End Warp.

Module Pages.
Import Rect.

(** Confidences by line name. *)
Definition confidence_by_name (line : Line) : Q :=
  if String.eqb (line_name line) "row" then 1 # 2 else 3 # 10.

(** The image of a line, as the pair of the line's name and the range. *)
Definition named_image (line : Line) (column : option (option Z * option Z))
  : string * option (option Z * option Z) :=
  (line_name line, column).

Definition table_extractor : LineExtractor :=
  {| _min_confidence := 1 # 2; _rewriter := LineRewriter_init Ex.table_with_columns |}.

(** An extractor for the table whose block name has three fields only. *)
Definition short_table_extractor : LineExtractor :=
  {| _min_confidence := 1 # 2; _rewriter := LineRewriter_init Ex.short_table |}.

(** The same lines as [Ex.lines_of_short_table], with a table line of low
    confidence. *)
Definition faint_row : Line := Ex.mk_line "faint" Ex.regions_TABULAR (1 # 10) (rect 0 400 0 20).

Definition lines_with_faint_row : pdict Line :=
  [ (Ex.block_0 ++ [CInt 0], Ex.row_line);
    (Ex.regions_TABULAR ++ [CStr "block.division.row"; CInt 0], faint_row) ].

(** Two blocks with two lines and one line. *)
Definition detected : list (path * list Line) :=
  [ (Ex.block_0, [Ex.line_a; Ex.row_line]);
    (Ex.regions_TEXT ++ [CStr "1"], [Ex.line_a]) ].
End Pages.

(** The names of the line entries of one block, in the order they are
    written. *)
Definition warp_names {G : Geometry} (item : path * list Line) : list string :=
  match fst item with
  | prediction_name :: class_name :: block_id :: _ =>
      map (fun i => (warp_line_name prediction_name class_name block_id i ++ ".json")%string)
        (seq 0 (List.length (snd item)))
  | _ => []
  end.

(* ================================================================= *)
(** * Verification *)

(** ** Paths and dictionaries *)

Lemma comp_eqb_eq (a b : comp) : comp_eqb a b = true <-> a = b.
Proof.
  destruct a as [s|x], b as [t|y]; simpl.
  - rewrite String.eqb_eq. split; congruence.
  - split; discriminate.
  - split; discriminate.
  - rewrite Z.eqb_eq. split; congruence.
Qed.

Lemma path_eqb_eq (p q : path) : path_eqb p q = true <-> p = q.
Proof.
  revert q; induction p as [|a p IH]; intros [|b q]; simpl;
    try (split; (reflexivity || discriminate)).
  rewrite andb_true_iff, comp_eqb_eq, IH. split.
  - intros [-> ->]; reflexivity.
  - intros H; injection H; auto.
Qed.

Lemma path_eqb_refl (p : path) : path_eqb p p = true.
Proof. apply path_eqb_eq; reflexivity. Qed.

Lemma path_eqb_neq (p q : path) : p <> q -> path_eqb p q = false.
Proof.
  intros H. destruct (path_eqb p q) eqn:E; [|reflexivity].
  apply path_eqb_eq in E. contradiction.
Qed.

Lemma path_eqb_sym (p q : path) : path_eqb p q = path_eqb q p.
Proof.
  destruct (path_eqb q p) eqn:E.
  - apply path_eqb_eq in E; subst. apply path_eqb_refl.
  - apply path_eqb_neq. intros ->. rewrite path_eqb_refl in E. discriminate.
Qed.

Lemma path_eq_dec (p q : path) : {p = q} + {p <> q}.
Proof.
  destruct (path_eqb p q) eqn:E.
  - left. apply path_eqb_eq, E.
  - right. intros ->. rewrite path_eqb_refl in E. discriminate.
Qed.

Section DictFacts.
Context {V : Type}.
Implicit Types (d : pdict V) (k : path) (v : V).

Lemma pget_pset_same d k v : pget (pset d k v) k = Some v.
Proof.
  unfold pget, pset. induction d as [|[k' v'] d IH]; simpl.
  - rewrite path_eqb_refl. reflexivity.
  - destruct (path_eqb k' k) eqn:E; simpl; rewrite E; auto.
Qed.

Lemma pget_pset_other d k k' v : k <> k' -> pget (pset d k v) k' = pget d k'.
Proof.
  intros Hne. unfold pget, pset. induction d as [|[k0 v0] d IH]; simpl.
  - rewrite path_eqb_neq by assumption. reflexivity.
  - destruct (path_eqb k0 k) eqn:E; simpl.
    + apply path_eqb_eq in E; subst k0.
      rewrite path_eqb_neq by assumption. reflexivity.
    + destruct (path_eqb k0 k'); auto.
Qed.

Lemma pget_In d k v : pget d k = Some v -> In k (keys d).
Proof.
  unfold pget, keys. induction d as [|[k0 v0] d IH]; simpl; [discriminate|].
  destruct (path_eqb k0 k) eqn:E.
  - apply path_eqb_eq in E. auto.
  - auto.
Qed.

Lemma In_pget d k : In k (keys d) -> exists v, pget d k = Some v.
Proof.
  unfold pget, keys. induction d as [|[k0 v0] d IH]; simpl; [contradiction|].
  intros [->|H].
  - rewrite path_eqb_refl. eauto.
  - destruct (path_eqb k0 k); eauto.
Qed.

Lemma pmem_true d k : pmem d k = true <-> In k (keys d).
Proof.
  unfold pmem, dict_mem. fold (pget d k). split.
  - destruct (pget d k) eqn:E; [|discriminate]. intros _. eapply pget_In, E.
  - intros H. apply In_pget in H. destruct H as [v ->]. reflexivity.
Qed.

Lemma pmem_false d k : pmem d k = false <-> pget d k = None.
Proof.
  unfold pmem, dict_mem. fold (pget d k). destruct (pget d k); split; congruence.
Qed.

Lemma keys_pset d k v :
  forall k', In k' (keys (pset d k v)) <-> k' = k \/ In k' (keys d).
Proof.
  intros k'. unfold pset, keys. induction d as [|[k0 v0] d IH]; simpl.
  - intuition congruence.
  - destruct (path_eqb k0 k) eqn:E; simpl.
    + apply path_eqb_eq in E. subst. intuition congruence.
    + rewrite IH. tauto.
Qed.
End DictFacts.

Section DefaultFacts.
Context {V : Type} (dflt : V).
Implicit Types (d : pdict V) (k : path) (v : V).

Lemma default_pset_same d k v : dict_get_default path_eqb dflt (pset d k v) k = v.
Proof.
  unfold dict_get_default. fold (pget (pset d k v) k).
  rewrite pget_pset_same. reflexivity.
Qed.

Lemma default_pset_other d k k' v :
  k <> k' ->
  dict_get_default path_eqb dflt (pset d k v) k' = dict_get_default path_eqb dflt d k'.
Proof.
  intros H. unfold dict_get_default. fold (pget (pset d k v) k') (pget d k').
  rewrite pget_pset_other by assumption. reflexivity.
Qed.
End DefaultFacts.

Lemma bind_Ok {A B : Type} (r : result A) (f : A -> result B) (b : B) :
  bind r f = Ok b -> exists a, r = Ok a /\ f a = Ok b.
Proof. destruct r; simpl; [eauto|discriminate]. Qed.

Lemma index_Ok {A : Type} (t : list A) (i : nat) (a : A) :
  index t i = Ok a <-> nth_error t i = Some a.
Proof.
  unfold index. destruct (nth_error t i); split; congruence.
Qed.

Lemma foldM_app {A S : Type} (step : S -> A -> result S) (xs ys : list A) (s : S) :
  foldM step (xs ++ ys) s = let* s' := foldM step xs s in foldM step ys s'.
Proof.
  revert s; induction xs as [|x xs IH]; intros s; simpl; [reflexivity|].
  destruct (step s x); simpl; auto.
Qed.

(** ** [reliable_contours]: the counters *)

Section MaxIds.
Context {G : Geometry}.

Local Notation "'ctr'" := (dict_get_default path_eqb 0).

Lemma is_max_of_nil (P : path) : is_max_of [] P 0.
Proof.
  repeat split; [lia| |left; reflexivity].
  intros k c z [].
Qed.

Lemma is_max_of_unique (ks : list path) (P : path) (m m' : Z) :
  is_max_of ks P m -> is_max_of ks P m' -> m = m'.
Proof.
  intros (H0 & Hub & Hat) (H0' & Hub' & Hat').
  assert (m <= m').
  { destruct Hat as [->|(k & c & Hk & HP & Hc & Hz)]; [assumption|].
    eapply Hub'; eauto. }
  assert (m' <= m).
  { destruct Hat' as [->|(k & c & Hk & HP & Hc & Hz)]; [assumption|].
    eapply Hub; eauto. }
  lia.
Qed.

Lemma max_ids_step_Ok (mx mx' : pdict Z) (k : path) :
  max_ids_step mx k = Ok mx' ->
  exists c z, nth_error k 2 = Some c /\ py_int c = Ok z
              /\ mx' = pset mx (firstn 2 k) (Z.max (ctr mx (firstn 2 k)) z).
Proof.
  unfold max_ids_step. intros H.
  apply bind_Ok in H. destruct H as (c & Hc & H).
  apply bind_Ok in H. destruct H as (z & Hz & H).
  apply index_Ok in Hc. injection H as <-. eauto.
Qed.

Lemma max_ids_step_inv (done : list path) (mx mx' : pdict Z) (k : path) :
  (forall P, is_max_of done P (ctr mx P)) ->
  max_ids_step mx k = Ok mx' ->
  forall P, is_max_of (done ++ [k]) P (ctr mx' P).
Proof.
  intros Hinv Hstep P.
  apply max_ids_step_Ok in Hstep. destruct Hstep as (c & z & Hc & Hz & ->).
  destruct (Hinv P) as (H0 & Hub & Hat).
  destruct (path_eq_dec (firstn 2 k) P) as [HP|HP].
  - subst P. rewrite default_pset_same. repeat split.
    + lia.
    + intros k' c' z' Hin Hpre Hc' Hz'. apply in_app_or in Hin.
      destruct Hin as [Hin|[<-|[]]].
      * specialize (Hub k' c' z' Hin Hpre Hc' Hz'). lia.
      * rewrite Hc in Hc'. injection Hc' as <-. rewrite Hz in Hz'.
        injection Hz' as <-. lia.
    + destruct (Z.max_spec (ctr mx (firstn 2 k)) z) as [[Hlt ->]|[Hle ->]].
      * right. exists k, c. repeat split; auto. apply in_or_app. right. left. reflexivity.
      * destruct Hat as [->|(k' & c' & Hin & Hpre & Hc' & Hz')]; [left; reflexivity|].
        right. exists k', c'. repeat split; auto. apply in_or_app. left. assumption.
  - rewrite default_pset_other by assumption. repeat split.
    + assumption.
    + intros k' c' z' Hin Hpre Hc' Hz'. apply in_app_or in Hin.
      destruct Hin as [Hin|[<-|[]]]; [eauto|contradiction].
    + destruct Hat as [Hz0|(k' & c' & Hin & Hpre & Hc' & Hz')]; [left; assumption|].
      right. exists k', c'. repeat split; auto. apply in_or_app. left. assumption.
Qed.

Lemma foldM_max_ids (ks done : list path) (mx mx' : pdict Z) :
  (forall P, is_max_of done P (ctr mx P)) ->
  foldM max_ids_step ks mx = Ok mx' ->
  (forall P, is_max_of (done ++ ks) P (ctr mx' P))
  /\ (forall k, In k ks -> exists c z, nth_error k 2 = Some c /\ py_int c = Ok z).
Proof.
  revert done mx. induction ks as [|k ks IH]; intros done mx Hinv H; simpl in H.
  - injection H as <-. rewrite app_nil_r. split; [assumption|]. intros k [].
  - apply bind_Ok in H. destruct H as (mx1 & Hstep & H).
    pose proof (max_ids_step_inv done mx mx1 k Hinv Hstep) as Hinv1.
    destruct (IH (done ++ [k]) mx1 Hinv1 H) as [Hmax Hok].
    rewrite <- app_assoc in Hmax. simpl in Hmax. split; [assumption|].
    intros k' [<-|Hin]; [|auto].
    apply max_ids_step_Ok in Hstep. destruct Hstep as (c & z & Hc & Hz & _). eauto.
Qed.

(** The first loop computes, for every prefix, the largest suffix. *)
Lemma compute_max_ids_spec (C : pdict geom) (mx : pdict Z) :
  compute_max_ids C = Ok mx ->
  (forall P, is_max_id C P (ctr mx P))
  /\ (forall k, In k (keys C) -> exists c z, nth_error k 2 = Some c /\ py_int c = Ok z).
Proof.
  unfold compute_max_ids, is_max_id. intros H.
  apply (foldM_max_ids (keys C) [] [] mx); [|assumption].
  intros P. apply is_max_of_nil.
Qed.

(** The first loop succeeds when every contour path has an integer third
    component. *)
Lemma compute_max_ids_total (C : pdict geom) :
  (forall k, In k (keys C) -> exists c z, nth_error k 2 = Some c /\ py_int c = Ok z) ->
  exists mx, compute_max_ids C = Ok mx.
Proof.
  unfold compute_max_ids. generalize (@nil (path * Z)) as mx.
  induction (keys C) as [|k ks IH]; intros mx Hok; simpl.
  - eauto.
  - destruct (Hok k (or_introl eq_refl)) as (c & z & Hc & Hz).
    unfold max_ids_step at 1. unfold index. rewrite Hc. simpl. rewrite Hz. simpl.
    apply IH. intros k' Hin. apply Hok. right. assumption.
Qed.
End MaxIds.

(** ** [reliable_contours]: the freed lines *)

Section FreeLoop.
Context {G : Geometry}.

Local Notation "'ctr'" := (dict_get_default path_eqb 0).

Lemma count_path_nil {A : Type} (P : path) : count_path P (@nil (path * A)) = 0.
Proof. reflexivity. Qed.

Lemma count_path_cons {A : Type} (P Q : path) (a : A) (pre : list (path * A)) :
  count_path P ((Q, a) :: pre)
  = (if path_eqb Q P then 1 else 0) + count_path P pre.
Proof.
  unfold count_path. simpl. destruct (path_eqb Q P); simpl List.length; lia.
Qed.

Lemma count_path_nonneg {A : Type} (P : path) (pre : list (path * A)) :
  0 <= count_path P pre.
Proof. unfold count_path. lia. Qed.

Lemma app_single_inj (P Q : path) (a b : comp) :
  P ++ [a] = Q ++ [b] -> P = Q /\ a = b.
Proof.
  intros H. apply app_inj_tail in H. assumption.
Qed.

Lemma fresh_path_eq {A : Type} (P : path) (m m' : Z) (pre pre' : list (path * A)) :
  m + count_path P pre = m' + count_path P pre' ->
  fresh_path P m pre = fresh_path P m' pre'.
Proof.
  intros H. unfold fresh_path.
  replace (m + 1 + count_path P pre) with (m' + 1 + count_path P pre') by lia.
  reflexivity.
Qed.

Lemma fresh_path_nil {A : Type} (P : path) (m : Z) :
  fresh_path P m (@nil (path * A)) = P ++ [CInt (m + 1)].
Proof.
  unfold fresh_path. rewrite count_path_nil.
  replace (m + 1 + 0) with (m + 1) by lia. reflexivity.
Qed.

Lemma fresh_path_cons (P Q : path) (line : Line) (pre : list (path * Line))
    (mx : pdict Z) :
  fresh_path P (ctr (pset mx Q (ctr mx Q + 1)) P) pre
  = fresh_path P (ctr mx P) ((Q, line) :: pre).
Proof.
  apply fresh_path_eq. rewrite count_path_cons.
  destruct (path_eq_dec Q P) as [->|Hne].
  - rewrite default_pset_same, path_eqb_refl. lia.
  - rewrite default_pset_other, path_eqb_neq by assumption. lia.
Qed.

(** The counters after the loop: one more for each freed line. *)
Lemma free_loop_counter (dl : ref) (fl : list (path * Line))
    (mx : pdict Z) (rel : pdict geom) (h : store) (P : path) :
  ctr (fst (fst (free_loop dl fl (mx, rel, h)))) P = ctr mx P + count_path P fl.
Proof.
  unfold free_loop. revert mx rel h.
  induction fl as [|[Q line] fl IH]; intros mx rel h; simpl.
  - rewrite count_path_nil. lia.
  - rewrite IH, count_path_cons. destruct (path_eq_dec Q P) as [->|Hne].
    + rewrite default_pset_same, path_eqb_refl. lia.
    + rewrite default_pset_other, path_eqb_neq by assumption. lia.
Qed.

(** Entries below the counters are not written again. *)
Lemma free_loop_keeps (dl : ref) (fl : list (path * Line))
    (mx : pdict Z) (rel : pdict geom) (h : store) (P : path) (i : Z) :
  i <= ctr mx P ->
  let '(_, rel', h') := free_loop dl fl (mx, rel, h) in
  pget rel' (P ++ [CInt i]) = pget rel (P ++ [CInt i])
  /\ pget (h' dl) ((P ++ [CInt i]) ++ [CInt 0])
     = pget (h dl) ((P ++ [CInt i]) ++ [CInt 0]).
Proof.
  unfold free_loop. revert mx rel h.
  induction fl as [|[Q line] fl IH]; intros mx rel h Hi; simpl.
  - split; reflexivity.
  - set (n := ctr mx Q + 1).
    specialize (IH (pset mx Q n) (pset rel (Q ++ [CInt n]) (image_space_polygon line))
                  (store_set h dl (pset (h dl) ((Q ++ [CInt n]) ++ [CInt 0]) line))).
    assert (Hi' : i <= ctr (pset mx Q n) P).
    { destruct (path_eq_dec Q P) as [->|Hne].
      - rewrite default_pset_same. unfold n. lia.
      - rewrite default_pset_other by assumption. assumption. }
    specialize (IH Hi').
    destruct (fold_left (free_step dl) fl _) as [[mx' rel'] h'].
    destruct IH as [IH1 IH2].
    assert (Hne : Q ++ [CInt n] <> P ++ [CInt i]).
    { intros Heq. apply app_single_inj in Heq. destruct Heq as [-> Heq].
      injection Heq as Heq. unfold n in Heq. lia. }
    split.
    + rewrite IH1. apply pget_pset_other. assumption.
    + rewrite IH2. unfold store_set. rewrite Nat.eqb_refl.
      apply pget_pset_other. intros Heq. apply Hne.
      apply app_single_inj in Heq. tauto.
Qed.

(** Every freed line is given the next free identifier of the path it
    predicts, and is stored under it. *)
Lemma free_loop_emits (dl : ref) (pre post : list (path * Line)) (P : path)
    (line : Line) (mx : pdict Z) (rel : pdict geom) (h : store) :
  let '(_, rel', h') := free_loop dl (pre ++ (P, line) :: post) (mx, rel, h) in
  pget rel' (fresh_path P (ctr mx P) pre) = Some (image_space_polygon line)
  /\ pget (h' dl) (fresh_path P (ctr mx P) pre ++ [CInt 0]) = Some line.
Proof.
  unfold free_loop, fresh_path. rewrite fold_left_app.
  pose proof (free_loop_counter dl pre mx rel h P) as Hc. unfold free_loop in Hc.
  destruct (fold_left (free_step dl) pre (mx, rel, h)) as [[mx1 rel1] h1].
  simpl in Hc. simpl fold_left at 1.
  set (n := ctr mx1 P + 1).
  pose proof (free_loop_keeps dl post (pset mx1 P n)
                (pset rel1 (P ++ [CInt n]) (image_space_polygon line))
                (store_set h1 dl (pset (h1 dl) ((P ++ [CInt n]) ++ [CInt 0]) line))
                P n) as Hk.
  unfold free_loop in Hk.
  destruct (fold_left (free_step dl) post _) as [[mx2 rel2] h2].
  assert (Hn : n = ctr mx P + 1 + count_path P pre) by (unfold n; lia).
  rewrite <- Hn.
  destruct Hk as [Hk1 Hk2]; [rewrite default_pset_same; lia|].
  split.
  - rewrite Hk1. apply pget_pset_same.
  - rewrite Hk2. unfold store_set. rewrite Nat.eqb_refl.
    apply pget_pset_same.
Qed.

(** The store outside the dictionary of detected lines is untouched, and so
    is every key of that dictionary that is not given to a freed line. *)
Lemma free_loop_frame (dl : ref) (fl : list (path * Line))
    (mx : pdict Z) (rel : pdict geom) (h : store) :
  let '(_, _, h') := free_loop dl fl (mx, rel, h) in
  (forall r, r <> dl -> h' r = h r)
  /\ (forall k,
        (forall pre P line post, fl = pre ++ (P, line) :: post ->
                                 k <> fresh_path P (ctr mx P) pre ++ [CInt 0]) ->
        pget (h' dl) k = pget (h dl) k).
Proof.
  unfold free_loop. revert mx rel h.
  induction fl as [|[Q line] fl IH]; intros mx rel h; simpl.
  - split; reflexivity.
  - set (n := ctr mx Q + 1).
    specialize (IH (pset mx Q n) (pset rel (Q ++ [CInt n]) (image_space_polygon line))
                  (store_set h dl (pset (h dl) ((Q ++ [CInt n]) ++ [CInt 0]) line))).
    destruct (fold_left (free_step dl) fl _) as [[mx' rel'] h'].
    destruct IH as [IH1 IH2]. split.
    + intros r Hr. rewrite IH1 by assumption. unfold store_set.
      destruct (Nat.eqb_spec r dl); [contradiction|reflexivity].
    + intros k Hk. rewrite IH2.
      * unfold store_set. rewrite Nat.eqb_refl. apply pget_pset_other.
        intros Heq. apply (Hk [] Q line fl eq_refl).
        rewrite fresh_path_nil. subst k. reflexivity.
      * intros pre P line' post Hfl. specialize (Hk ((Q, line) :: pre) P line' post).
        rewrite Hfl in Hk. specialize (Hk eq_refl).
        intros Heq. apply Hk. rewrite Heq. unfold n.
        rewrite (fresh_path_cons P Q line). reflexivity.
Qed.

(** The region entries written by the loop are those of the freed lines. *)
Lemma free_loop_reliable_keys (dl : ref) (fl : list (path * Line))
    (mx : pdict Z) (rel : pdict geom) (h : store) (k : path) (g : geom) :
  let '(_, rel', _) := free_loop dl fl (mx, rel, h) in
  pget rel' k = Some g ->
  pget rel k = Some g
  \/ exists pre P line post,
       fl = pre ++ (P, line) :: post /\ k = fresh_path P (ctr mx P) pre
       /\ g = image_space_polygon line.
Proof.
  unfold free_loop. revert mx rel h.
  induction fl as [|[Q line] fl IH]; intros mx rel h; simpl.
  - auto.
  - set (n := ctr mx Q + 1).
    specialize (IH (pset mx Q n) (pset rel (Q ++ [CInt n]) (image_space_polygon line))
                  (store_set h dl (pset (h dl) ((Q ++ [CInt n]) ++ [CInt 0]) line))).
    destruct (fold_left (free_step dl) fl _) as [[mx' rel'] h'].
    intros Hg. destruct (IH Hg) as [Hold|(pre & P & line' & post & Hfl & Hk & Hgeo)].
    + destruct (path_eq_dec (Q ++ [CInt n]) k) as [<-|Hne].
      * rewrite pget_pset_same in Hold. injection Hold as <-.
        right. exists [], Q, line, fl. repeat split.
        rewrite fresh_path_nil. reflexivity.
      * rewrite pget_pset_other in Hold by assumption. left. assumption.
    + right. exists ((Q, line) :: pre), P, line', post. subst fl. repeat split; auto.
      rewrite Hk. unfold n. apply (fresh_path_cons P Q line).
Qed.
End FreeLoop.

(** ** [reliable_contours]: the blocks and the contours passed through *)

Section BlockLoop.
Context {G : Geometry}.
#[local] Arguments firstn : simpl never.

Lemma keys_pset_eq {V : Type} (d : pdict V) (k : path) (v : V) :
  keys (pset d k v) = if pmem d k then keys d else keys d ++ [k].
Proof.
  unfold pmem, dict_mem, pset, keys. induction d as [|[k0 v0] d IH]; simpl.
  - reflexivity.
  - destruct (path_eqb k0 k) eqn:E; simpl; [reflexivity|].
    rewrite IH. destruct (dict_get path_eqb d k); reflexivity.
Qed.

Lemma NoDup_keys_pset {V : Type} (d : pdict V) (k : path) (v : V) :
  NoDup (keys d) -> NoDup (keys (pset d k v)).
Proof.
  intros H. rewrite keys_pset_eq. destruct (pmem d k) eqn:E; [assumption|].
  apply NoDup_app; [assumption| repeat constructor; intros [] |].
  intros x Hx [<-|[]]. apply pmem_true in Hx. congruence.
Qed.

Lemma pget_pair_In {V : Type} (d : pdict V) (k : path) (v : V) :
  NoDup (keys d) -> In (k, v) d -> pget d k = Some v.
Proof.
  unfold pget, keys. induction d as [|[k0 v0] d IH]; simpl; [contradiction|].
  intros Hnd [Heq|Hin].
  - injection Heq as -> ->. rewrite path_eqb_refl. reflexivity.
  - inversion Hnd as [|? ? Hnotin Hnd']; subst.
    destruct (path_eqb k0 k) eqn:E.
    + apply path_eqb_eq in E. subst k0. exfalso. apply Hnotin.
      apply (in_map fst) in Hin. assumption.
    + auto.
Qed.

Lemma pget_In_pair {V : Type} (d : pdict V) (k : path) (v : V) :
  pget d k = Some v -> In (k, v) d.
Proof.
  unfold pget. induction d as [|[k0 v0] d IH]; simpl; [discriminate|].
  destruct (path_eqb k0 k) eqn:E.
  - apply path_eqb_eq in E. intros H. injection H as ->. subst. auto.
  - auto.
Qed.

Lemma group_default (lines : pdict Line) (acc : pdict (list Line)) (p : path) :
  dict_get_default path_eqb [] (fold_left group_step lines acc) p
  = dict_get_default path_eqb [] acc p ++ lines_of_block lines p.
Proof.
  unfold lines_of_block. revert acc.
  induction lines as [|[lp line] lines IH]; intros acc; simpl.
  - rewrite app_nil_r. reflexivity.
  - rewrite IH. destruct (path_eq_dec (firstn 3 lp) p) as [->|Hne].
    + rewrite default_pset_same, path_eqb_refl. simpl.
      rewrite <- app_assoc. reflexivity.
    + rewrite default_pset_other, path_eqb_neq by assumption. reflexivity.
Qed.

Lemma group_keys (lines : pdict Line) (acc : pdict (list Line)) (p : path) :
  In p (keys (fold_left group_step lines acc))
  <-> In p (keys acc) \/ exists lp, In lp (keys lines) /\ firstn 3 lp = p.
Proof.
  revert acc. induction lines as [|[lp line] lines IH]; intros acc; simpl.
  - split; [auto|]. intros [H|(lp & [] & _)]. assumption.
  - rewrite IH. rewrite keys_pset. split.
    + intros [[->|H]|(lp' & Hin & Heq)]; eauto.
    + intros [H|(lp' & [<-|Hin] & Heq)]; eauto.
Qed.

Lemma group_NoDup (lines : pdict Line) (acc : pdict (list Line)) :
  NoDup (keys acc) -> NoDup (keys (fold_left group_step lines acc)).
Proof.
  revert acc. induction lines as [|[lp line] lines IH]; intros acc H; simpl.
  - assumption.
  - apply IH. apply NoDup_keys_pset. assumption.
Qed.

(** A block with a line is a key of the grouping, with its lines. *)
Lemma group_block_lines_get (lines : pdict Line) (p : path) :
  (exists lp, In lp (keys lines) /\ firstn 3 lp = p) ->
  pget (group_block_lines lines) p = Some (lines_of_block lines p).
Proof.
  intros H. unfold group_block_lines.
  assert (Hin : In p (keys (fold_left group_step lines []))).
  { apply group_keys. right. assumption. }
  apply In_pget in Hin. destruct Hin as [ls Hls].
  pose proof (group_default lines [] p) as Hd.
  unfold dict_get_default in Hd at 1. fold (pget (fold_left group_step lines []) p) in Hd.
  rewrite Hls in Hd. simpl in Hd. rewrite Hls, Hd. reflexivity.
Qed.

Lemma group_block_lines_keys (lines : pdict Line) (p : path) :
  In p (keys (group_block_lines lines)) ->
  exists lp, In lp (keys lines) /\ firstn 3 lp = p.
Proof.
  unfold group_block_lines. intros H. apply group_keys in H.
  destruct H as [[]|H]. assumption.
Qed.

Lemma block_step_Ok (C : pdict geom) (ign : option (path -> bool))
    (rel rel' : pdict geom) (p : path) (ls : list Line) :
  block_step C ign rel (p, ls) = Ok rel' ->
  (not_ignored ign p = false /\ rel' = rel)
  \/ (not_ignored ign p = true
      /\ exists c, pget C p = Some c /\ rel' = pset rel p (block_geometry ls c)).
Proof.
  unfold block_step. destruct (not_ignored ign p).
  - intros H. apply bind_Ok in H. destruct H as (c & Hc & H).
    unfold dict_item in Hc. fold (pget C p) in Hc.
    destruct (pget C p) as [c'|]; [|discriminate].
    injection Hc as ->. injection H as <-. right. eauto.
  - intros H. injection H as <-. left. auto.
Qed.

(** A path that is not the contour path of a block with lines is not
    written by the third loop. *)
Lemma block_loop_untouched (C : pdict geom) (ign : option (path -> bool))
    (items : pdict (list Line)) (rel rel' : pdict geom) (p : path) :
  foldM (block_step C ign) items rel = Ok rel' ->
  ~ (In p (keys items) /\ not_ignored ign p = true /\ pmem C p = true) ->
  pget rel' p = pget rel p.
Proof.
  revert rel. induction items as [|[q ls] items IH]; intros rel H Hno; simpl in H.
  - injection H as <-. reflexivity.
  - apply bind_Ok in H. destruct H as (rel1 & Hstep & H).
    rewrite (IH rel1 H).
    + apply block_step_Ok in Hstep.
      destruct Hstep as [[_ ->]|(Hign & c & Hc & ->)]; [reflexivity|].
      apply pget_pset_other. intros <-. apply Hno. simpl. repeat split; auto.
      apply pmem_true. eapply pget_In, Hc.
    + intros (Hin & Hi & Hm). apply Hno. simpl. auto.
Qed.

(** A block with lines that is not ignored gets the geometry computed from
    its lines and its contour. *)
Lemma block_loop_written (C : pdict geom) (ign : option (path -> bool))
    (items : pdict (list Line)) (rel rel' : pdict geom) (p : path) (ls : list Line) :
  foldM (block_step C ign) items rel = Ok rel' ->
  NoDup (keys items) -> In (p, ls) items -> not_ignored ign p = true ->
  exists c, pget C p = Some c /\ pget rel' p = Some (block_geometry ls c).
Proof.
  revert rel. induction items as [|[q ls'] items IH]; intros rel H Hnd Hin Hign;
    simpl in H; [contradiction|].
  apply bind_Ok in H. destruct H as (rel1 & Hstep & H).
  simpl in Hnd. inversion Hnd as [|? ? Hnotin Hnd']; subst.
  destruct Hin as [Heq|Hin].
  - injection Heq as -> ->.
    apply block_step_Ok in Hstep.
    destruct Hstep as [[Hf _]|(_ & c & Hc & ->)]; [congruence|].
    exists c. split; [assumption|].
    rewrite (block_loop_untouched C ign items _ rel' p H).
    + apply pget_pset_same.
    + intros (Hk & _). contradiction.
  - eapply IH; eauto.
Qed.

Lemma block_loop_total (C : pdict geom) (ign : option (path -> bool))
    (items : pdict (list Line)) (rel : pdict geom) :
  (forall p, In p (keys items) -> not_ignored ign p = true -> pmem C p = true) ->
  exists rel', foldM (block_step C ign) items rel = Ok rel'.
Proof.
  revert rel. induction items as [|[q ls] items IH]; intros rel Hok; simpl.
  - eauto.
  - unfold block_step at 1. destruct (not_ignored ign q) eqn:Hi.
    + specialize (Hok q (or_introl eq_refl) Hi) as Hq.
      apply pmem_true, In_pget in Hq. destruct Hq as [c Hc].
      unfold dict_item. fold (pget C q). rewrite Hc. simpl.
      apply IH. intros p Hp. apply Hok. right. assumption.
    + simpl. apply IH. intros p Hp. apply Hok. right. assumption.
Qed.

Lemma passthrough_fold (C : pdict geom) (ks : list path) (rel : pdict geom) (k : path) :
  pget (fold_left (fun rel k => match pget C k with
                                | Some c => pset rel k c
                                | None => rel
                                end) ks rel) k
  = if in_dec path_eq_dec k ks
    then match pget C k with Some c => Some c | None => pget rel k end
    else pget rel k.
Proof.
  revert rel. induction ks as [|q ks IH]; intros rel; simpl; [reflexivity|].
  rewrite IH. destruct (path_eq_dec q k) as [->|Hne].
  - destruct (pget C k) as [c|] eqn:Hc.
    + rewrite pget_pset_same. destruct (in_dec path_eq_dec k ks); reflexivity.
    + destruct (in_dec path_eq_dec k ks); reflexivity.
  - destruct (in_dec path_eq_dec k ks); [|].
    + destruct (pget C k); [reflexivity|].
      destruct (pget C q); [apply pget_pset_other; assumption|reflexivity].
    + destruct (pget C q); [apply pget_pset_other; assumption|reflexivity].
Qed.

(** The last loop keeps what is there and copies the other contours. *)
Lemma passthrough_get (C rel : pdict geom) (k : path) :
  pget (passthrough C rel) k
  = match pget rel k with
    | Some g => Some g
    | None => pget C k
    end.
Proof.
  unfold passthrough. rewrite passthrough_fold.
  destruct (in_dec path_eq_dec k _) as [Hin|Hnot].
  - apply filter_In in Hin. destruct Hin as [HinC Hm].
    apply negb_true_iff, pmem_false in Hm. rewrite Hm.
    destruct (pget C k); reflexivity.
  - destruct (pget rel k) as [g|] eqn:Hr; [reflexivity|].
    destruct (pget C k) as [c|] eqn:Hc; [|reflexivity].
    exfalso. apply Hnot. apply filter_In. split.
    + eapply pget_In, Hc.
    + apply negb_true_iff, pmem_false. assumption.
Qed.
End BlockLoop.

(** ** [reliable_contours]: the whole function *)

Section ReliableContoursFacts.
Context {G : Geometry}.
#[local] Arguments firstn : simpl never.

Local Notation "'ctr'" := (dict_get_default path_eqb 0).

(** A call that returns has gone through the four loops. *)
Lemma reliable_contours_Ok (C : pdict geom) (al dl : ref) (fl : list (path * Line))
    (ign : option (path -> bool)) (h h' : store) (rel : pdict geom) :
  reliable_contours C al fl dl ign h = (Ok rel, h') ->
  exists mx mx' rel1 rel2,
    compute_max_ids C = Ok mx
    /\ free_loop dl fl (mx, [], h) = (mx', rel1, h')
    /\ foldM (block_step C ign) (group_block_lines (h' al)) rel1 = Ok rel2
    /\ rel = passthrough C rel2.
Proof.
  unfold reliable_contours. destruct (compute_max_ids C) as [mx|e]; [|discriminate].
  destruct (free_loop dl fl (mx, [], h)) as [[mx' rel1] h1] eqn:Hfree.
  intros H. injection H as H <-.
  apply bind_Ok in H. destruct H as (rel2 & H2 & H). injection H as <-.
  exists mx, mx', rel1, rel2. auto.
Qed.

(** What the call does to the store, whether it returns or raises. *)
Lemma reliable_contours_store (C : pdict geom) (al dl : ref) (fl : list (path * Line))
    (ign : option (path -> bool)) (h : store) :
  match compute_max_ids C with
  | Ok mx => snd (reliable_contours C al fl dl ign h) = snd (free_loop dl fl (mx, [], h))
  | Raise e => reliable_contours C al fl dl ign h = (Raise e, h)
  end.
Proof.
  unfold reliable_contours. destruct (compute_max_ids C) as [mx|e]; [|reflexivity].
  destruct (free_loop dl fl (mx, [], h)) as [[mx' rel1] h1]. reflexivity.
Qed.

(** The call returns when every contour path has an integer third component
    and every block with lines that is not ignored has a contour. *)
Lemma reliable_contours_total (C : pdict geom) (al dl : ref) (fl : list (path * Line))
    (ign : option (path -> bool)) (h : store) :
  (forall k, In k (keys C) -> exists c z, nth_error k 2 = Some c /\ py_int c = Ok z) ->
  (forall lp, In lp (keys (snd (reliable_contours C al fl dl ign h) al)) ->
              not_ignored ign (firstn 3 lp) = true -> pmem C (firstn 3 lp) = true) ->
  exists rel, fst (reliable_contours C al fl dl ign h) = Ok rel.
Proof.
  intros HC Hl. destruct (compute_max_ids_total C HC) as [mx Hmx].
  pose proof (reliable_contours_store C al dl fl ign h) as Hs. rewrite Hmx in Hs.
  rewrite Hs in Hl. unfold reliable_contours. rewrite Hmx.
  destruct (free_loop dl fl (mx, [], h)) as [[mx' rel1] h1]. simpl in Hl |- *.
  destruct (block_loop_total C ign (group_block_lines (h1 al)) rel1) as [rel2 H2].
  - intros p Hp Hi. apply group_block_lines_keys in Hp.
    destruct Hp as (lp & Hlp & <-). auto.
  - rewrite H2. simpl. eauto.
Qed.

Lemma firstn_length_le {A : Type} (n : nat) (l : list A) : (List.length (firstn n l) <= n)%nat.
Proof. rewrite length_firstn. lia. Qed.

(** The path given to a freed line is not the path of a block with a
    contour. *)
Lemma fresh_path_not_block (C : pdict geom) (P : path) (m : Z) (pre : list (path * Line)) :
  is_max_id C P m ->
  In (fresh_path P m pre) (keys C) ->
  (exists c, nth_error (fresh_path P m pre) 2 = Some c) ->
  (List.length (fresh_path P m pre) <= 3)%nat ->
  False.
Proof.
  intros (H0 & Hub & _) Hin (c & Hc) Hlen.
  unfold fresh_path in *. rewrite length_app in Hlen. simpl in Hlen.
  assert (Hlen2 : List.length P = 2%nat).
  { assert (Hn : nth_error (P ++ [CInt (m + 1 + count_path P pre)]) 2 <> None)
      by congruence.
    apply nth_error_Some in Hn. rewrite length_app in Hn. simpl in Hn. lia. }
  destruct P as [|a [|b [|? ?]]]; try discriminate. simpl in Hc. injection Hc as <-.
  specialize (Hub _ _ _ Hin eq_refl eq_refl eq_refl).
  pose proof (count_path_nonneg [a; b] pre). lia.
Qed.

End ReliableContoursFacts.

(** ** Freed lines get fresh identifiers (C4) *)

Lemma count_path_app {A : Type} (P : path) (a b : list (path * A)) :
  count_path P (a ++ b) = count_path P a + count_path P b.
Proof.
  unfold count_path. rewrite filter_app, length_app. lia.
Qed.

(** Of two places of a list, the earlier one lies inside the prefix of the
    later one. *)
Lemma earlier_prefix {A : Type} (pre pre' post post' : list A) (x y : A) :
  pre ++ x :: post = pre' ++ y :: post' ->
  (List.length pre < List.length pre')%nat ->
  exists mid, pre' = pre ++ x :: mid.
Proof.
  revert pre'. induction pre as [|a pre IH]; intros [|b pre'] H Hlen; simpl in *; try lia.
  - injection H as -> _. eauto.
  - injection H as -> H. destruct (IH pre' H) as [mid ->]; [lia|]. eauto.
Qed.

(** C4. In [reliable_contours], a freed line that predicts the path [P] and
    comes after the freed lines [pre] is emitted at [P + (m + 1 + j,)], where
    [m] is the largest numeric suffix of the contour paths below [P] (0 if
    there is none) and [j] counts the lines of [pre] that predict [P]: the
    first gets [m + 1], the second [m + 2], and so on in the order of the
    list.  The geometry of the entry in the returned mapping is the
    polygon of that line, and a later freed line predicting [P] gets a
    strictly larger identifier. *)
Theorem freed_line_ids_monotonic {G : Geometry}
    (C : pdict geom) (al dl : ref) (fl : list (path * Line))
    (ign : option (path -> bool)) (h h' : store) (rel : pdict geom)
    (pre post : list (path * Line)) (P : path) (line : Line) (m : Z) :
  reliable_contours C al fl dl ign h = (Ok rel, h') ->
  fl = pre ++ (P, line) :: post ->
  is_max_id C P m ->
  pget rel (P ++ [CInt (m + 1 + count_path P pre)]) = Some (image_space_polygon line)
  /\ (forall pre' line' post',
        fl = pre' ++ (P, line') :: post' ->
        (List.length pre < List.length pre')%nat ->
        count_path P pre < count_path P pre').
Proof.
  intros Hrun Hfl Hm. split.
  - apply reliable_contours_Ok in Hrun.
    destruct Hrun as (mx & mx' & rel1 & rel2 & Hmx & Hfree & Hblocks & ->).
    apply compute_max_ids_spec in Hmx. destruct Hmx as [Hmax Hkeys].
    assert (m = dict_get_default path_eqb 0 mx P) as Hmeq
        by (eapply is_max_of_unique; [exact Hm | apply Hmax]).
    pose proof (free_loop_emits dl pre post P line mx [] h) as Hemit.
    unfold pdict in *. rewrite <- Hfl, Hfree, <- Hmeq in Hemit.
    destruct Hemit as [Hemit _].
    change (P ++ [CInt (m + 1 + count_path P pre)]) with (fresh_path P m pre).
    rewrite passthrough_get.
    rewrite (block_loop_untouched C ign _ rel1 rel2 _ Hblocks).
    + rewrite Hemit. reflexivity.
    + intros (Hin & _ & Hmem).
      apply group_block_lines_keys in Hin. destruct Hin as (lp & _ & Hlp).
      apply pmem_true in Hmem.
      apply (fresh_path_not_block C P m pre Hm Hmem).
      * destruct (Hkeys _ Hmem) as (c & z & Hc & _). eauto.
      * rewrite <- Hlp. apply firstn_length_le.
  - intros pre' line' post' Hfl' Hlen. rewrite Hfl in Hfl'.
    destruct (earlier_prefix _ _ _ _ _ _ Hfl' Hlen) as [mid ->].
    rewrite count_path_app, count_path_cons, path_eqb_refl.
    pose proof (count_path_nonneg P mid). lia.
Qed.

Lemma contours_0_2_max : is_max_id Ex.contours_0_2 Ex.regions_TEXT 2.
Proof.
  unfold is_max_id, is_max_of. split; [lia|]. split.
  - intros k c z [<-|[<-|[]]] _ Hc Hz; simpl in Hc; injection Hc as <-;
      vm_compute in Hz; injection Hz as <-; lia.
  - right. exists (Ex.regions_TEXT ++ [CStr "2"]), (CStr "2").
    repeat split. simpl. auto.
Qed.

(** The third of three freed lines, the second that predicts regions/TEXT
    where the contours 0 and 2 exist, is emitted at regions/TEXT/4. *)
Lemma freed_line_ids_monotonic_witness :
  exists rel h',
    reliable_contours Ex.contours_0_2 1%nat Ex.three_freed 0%nat None Ex.empty_store
    = (Ok rel, h')
    /\ pget rel (Ex.regions_TEXT ++ [CInt 4]) = Some (Rect.rect 1 9 49 51).
Proof.
  eexists. eexists. split; [reflexivity|].
  exact (proj1 (freed_line_ids_monotonic
                  Ex.contours_0_2 1%nat 0%nat Ex.three_freed None Ex.empty_store
                  _ _
                  [ (Ex.regions_TEXT, Ex.freed_b); (Ex.regions_TABULAR, Ex.freed_c) ]
                  [] Ex.regions_TEXT Ex.freed_d 2
                  eq_refl eq_refl contours_0_2_max)).
Defined.

(** ** The dictionary of detected lines is updated in place (C10) *)

(** C10, as stated, fails: [reliable_contours] does not leave every
    pre-existing entry of the dictionary of detected lines unchanged.  With
    the only contour regions/TEXT/0, a freed line predicting regions/TEXT is
    stored under regions/TEXT/1/0 and replaces the line that was there. *)
Lemma detected_lines_frame_counterexample :
  ~ (forall (G : Geometry) (C : pdict geom) (al dl : ref) (fl : list (path * Line))
            (ign : option (path -> bool)) (h : store) (k : path) (line : Line),
        pget (h dl) k = Some line ->
        pget (snd (reliable_contours C al fl dl ign h) dl) k = Some line).
Proof.
  intros H.
  specialize (H Rect.geometry Ex.contour_0 1%nat 0%nat [(Ex.regions_TEXT, Ex.freed_b)] None
                Ex.store_with_line_a (Ex.regions_TEXT ++ [CInt 1; CInt 0]) Ex.line_a
                eq_refl).
  vm_compute in H. discriminate H.
Qed.

(** C10, amended. When the contour paths are well formed (so that the first
    loop does not raise), [reliable_contours] updates the dictionary behind
    [detected_lines] in place, whether it returns or raises later: every
    freed line is stored under its new region path extended by [0]; every
    key that is not such a new key keeps its entry (an entry that was
    already stored under a new key is replaced); no other dictionary of the
    store changes. *)
Theorem detected_lines_updated_in_place {G : Geometry}
    (C : pdict geom) (al dl : ref) (fl : list (path * Line))
    (ign : option (path -> bool)) (h : store) :
  (forall k, In k (keys C) -> exists c z, nth_error k 2 = Some c /\ py_int c = Ok z) ->
  let h' := snd (reliable_contours C al fl dl ign h) in
  (forall pre P line post m,
      fl = pre ++ (P, line) :: post -> is_max_id C P m ->
      pget (h' dl) ((P ++ [CInt (m + 1 + count_path P pre)]) ++ [CInt 0]) = Some line)
  /\ (forall k, ~ new_line_key C fl k -> pget (h' dl) k = pget (h dl) k)
  /\ (forall r, r <> dl -> h' r = h r).
Proof.
  intros HC h'. destruct (compute_max_ids_total C HC) as [mx Hmx].
  pose proof (reliable_contours_store C al dl fl ign h) as Hs. rewrite Hmx in Hs.
  fold h' in Hs. apply compute_max_ids_spec in Hmx. destruct Hmx as [Hmax _].
  assert (Hm : forall P m, is_max_id C P m -> m = dict_get_default path_eqb 0 mx P).
  { intros P m Hm. eapply is_max_of_unique; [exact Hm|apply Hmax]. }
  split; [|split].
  - intros pre P line post m Hfl HmP. rewrite Hs, Hfl.
    pose proof (free_loop_emits dl pre post P line mx [] h) as Hemit.
    unfold pdict in *.
    destruct (free_loop dl (pre ++ (P, line) :: post) (mx, [], h)) as [[mx' rel1] h1].
    rewrite (Hm P m HmP). apply Hemit.
  - intros k Hk. rewrite Hs.
    pose proof (free_loop_frame dl fl mx [] h) as Hframe.
    unfold pdict in *.
    destruct (free_loop dl fl (mx, [], h)) as [[mx' rel1] h1].
    apply Hframe. intros pre P line post Hfl Heq. apply Hk.
    exists pre, P, line, post, (dict_get_default path_eqb 0 mx P).
    split; [assumption|split; [apply Hmax|exact Heq]].
  - intros r Hr. rewrite Hs.
    pose proof (free_loop_frame dl fl mx [] h) as Hframe.
    unfold pdict in *.
    destruct (free_loop dl fl (mx, [], h)) as [[mx' rel1] h1].
    apply Hframe. assumption.
Qed.

Lemma contours_0_2_wellformed :
  forall k, In k (keys Ex.contours_0_2) ->
            exists c z, nth_error k 2 = Some c /\ py_int c = Ok z.
Proof.
  intros k [<-|[<-|[]]]; eexists; eexists; split; reflexivity.
Qed.

Lemma kept_key_not_new (fl : list (path * Line)) :
  ~ new_line_key Ex.contours_0_2 fl (Ex.regions_TEXT ++ [CStr "0"; CInt 0]).
Proof.
  intros (pre & P & line & post & m & _ & _ & Heq).
  change (Ex.regions_TEXT ++ [CStr "0"; CInt 0])
    with ((Ex.regions_TEXT ++ [CStr "0"]) ++ [CInt 0]) in Heq.
  apply app_inj_tail in Heq. destruct Heq as [Heq _].
  apply app_inj_tail in Heq. destruct Heq as [_ Heq]. discriminate Heq.
Qed.

(** With the contours 0 and 2 and three freed lines, the last freed line is
    stored under regions/TEXT/4/0 and the line kept under regions/TEXT/0/0
    stays. *)
Lemma detected_lines_updated_in_place_witness :
  let h' := snd (reliable_contours Ex.contours_0_2 1%nat Ex.three_freed 0%nat None
                   Ex.store_kept_a) in
  pget (h' 0%nat) ((Ex.regions_TEXT ++ [CInt 4]) ++ [CInt 0]) = Some Ex.freed_d
  /\ pget (h' 0%nat) (Ex.regions_TEXT ++ [CStr "0"; CInt 0]) = Some Ex.line_a.
Proof.
  destruct (detected_lines_updated_in_place
              Ex.contours_0_2 1%nat 0%nat Ex.three_freed None Ex.store_kept_a
              contours_0_2_wellformed) as (Hins & Hframe & _).
  split.
  - exact (Hins [ (Ex.regions_TEXT, Ex.freed_b); (Ex.regions_TABULAR, Ex.freed_c) ]
             Ex.regions_TEXT Ex.freed_d [] 2 eq_refl contours_0_2_max).
  - rewrite (Hframe _ (kept_key_not_new Ex.three_freed)). reflexivity.
Defined.

(** When the freed lines predict (predictor, class) pairs and the block of a
    detected line has a contour, the key of that line is not a new key: in
    the pipeline, where lines are detected inside blocks that have
    contours, nothing is replaced. *)
Lemma known_block_key_not_new {G : Geometry} (C : pdict geom)
    (fl : list (path * Line)) (k : path) :
  (forall P line, In (P, line) fl -> List.length P = 2%nat) ->
  (forall k', In k' (keys C) -> exists c z, nth_error k' 2 = Some c /\ py_int c = Ok z) ->
  In (firstn 3 k) (keys C) ->
  ~ new_line_key C fl k.
Proof.
  intros Hpairs HC Hin (pre & P & line & post & m & Hfl & Hm & ->).
  assert (HP : List.length P = 2%nat).
  { apply (Hpairs P line). rewrite Hfl. apply in_or_app. right. left. reflexivity. }
  destruct P as [|a [|b [|? ?]]]; try discriminate.
  simpl in Hin. apply (fresh_path_not_block C [a; b] m pre Hm Hin).
  - destruct (HC _ Hin) as (c & z & Hc & _). eauto.
  - simpl. lia.
Qed.

(** ** The geometry of a block with kept lines (C6, C2) *)

Section BlockGeometry.
Context {G : Geometry}.
#[local] Arguments firstn : simpl never.

(** The entry of a block that has lines and is not ignored. *)
Lemma block_entry (C : pdict geom) (al dl : ref) (fl : list (path * Line))
    (ign : option (path -> bool)) (h h' : store) (rel : pdict geom)
    (p : path) (c : geom) :
  reliable_contours C al fl dl ign h = (Ok rel, h') ->
  (exists lp, In lp (keys (h' al)) /\ firstn 3 lp = p) ->
  not_ignored ign p = true ->
  pget C p = Some c ->
  pget rel p = Some (block_geometry (lines_of_block (h' al) p) c).
Proof.
  intros Hrun Hlines Hign Hc.
  apply reliable_contours_Ok in Hrun.
  destruct Hrun as (mx & mx' & rel1 & rel2 & _ & _ & Hblocks & ->).
  pose proof (group_block_lines_get (h' al) p Hlines) as Hget.
  apply pget_In_pair in Hget.
  destruct (block_loop_written C ign _ rel1 rel2 p (lines_of_block (h' al) p) Hblocks)
    as (c' & Hc' & Hrel); try assumption.
  - unfold group_block_lines. apply group_NoDup. constructor.
  - rewrite passthrough_get, Hrel. congruence.
Qed.

(** Without freed lines the store is not touched. *)
Lemma no_freed_lines_store (C : pdict geom) (al dl : ref)
    (ign : option (path -> bool)) (h h' : store) (r : result (pdict geom)) :
  reliable_contours C al [] dl ign h = (r, h') -> h' = h.
Proof.
  unfold reliable_contours. destruct (compute_max_ids C); simpl; congruence.
Qed.

Lemma block_geometry_cases (lines : list Line) (c : geom) :
  let g := intersection (convex_hull (cascaded_union (map image_space_polygon lines))) c in
  (geom_type g = "Polygon" /\ block_geometry lines c = g)
  \/ (geom_type g <> "Polygon" /\ block_geometry lines c = convex_hull g).
Proof.
  intros g. unfold block_geometry. fold g.
  destruct (String.eqb_spec (geom_type g) "Polygon") as [E|E]; simpl; auto.
Qed.
End BlockGeometry.

(** C6, as stated, fails.  The contour of the block regions/TEXT/0 is a U
    (a simple polygon), its one kept line lies across both arms, and there
    are no freed lines.  The hull of the line meets the U in two separate
    squares, a MultiPolygon, so the code takes the convex hull of the two
    squares (their bounding box, exactly): it contains the point (3, 5) of
    the gap between the arms, which is not in the contour. *)
Lemma block_contour_subset_counterexample :
  exists rel h' g,
    reliable_contours Ex.contour_U 1%nat [] 0%nat None (Ex.store_of_kept Ex.line_across)
    = (Ok rel, h')
    /\ Rect.type_of Ex.shape_U = "Polygon"
    /\ Rect.hull_exact (Rect.inter (Rect.rect 0 6 4 6) Ex.shape_U) = true
    /\ pget rel Ex.block_0 = Some g
    /\ ~ Rect.subset g Ex.shape_U.
Proof.
  eexists. eexists. eexists.
  split; [reflexivity|]. split; [reflexivity|]. split; [reflexivity|].
  split; [reflexivity|].
  intros H. specialize (H (3 # 1)%Q (5 # 1)%Q eq_refl). discriminate H.
Qed.

(** C6, amended. For a block path with at least one kept line that is not
    ignored, and no freed lines, the entry of the returned mapping is the
    intersection of the hull of its lines with its predicted contour, and
    hence contained in that contour, when this intersection is of type
    Polygon; otherwise the entry is the convex hull of the intersection
    (for which no containment is claimed). *)
Theorem block_contour_subset_when_polygon {G : Geometry}
    (subset : geom -> geom -> Prop)
    (C : pdict geom) (al dl : ref) (ign : option (path -> bool))
    (h h' : store) (rel : pdict geom) (p : path) (c : geom) :
  (forall a b, subset (intersection a b) b) ->
  reliable_contours C al [] dl ign h = (Ok rel, h') ->
  (exists lp, In lp (keys (h al)) /\ firstn 3 lp = p) ->
  not_ignored ign p = true ->
  pget C p = Some c ->
  let g := intersection
             (convex_hull (cascaded_union
                             (map image_space_polygon (lines_of_block (h al) p)))) c in
  (geom_type g = "Polygon" -> pget rel p = Some g /\ subset g c)
  /\ (geom_type g <> "Polygon" -> pget rel p = Some (convex_hull g)).
Proof.
  intros Hsub Hrun Hlines Hign Hc g.
  pose proof (no_freed_lines_store _ _ _ _ _ _ _ Hrun) as ->.
  pose proof (block_entry _ _ _ _ _ _ _ _ _ _ Hrun Hlines Hign Hc) as Hrel.
  destruct (block_geometry_cases (lines_of_block (h al) p) c) as [[Ht Hg]|[Ht Hg]];
    fold g in Ht, Hg; rewrite Hg in Hrel.
  - split; [intros _; split; [assumption|apply Hsub] | congruence].
  - split; [congruence | intros _; assumption].
Qed.

(** In the concrete geometry an intersection lies in its second operand. *)
Lemma Rect_inter_subset (a b : Rect.region) : Rect.subset (Rect.inter a b) b.
Proof.
  unfold Rect.subset, Rect.mem. intros x y H.
  apply existsb_exists in H. destruct H as (i & Hin & Hpt).
  unfold Rect.inter in Hin. apply filter_In in Hin. destruct Hin as [Hin _].
  apply in_flat_map in Hin. destruct Hin as (a0 & _ & Hin).
  apply in_map_iff in Hin. destruct Hin as (b0 & <- & Hb0).
  apply existsb_exists. exists b0. split; [assumption|].
  repeat rewrite andb_true_iff in *. repeat rewrite Qle_bool_iff in *.
  simpl in Hpt. destruct Hpt as [[[H1 H2] H3] H4].
  repeat split.
  - eapply Qle_trans; [|exact H1]. rewrite <- Zle_Qle. lia.
  - eapply Qle_trans; [exact H2|]. rewrite <- Zle_Qle. lia.
  - eapply Qle_trans; [|exact H3]. rewrite <- Zle_Qle. lia.
  - eapply Qle_trans; [exact H4|]. rewrite <- Zle_Qle. lia.
Qed.

(** A line inside a square contour: the entry of the block is the line's
    own box, a Polygon inside the contour. *)
Lemma block_contour_subset_when_polygon_witness :
  exists rel h',
    reliable_contours Ex.square_contour 1%nat [] 0%nat None (Ex.store_of_kept Ex.line_a)
    = (Ok rel, h')
    /\ pget rel Ex.block_0 = Some (Rect.rect 1 9 1 3)
    /\ Rect.subset (Rect.rect 1 9 1 3) (Rect.rect 0 10 0 10).
Proof.
  eexists. eexists. split; [reflexivity|].
  refine (proj1 (block_contour_subset_when_polygon (G := Rect.geometry)
                   Rect.subset Ex.square_contour 1%nat 0%nat None
                   (Ex.store_of_kept Ex.line_a) _ _ Ex.block_0 (Rect.rect 0 10 0 10)
                   Rect_inter_subset eq_refl _ eq_refl eq_refl) eq_refl).
  exists (Ex.block_0 ++ [CInt 0]). split; [left; reflexivity|reflexivity].
Defined.

(** ** What the returned mapping holds, and what the writer logs (C2) *)

Section Entries.
Context {G : Geometry}.
#[local] Arguments firstn : simpl never.

(** An entry after the third loop was written by it or was there before. *)
Lemma block_loop_cases (C : pdict geom) (ign : option (path -> bool))
    (items : pdict (list Line)) (rel rel' : pdict geom) (k : path) (g : geom) :
  foldM (block_step C ign) items rel = Ok rel' ->
  pget rel' k = Some g ->
  (exists ls c, In (k, ls) items /\ not_ignored ign k = true
                /\ pget C k = Some c /\ g = block_geometry ls c)
  \/ pget rel k = Some g.
Proof.
  revert rel. induction items as [|[q ls] items IH]; intros rel H Hg; simpl in H.
  - injection H as <-. auto.
  - apply bind_Ok in H. destruct H as (rel1 & Hstep & H).
    destruct (IH rel1 H Hg) as [(ls' & c & Hin & Hi & Hc & ->)|Hold].
    + left. exists ls', c. simpl. auto.
    + apply block_step_Ok in Hstep.
      destruct Hstep as [[_ ->]|(Hi & c & Hc & ->)]; [auto|].
      destruct (path_eq_dec q k) as [->|Hne].
      * rewrite pget_pset_same in Hold. injection Hold as <-.
        left. exists ls, c. simpl. auto.
      * rewrite pget_pset_other in Hold by assumption. auto.
Qed.

Lemma write_contours_fold (rel : pdict geom) (log : list (path * string))
    (files : list (string * geom)) :
  fold_left write_contour rel (log, files)
  = (log ++ map (fun it => (fst it, geom_type (snd it))) (filter logged rel),
     files ++ map (fun it => (entry_name (fst it) ".wkt", snd it)) rel).
Proof.
  revert log files. induction rel as [|[k g] rel IH]; intros log files; simpl.
  - rewrite !app_nil_r. reflexivity.
  - unfold logged at 1. simpl.
    destruct (negb (String.eqb (geom_type g) "Polygon") && negb (is_empty g));
      rewrite IH; simpl; rewrite <- !app_assoc; reflexivity.
Qed.
End Entries.

(** C2, as stated, fails.  A kept line touches the contour of its block from
    outside along an edge: the hull of the line meets the contour in a
    segment, a LineString, whose convex hull is the same segment.  The
    returned geometry is neither empty nor a polygon (and the writer logs
    it). *)
Lemma reliable_polygon_counterexample :
  exists rel h' g,
    reliable_contours Ex.small_contour 1%nat [] 0%nat None (Ex.store_of_kept Ex.line_beside)
    = (Ok rel, h')
    /\ Rect.type_of (Rect.rect 0 2 0 2) = "Polygon"
    /\ Rect.type_of (Rect.rect 2 4 0 2) = "Polygon"
    /\ pget rel Ex.block_0 = Some g
    /\ Rect.hull_exact g = true
    /\ geom_type g = "LineString"
    /\ is_empty g = false
    /\ fst (write_contours rel) = [(Ex.block_0, "LineString")].
Proof.
  eexists. eexists. eexists.
  repeat (split; [reflexivity|]). reflexivity.
Qed.

(** C2, amended. Every geometry of the mapping that [reliable_contours]
    returns is the polygon of a freed line (at its new path), or belongs to
    a block with kept lines that is not ignored, and is then the
    intersection of the hull of the lines with the contour when that is of
    type Polygon and the convex hull of the intersection otherwise, or is a
    predicted contour passed through unchanged.  Nothing makes the convex
    hull of a degenerate intersection a polygon.  The writer does not raise:
    it emits every entry, and logs exactly the entries that are neither of
    type Polygon nor empty. *)
Theorem reliable_entries_and_log {G : Geometry}
    (C : pdict geom) (al dl : ref) (fl : list (path * Line))
    (ign : option (path -> bool)) (h h' : store) (rel : pdict geom) :
  reliable_contours C al fl dl ign h = (Ok rel, h') ->
  (forall k g, pget rel k = Some g ->
     (exists pre P line post m,
         fl = pre ++ (P, line) :: post /\ is_max_id C P m
         /\ k = P ++ [CInt (m + 1 + count_path P pre)]
         /\ g = image_space_polygon line)
     \/ (exists c i,
           pget C k = Some c /\ not_ignored ign k = true
           /\ (exists lp, In lp (keys (h' al)) /\ firstn 3 lp = k)
           /\ i = intersection
                    (convex_hull (cascaded_union
                       (map image_space_polygon (lines_of_block (h' al) k)))) c
           /\ ((geom_type i = "Polygon" /\ g = i)
               \/ (geom_type i <> "Polygon" /\ g = convex_hull i)))
     \/ pget C k = Some g)
  /\ snd (write_contours rel)
     = map (fun it => (entry_name (fst it) ".wkt", snd it)) rel
  /\ fst (write_contours rel)
     = map (fun it => (fst it, geom_type (snd it))) (filter logged rel).
Proof.
  intros Hrun. split; [|unfold write_contours; rewrite write_contours_fold; auto].
  intros k g Hg.
  apply reliable_contours_Ok in Hrun.
  destruct Hrun as (mx & mx' & rel1 & rel2 & Hmx & Hfree & Hblocks & ->).
  rewrite passthrough_get in Hg.
  destruct (pget rel2 k) as [g2|] eqn:H2; [injection Hg as ->|auto].
  destruct (block_loop_cases C ign _ rel1 rel2 k g Hblocks H2)
    as [(ls & c & Hin & Hi & Hc & ->)|Hold].
  - right. left.
    assert (Hk : exists lp, In lp (keys (h' al)) /\ firstn 3 lp = k).
    { apply group_block_lines_keys. apply (in_map fst) in Hin. exact Hin. }
    assert (Hls : ls = lines_of_block (h' al) k).
    { pose proof (group_block_lines_get (h' al) k Hk) as Hget.
      assert (Hnd : NoDup (keys (group_block_lines (h' al))))
        by (apply group_NoDup; constructor).
      rewrite (pget_pair_In _ _ _ Hnd Hin) in Hget. congruence. }
    subst ls. exists c. eexists. repeat split; try eassumption.
    apply block_geometry_cases.
  - left.
    pose proof (free_loop_reliable_keys dl fl mx [] h k g) as Hkeys.
    unfold pdict in *. rewrite Hfree in Hkeys.
    destruct (Hkeys Hold) as [Hnil|(pre & P & line & post & Hfl & Hk & Hgeo)];
      [discriminate|].
    exists pre, P, line, post, (dict_get_default path_eqb 0 mx P).
    apply compute_max_ids_spec in Hmx. destruct Hmx as [Hmax _].
    split; [assumption|]. split; [apply Hmax|]. split; assumption.
Qed.

Lemma small_contour_run_witness_aux :
  exists lp, In lp (keys (Ex.store_of_kept Ex.line_beside 1%nat))
             /\ firstn 3 lp = Ex.block_0.
Proof.
  exists (Ex.block_0 ++ [CInt 0]). split; [left; reflexivity|reflexivity].
Qed.

(** The line beside its contour: the writer emits the one entry and logs
    it. *)
Lemma reliable_entries_and_log_witness :
  exists rel h',
    reliable_contours Ex.small_contour 1%nat [] 0%nat None (Ex.store_of_kept Ex.line_beside)
    = (Ok rel, h')
    /\ snd (write_contours rel)
       = map (fun it => (entry_name (fst it) ".wkt", snd it)) rel
    /\ fst (write_contours rel)
       = map (fun it => (fst it, geom_type (snd it))) (filter logged rel).
Proof.
  eexists. eexists. split; [reflexivity|].
  exact (proj2 (reliable_entries_and_log (G := Rect.geometry)
                  Ex.small_contour 1%nat 0%nat [] None
                  (Ex.store_of_kept Ex.line_beside) _ _ eq_refl)).
Defined.

(** ** Reclassification: kept and freed lines (C5, C3) *)

Section ReclassifyFacts.
Context {G : Geometry}.
Variables (threshold : Q) (c_tables : list path) (pn cn bid : comp).

Local Notation "'key' j" := [pn; cn; bid; CInt (Z.of_nat j)] (at level 10).
Local Notation "'step'" := (reclassify_line threshold c_tables pn cn bid).
Local Notation "'err' l" := (line_error c_tables pn cn bid l) (at level 10).

Lemma key_inj (i j : nat) : key i = key j -> i = j.
Proof. intros H. injection H as H. lia. Qed.

(** The inner loop, started at the index [s]. *)
Lemma reclassify_lines_spec (lines : list Line) (s : nat)
    (det : pdict Line) (free : list (path * Line)) :
  let st' := fold_left step (combine (seq s (List.length lines)) lines) (det, free) in
  (forall i line, nth_error lines i = Some line ->
      if Qgt_bool (err line) threshold
      then pget (fst st') (key (s + i)) = pget det (key (s + i))
           /\ In (predicted_path line, line) (snd st')
      else pget (fst st') (key (s + i)) = Some line)
  /\ (forall k, (forall j, (s <= j < s + List.length lines)%nat -> k <> key j) ->
                pget (fst st') k = pget det k)
  /\ (forall x, In x free -> In x (snd st')).
Proof.
  revert s det free. induction lines as [|l ls IH]; intros s det free; simpl.
  - split; [|split]; auto. intros [|i] line H; discriminate H.
  - set (st1 := if Qgt_bool (err l) threshold
                then (det, free ++ [(predicted_path l, l)])
                else (pset det (key s) l, free)).
    destruct st1 as [det1 free1] eqn:Hst1.
    destruct (IH (S s) det1 free1) as (IHk & IHf & IHi).
    set (st' := fold_left _ _ (det1, free1)) in *.
    assert (Hs : pget (fst st') (key s) = pget det1 (key s)).
    { apply IHf. intros j Hj Heq. apply key_inj in Heq. lia. }
    split; [|split].
    + intros [|i] line Hline; simpl in Hline.
      * injection Hline as <-. rewrite Nat.add_0_r, Hs. unfold st1 in Hst1.
        destruct (Qgt_bool (err l) threshold); injection Hst1 as <- <-.
        -- split; [reflexivity|]. apply IHi. apply in_or_app. right. left. reflexivity.
        -- apply pget_pset_same.
      * specialize (IHk i line Hline).
        replace (s + S i)%nat with (S s + i)%nat by lia.
        destruct (Qgt_bool (err line) threshold); [|assumption].
        destruct IHk as [IHk Hin]. split; [|assumption]. rewrite IHk.
        unfold st1 in Hst1.
        destruct (Qgt_bool (err l) threshold); injection Hst1 as <- <-; [reflexivity|].
        apply pget_pset_other. intros Heq. apply key_inj in Heq. lia.
    + intros k Hk. rewrite IHf.
      * unfold st1 in Hst1.
        destruct (Qgt_bool (err l) threshold); injection Hst1 as <- <-; [reflexivity|].
        apply pget_pset_other. intros Heq. apply (Hk s); [lia|auto].
      * intros j Hj. apply Hk. lia.
    + intros x Hx. apply IHi. unfold st1 in Hst1.
      destruct (Qgt_bool (err l) threshold); injection Hst1 as <- <-; [|assumption].
      apply in_or_app. left. assumption.
Qed.
End ReclassifyFacts.

Section ReclassifyBlocks.
Context {G : Geometry}.
Variables (threshold : Q) (c_tables : list path).
#[local] Arguments firstn : simpl never.

Lemma firstn_3_index (parts : path) (pn cn bid : comp) :
  firstn 3 parts = [pn; cn; bid] ->
  index parts 0 = Ok pn /\ index parts 1 = Ok cn /\ index parts 2 = Ok bid.
Proof.
  destruct parts as [|a [|b [|c parts]]]; try discriminate.
  unfold firstn. intros H. injection H as -> -> ->. auto.
Qed.

Lemma firstn_3_exists (parts : path) :
  (3 <= List.length parts)%nat -> exists pn cn bid, firstn 3 parts = [pn; cn; bid].
Proof.
  destruct parts as [|a [|b [|c parts]]]; simpl; try lia. intros _.
  exists a, b, c. reflexivity.
Qed.

Lemma reclassify_block_Ok (st : pdict Line * list (path * Line))
    (parts : path) (lines : list Line) (pn cn bid : comp) :
  firstn 3 parts = [pn; cn; bid] ->
  reclassify_block threshold c_tables st (parts, lines)
  = Ok (fold_left (reclassify_line threshold c_tables pn cn bid) (enumerate lines) st).
Proof.
  intros H. apply firstn_3_index in H. destruct H as (H0 & H1 & H2).
  unfold reclassify_block. rewrite H0, H1, H2. reflexivity.
Qed.

Lemma prefix_of_key (pn cn bid : comp) (j : nat) :
  firstn 3 [pn; cn; bid; CInt (Z.of_nat j)] = [pn; cn; bid].
Proof. reflexivity. Qed.

(** The loop over the blocks, from any state. *)
Lemma reclassify_blocks_spec (bs : list (path * list Line))
    (det : pdict Line) (free : list (path * Line)) :
  NoDup (map (fun it => firstn 3 (fst it)) bs) ->
  (forall it, In it bs -> (3 <= List.length (fst it))%nat) ->
  exists det' free',
    foldM (reclassify_block threshold c_tables) bs (det, free) = Ok (det', free')
    /\ (forall k, (forall it, In it bs -> firstn 3 k <> firstn 3 (fst it)) ->
                  pget det' k = pget det k)
    /\ (forall x, In x free -> In x free')
    /\ (forall parts lines pn cn bid i line,
          In (parts, lines) bs -> firstn 3 parts = [pn; cn; bid] ->
          nth_error lines i = Some line ->
          if Qgt_bool (line_error c_tables pn cn bid line) threshold
          then pget det' [pn; cn; bid; CInt (Z.of_nat i)]
               = pget det [pn; cn; bid; CInt (Z.of_nat i)]
               /\ In (predicted_path line, line) free'
          else pget det' [pn; cn; bid; CInt (Z.of_nat i)] = Some line).
Proof.
  revert det free. induction bs as [|[parts lines] bs IH]; intros det free Hnd Hlen.
  - exists det, free. simpl. repeat split; auto. intros ? ? ? ? ? ? ? [].
  - simpl in Hnd. inversion Hnd as [|? ? Hnotin Hnd']; subst.
    destruct (firstn_3_exists parts (Hlen _ (or_introl eq_refl))) as (pn & cn & bid & Hp).
    pose proof (reclassify_lines_spec threshold c_tables pn cn bid lines 0 det free)
      as Hinner.
    fold (enumerate lines) in Hinner. simpl in Hinner.
    destruct (fold_left (reclassify_line threshold c_tables pn cn bid)
                (enumerate lines) (det, free)) as [det1 free1] eqn:Hst1.
    simpl in Hinner. destruct Hinner as (Hk1 & Hf1 & Hi1).
    destruct (IH det1 free1 Hnd') as (det' & free' & Hrun & Hframe & Hincl & Hblocks).
    { intros it Hit. apply Hlen. right. assumption. }
    exists det', free'. split; [|split; [|split]].
    + cbn [foldM]. rewrite (reclassify_block_Ok _ _ _ _ _ _ Hp), Hst1.
      cbn [bind]. assumption.
    + intros k Hk. rewrite Hframe.
      * apply Hf1. intros j _ Heq. apply (Hk (parts, lines)); [left; reflexivity|].
        subst k. simpl fst. rewrite Hp. reflexivity.
      * intros it Hit. apply Hk. right. assumption.
    + auto.
    + intros parts' lines' pn' cn' bid' i line [Heq|Hin] Hp' Hline.
      * injection Heq as <- <-. rewrite Hp in Hp'. injection Hp' as <- <- <-.
        specialize (Hk1 i line Hline).
        assert (Hsame : pget det' [pn; cn; bid; CInt (Z.of_nat i)]
                        = pget det1 [pn; cn; bid; CInt (Z.of_nat i)]).
        { apply Hframe. intros it Hit Heq. apply Hnotin.
          rewrite prefix_of_key, <- Hp in Heq. rewrite Heq.
          apply (in_map (fun it => firstn 3 (fst it))). assumption. }
        rewrite Hsame.
        destruct (Qgt_bool (line_error c_tables pn cn bid line) threshold).
        -- destruct Hk1 as [Hk1 Hin1]. split; [assumption|auto].
        -- assumption.
      * specialize (Hblocks parts' lines' pn' cn' bid' i line Hin Hp' Hline).
        destruct (Qgt_bool (line_error c_tables pn' cn' bid' line) threshold);
          [|assumption].
        destruct Hblocks as [Hb Hin']. split; [|assumption]. rewrite Hb.
        apply Hf1. intros j _ Heq. apply Hnotin.
        apply (f_equal (firstn 3)) in Heq. rewrite !prefix_of_key in Heq.
        rewrite Hp, <- Heq, <- Hp'.
        apply (in_map (fun it => firstn 3 (fst it)) _ (parts', lines')). assumption.
Qed.
End ReclassifyBlocks.

(** C5, as stated, fails.  In the block regions/TEXT/0 the first detected
    line (error 0.8) is freed and the second (error 0.1) is kept, at the
    threshold 0.5.  The kept line is the first of the kept lines of its
    block, yet its path is regions/TEXT/0/1, and nothing is stored under
    regions/TEXT/0/0: the identifiers of the kept lines are not 0, 1, 2, ... *)
Lemma kept_line_index_counterexample :
  exists detected free,
    reclassify (1 # 2) [] Ex.far_then_near = Ok (detected, free)
    /\ nth_error (kept_lines (1 # 2) [] (CStr "regions") (CStr "TEXT") (CStr "0")
                    [Ex.line_far; Ex.line_near]) 0 = Some Ex.line_near
    /\ pget detected (Ex.block_0 ++ [CInt 0]) = None
    /\ pget detected (Ex.block_0 ++ [CInt 1]) = Some Ex.line_near.
Proof.
  eexists. eexists. repeat split; reflexivity.
Qed.

(** C5, amended. For every block and every detected line of the block whose
    error (after the table rule) is at most the threshold, the line is kept
    under the path (predictor, class, block_id, line_id), where [line_id] is
    the 0-based index of the line in the list of all detected lines of the
    block, in detector order.  A line whose error is above the threshold is
    freed under its own predicted path and leaves its index unused, so the
    identifiers of the kept lines increase with gaps. *)
Theorem kept_lines_keep_detector_index {G : Geometry}
    (threshold : Q) (table_columns : list (string * list Z))
    (detected_lines_by_block : list (path * list Line)) :
  NoDup (map (fun it => firstn 3 (fst it)) detected_lines_by_block) ->
  (forall it, In it detected_lines_by_block -> (3 <= List.length (fst it))%nat) ->
  exists detected free,
    reclassify threshold table_columns detected_lines_by_block = Ok (detected, free)
    /\ forall parts lines pn cn bid i line,
         In (parts, lines) detected_lines_by_block ->
         firstn 3 parts = [pn; cn; bid] ->
         nth_error lines i = Some line ->
         let error := line_error (c_tables_of table_columns) pn cn bid line in
         (Qle_bool error threshold = true ->
            pget detected [pn; cn; bid; CInt (Z.of_nat i)] = Some line)
         /\ (Qle_bool error threshold = false ->
               pget detected [pn; cn; bid; CInt (Z.of_nat i)] = None
               /\ In (predicted_path line, line) free).
Proof.
  intros Hnd Hlen. unfold reclassify.
  destruct (reclassify_blocks_spec threshold (c_tables_of table_columns)
              detected_lines_by_block [] [] Hnd Hlen)
    as (det' & free' & Hrun & _ & _ & Hblocks).
  exists det', free'. split; [assumption|].
  intros parts lines pn cn bid i line Hin Hp Hline.
  specialize (Hblocks parts lines pn cn bid i line Hin Hp Hline).
  unfold Qgt_bool in Hblocks.
  destruct (Qle_bool (line_error (c_tables_of table_columns) pn cn bid line) threshold);
    simpl in Hblocks.
  - split; [auto|discriminate].
  - split; [discriminate|]. intros _. exact Hblocks.
Qed.

Lemma far_then_near_wellformed :
  NoDup (map (fun it => firstn 3 (fst it)) Ex.far_then_near)
  /\ (forall it, In it Ex.far_then_near -> (3 <= List.length (fst it))%nat).
Proof.
  split.
  - repeat constructor. intros [].
  - intros it [<-|[]]. simpl. lia.
Qed.

(** The block with the errors 0.8 and 0.1: the second line is kept under
    regions/TEXT/0/1. *)
Lemma kept_lines_keep_detector_index_witness :
  exists detected free,
    reclassify (1 # 2) [] Ex.far_then_near = Ok (detected, free)
    /\ pget detected [CStr "regions"; CStr "TEXT"; CStr "0"; CInt 1] = Some Ex.line_near.
Proof.
  destruct (kept_lines_keep_detector_index (1 # 2) [] Ex.far_then_near
              (proj1 far_then_near_wellformed) (proj2 far_then_near_wellformed))
    as (detected & free & Hrun & Hspec).
  exists detected, free. split; [exact Hrun|].
  exact (proj1 (Hspec Ex.block_0 [Ex.line_far; Ex.line_near]
                  (CStr "regions") (CStr "TEXT") (CStr "0") 1%nat Ex.line_near
                  (or_introl eq_refl) eq_refl eq_refl) eq_refl).
Defined.

(** ** Tables without columns (C3) *)

(** The table rule: for a TABULAR block without registered columns the error
    is zero, whatever the line reports. *)
Lemma table_error_forced_to_zero {G : Geometry} (c_tables : list path)
    (block_id : comp) (line : Line) :
  path_in [CStr "regions"; CStr "TABULAR"; block_id] c_tables = false ->
  line_error c_tables (CStr "regions") (CStr "TABULAR") block_id line = 0%Q.
Proof.
  intros H. unfold line_error. simpl path_eqb. cbv iota. rewrite H. reflexivity.
Qed.

(** With a threshold that is not negative, such a line is kept. *)
Lemma table_line_kept_nonnegative_threshold {G : Geometry} (threshold : Q)
    (c_tables : list path) (block_id : comp) (line : Line) :
  path_in [CStr "regions"; CStr "TABULAR"; block_id] c_tables = false ->
  (0 <= threshold)%Q ->
  Qgt_bool (line_error c_tables (CStr "regions") (CStr "TABULAR") block_id line)
    threshold = false.
Proof.
  intros H Ht. rewrite table_error_forced_to_zero by assumption.
  unfold Qgt_bool. apply negb_false_iff. apply Qle_bool_iff. assumption.
Qed.

(** Hence, with a threshold that is not negative, every line of a TABULAR
    block without registered columns is kept, under its detector index. *)
Lemma table_lines_kept_nonnegative_threshold {G : Geometry}
    (threshold : Q) (table_columns : list (string * list Z))
    (detected_lines_by_block : list (path * list Line))
    (parts : path) (lines : list Line) (block_id : comp) (i : nat) (line : Line) :
  NoDup (map (fun it => firstn 3 (fst it)) detected_lines_by_block) ->
  (forall it, In it detected_lines_by_block -> (3 <= List.length (fst it))%nat) ->
  (0 <= threshold)%Q ->
  In (parts, lines) detected_lines_by_block ->
  firstn 3 parts = [CStr "regions"; CStr "TABULAR"; block_id] ->
  path_in [CStr "regions"; CStr "TABULAR"; block_id] (c_tables_of table_columns) = false ->
  nth_error lines i = Some line ->
  exists detected free,
    reclassify threshold table_columns detected_lines_by_block = Ok (detected, free)
    /\ pget detected [CStr "regions"; CStr "TABULAR"; block_id; CInt (Z.of_nat i)]
       = Some line.
Proof.
  intros Hnd Hlen Ht Hin Hp Hcols Hline. unfold reclassify.
  destruct (reclassify_blocks_spec threshold (c_tables_of table_columns)
              detected_lines_by_block [] [] Hnd Hlen)
    as (det' & free' & Hrun & _ & _ & Hblocks).
  exists det', free'. split; [assumption|].
  specialize (Hblocks parts lines _ _ _ i line Hin Hp Hline).
  rewrite table_line_kept_nonnegative_threshold in Hblocks by assumption.
  exact Hblocks.
Qed.

(** C3: the code with a negative threshold.  The block regions/TABULAR/0 has
    no registered columns and the threshold is -0.5.  The error of its line is
    forced to zero, but zero is above the threshold: the line is freed and
    nothing is kept, although lines of such a block are never to be
    reclassified. *)
Theorem table_line_freed_below_zero_threshold :
  line_error (c_tables_of []) (CStr "regions") (CStr "TABULAR") (CStr "0") Ex.table_line
  = 0%Q
  /\ reclassify (- (1 # 2)) [] Ex.table_page
     = Ok ([], [(Ex.regions_TEXT, Ex.table_line)]).
Proof.
  split; reflexivity.
Qed.

(** ** The call of [reliable_contours] in [process] (C1) *)

(** Three positional arguments cannot be bound to the four required
    parameters. *)
Lemma three_arguments_raise {G : Geometry} (a b c : pyval) (h : store) :
  call_reliable_contours [a; b; c] h = (Raise TypeError, h).
Proof. reflexivity. Qed.

(** [process] writes nothing for any page that has blocks: when the sampler
    and the reclassification succeed, it raises at the call. *)
Lemma process_never_writes {G : Geometry} (options : Options) (page : Page)
    (out : page_output) :
  process options page <> Ok (Some out).
Proof.
  unfold process. destruct (blocks page) as [|b bs]; [discriminate|].
  destruct (update_confidences _ _) as [[]|e]; simpl; [|discriminate].
  destruct (reclassify _ _ _) as [[det free]|e]; simpl; discriminate.
Qed.

(** C1: the code at the scenario.  The page has one TEXT block with the
    identifier 0 and two detected lines with the errors 0.1 and 0.8, and the
    threshold is 0.5.  The reclassification keeps the first line under
    regions/TEXT/0/0 and frees the second; then [process] calls
    [reliable_contours] with three positional arguments where four are
    required, which raises [TypeError]: no line and no contour is
    written. *)
Theorem process_raises_on_scenario :
  reclassify (1 # 2) [] [ (Ex.block_0, [Ex.scenario_first; Ex.scenario_second]) ]
  = Ok ([ (Ex.block_0 ++ [CInt 0], Ex.scenario_first) ],
        [ (Ex.regions_TABULAR, Ex.scenario_second) ])
  /\ process Ex.scenario_options Ex.scenario_page = Raise TypeError.
Proof.
  split; reflexivity.
Qed.

(** What the two parts do on the scenario when the builder is given four
    arguments (the contours, the kept lines, the freed lines and the
    dictionary of detected lines): the freed line gets the path
    regions/TABULAR/1 and the contour of regions/TEXT/0 is the intersection
    of the hull of the kept line with the contour of the block. *)
Lemma scenario_builder_with_four_arguments :
  exists rel h',
    reliable_contours Ex.square_contour 1%nat
      [ (Ex.regions_TABULAR, Ex.scenario_second) ] 0%nat None Ex.scenario_store
    = (Ok rel, h')
    /\ pget rel (Ex.regions_TABULAR ++ [CInt 1]) = Some (Rect.rect 1 9 5 7)
    /\ pget rel Ex.block_0
       = Some (Rect.inter (Rect.hull (Rect.rect 1 9 1 3)) (Rect.rect 0 10 0 10))
    /\ pget (h' 0%nat) (Ex.regions_TABULAR ++ [CInt 1; CInt 0]) = Some Ex.scenario_second
    /\ pget (h' 0%nat) (Ex.block_0 ++ [CInt 0]) = Some Ex.scenario_first.
Proof.
  eexists. eexists. repeat split; reflexivity.
Qed.

(** ** The confidence sampler and its divisions (C9) *)

Lemma In_sdict_set {V : Type} (d : list (string * V)) (k : string) (v : V)
    (x : string * V) :
  In x (dict_set String.eqb d k v) -> x = (k, v) \/ In x d.
Proof.
  induction d as [|[k0 v0] d IH]; simpl.
  - intros [<-|[]]. left. reflexivity.
  - destruct (String.eqb_spec k0 k) as [->|Hne]; simpl.
    + intros [<-|H]; auto.
    + intros [<-|H]; auto. destruct (IH H); auto.
Qed.

Lemma count_label_cons (l : nat) (ls : list nat) (v : nat) :
  count_label (l :: ls) v = (if Nat.eqb l v then 1 else 0) + count_label ls v.
Proof.
  unfold count_label. simpl. destruct (Nat.eq_dec l v) as [->|Hne].
  - rewrite Nat.eqb_refl. lia.
  - apply Nat.eqb_neq in Hne. rewrite Hne. lia.
Qed.

Lemma sum_indicator (l s n : nat) :
  np_sum (map (fun v => if Nat.eqb l v then 1 else 0) (seq s n))
  = if (s <=? l)%nat && (l <? s + n)%nat then 1 else 0.
Proof.
  revert s. induction n as [|n IH]; intros s.
  - simpl. destruct (Nat.leb_spec s l), (Nat.ltb_spec l (s + 0)); simpl; try reflexivity; lia.
  - cbn [seq map np_sum fold_right]. fold (np_sum (map (fun v => if Nat.eqb l v then 1 else 0)
                                                    (seq (S s) n))).
    rewrite IH.
    destruct (Nat.eqb_spec l s), (Nat.leb_spec (S s) l), (Nat.ltb_spec l (S s + n)),
             (Nat.leb_spec s l), (Nat.ltb_spec l (s + S n)); cbn [andb]; lia.
Qed.

Lemma np_sum_add (f g : nat -> Z) (vs : list nat) :
  np_sum (map (fun v => f v + g v) vs) = np_sum (map f vs) + np_sum (map g vs).
Proof.
  induction vs as [|v vs IH]; simpl; lia.
Qed.

Lemma np_sum_counts (labels : list nat) (n : nat) :
  (forall x, In x labels -> (x < n)%nat) ->
  np_sum (map (count_label labels) (seq 0 n)) = Z.of_nat (List.length labels).
Proof.
  induction labels as [|l ls IH]; intros Hlt.
  - unfold count_label. simpl. induction (seq 0 n); simpl; lia.
  - rewrite (map_ext _ (fun v => (if Nat.eqb l v then 1 else 0) + count_label ls v))
      by (intros v; apply count_label_cons).
    rewrite np_sum_add, sum_indicator, IH.
    + assert (l < n)%nat by (apply Hlt; left; reflexivity).
      destruct (Nat.leb_spec 0 l), (Nat.ltb_spec l (0 + n)); cbn [andb List.length]; lia.
    + intros x Hx. apply Hlt. right. assumption.
Qed.

Lemma list_max_lt (labels : list nat) (x : nat) :
  In x labels -> (x < S (list_max labels))%nat.
Proof.
  intros H. pose proof (list_max_le labels (list_max labels)) as [Hle _].
  specialize (Hle (Nat.le_refl _)). rewrite Forall_forall in Hle.
  specialize (Hle x H). lia.
Qed.

(** The sum of the counts is the number of samples. *)
Lemma np_sum_bincount (labels : list nat) (minlength : nat) :
  np_sum (bincount labels minlength) = Z.of_nat (List.length labels).
Proof.
  unfold bincount. apply np_sum_counts. destruct labels as [|l ls].
  - intros x [].
  - intros x Hx. apply list_max_lt in Hx. lia.
Qed.

Section SamplerFacts.
Context {G : Geometry}.

Lemma evidence_fold (name : string) (counts : list Z) (total : Z)
    (classes : list (string * Z)) (ev : list (string * Q)) :
  total <> 0 ->
  foldM (evidence_step name counts total) classes ev <> Raise ZeroDivisionError
  /\ forall ev', foldM (evidence_step name counts total) classes ev = Ok ev' ->
       forall key q, In (key, q) ev' ->
         In (key, q) ev
         \/ exists cname v c, In (cname, v) classes
              /\ key = (name ++ "/" ++ cname)%string
              /\ np_index counts v = Ok c
              /\ q = (inject_Z c / inject_Z total)%Q.
Proof.
  intros Ht. revert ev. induction classes as [|[cname v] classes IH]; intros ev; simpl.
  - split; [discriminate|]. intros ev' H. injection H as <-. auto.
  - unfold evidence_step at 1 3. simpl fst. simpl snd.
    destruct (np_index counts v) as [c|e] eqn:Hc; simpl.
    + unfold np_true_divide. destruct (Z.eqb_spec total 0) as [|_]; [contradiction|].
      simpl. destruct (IH (dict_set String.eqb ev (name ++ "/" ++ cname)%string
                             (inject_Z c / inject_Z total)%Q)) as [IH1 IH2].
      split; [assumption|].
      intros ev' Hrun key q Hin. destruct (IH2 ev' Hrun key q Hin) as [Hold|Hnew].
      * apply In_sdict_set in Hold. destruct Hold as [Heq|Hold]; [|auto].
        injection Heq as -> ->. right. exists cname, v, c. auto.
      * destruct Hnew as (cn & v' & c' & Hin' & Hrest). right.
        exists cn, v', c'. split; [right; assumption|assumption].
    + split; [|discriminate].
      unfold np_index in Hc.
      destruct ((0 <=? v) && (v <? Z.of_nat (List.length counts)));
        [unfold index in Hc; destruct (nth_error counts _); congruence|].
      destruct ((- Z.of_nat (List.length counts) <=? v) && (v <? 0));
        [unfold index in Hc; destruct (nth_error counts _); congruence|].
      congruence.
Qed.
End SamplerFacts.


Lemma concat_map_length {A B : Type} (f : A -> B) (g : list (list A)) :
  List.length (List.concat (map (map f) g)) = List.length (List.concat g).
Proof. rewrite <- concat_map, length_map. reflexivity. Qed.

(** [cv2.remap] returns as many labels as the map has points, and raises
    exactly on the map without points. *)
Lemma cv2_remap_result (labels : Q -> Q -> nat) (g : grid) :
  (List.concat g = [] /\ cv2_remap labels g = Raise Cv2Error)
  \/ (List.concat g <> []
      /\ exists ls, cv2_remap labels g = Ok ls
                    /\ List.length (List.concat ls) = List.length (List.concat g)).
Proof.
  unfold cv2_remap. destruct (List.concat g) as [|pt pts] eqn:Hg.
  - left. auto.
  - right. split; [discriminate|]. eexists. split; [reflexivity|].
    rewrite concat_map_length, Hg. reflexivity.
Qed.




(** ** The line rewriter (C7, C8) *)

Lemma ranges_from_pairs (left : option Z) (xs : list Z) :
  combine (left :: map Some xs ++ [None]) (map Some xs ++ [None]) = ranges_from left xs.
Proof.
  revert left. induction xs as [|x xs IH]; intros left; simpl.
  - reflexivity.
  - f_equal. apply IH.
Qed.

(** The pairs that the code zips are the consecutive boundary pairs. *)
Lemma column_pairs_ranges (xs : list Z) : column_pairs xs = column_ranges xs.
Proof. apply ranges_from_pairs. Qed.

Lemma ranges_from_length (left : option Z) (xs : list Z) :
  List.length (ranges_from left xs) = S (List.length xs).
Proof.
  revert left. induction xs as [|x xs IH]; intros left; simpl; [reflexivity|].
  rewrite IH. reflexivity.
Qed.

Lemma enumerate_from_snd {A : Type} (l : list A) (s : nat) :
  map snd (combine (seq s (List.length l)) l) = l.
Proof.
  revert s. induction l as [|a l IH]; intros s; simpl; [reflexivity|].
  rewrite IH. reflexivity.
Qed.

Lemma enumerate_from_length {A : Type} (l : list A) (s : nat) :
  List.length (combine (seq s (List.length l)) l) = List.length l.
Proof.
  rewrite length_combine, length_seq. lia.
Qed.

Lemma column_path_Ok (p : path) (column : Z) :
  four_fields p = true -> line_id_ok p -> 1 <= column ->
  exists cp, _column_path p column = Ok cp.
Proof.
  unfold four_fields, table_fields, line_id_ok, _column_path.
  intros Hf (c & n & Hc & Hn) Hcol.
  destruct (Z.ltb_spec column 1); [lia|].
  destruct p as [|pr [|lb [|c2 rest]]]; try discriminate.
  simpl firstn. unfold index. simpl nth_error in *. simpl.
  destruct c2 as [s|z]; [|discriminate].
  destruct (split "." s) as [|a [|b [|r [|d [|? ?]]]]]; try discriminate.
  rewrite Hc. simpl. rewrite Hn. simpl. eauto.
Qed.

Lemma column_path_Runtime (pr lb : comp) (s : string) (rest : path) (column : Z) :
  four_fields (pr :: lb :: CStr s :: rest) = false -> 1 <= column ->
  _column_path (pr :: lb :: CStr s :: rest) column = Raise RuntimeError.
Proof.
  unfold four_fields, table_fields, _column_path. intros Hf Hcol.
  destruct (Z.ltb_spec column 1); [lia|].
  cbn [nth_error] in Hf.
  simpl firstn. unfold index. cbn [nth_error bind].
  destruct (split "." s) as [|a [|b [|r [|d [|? ?]]]]]; try reflexivity.
  discriminate Hf.
Qed.

Section RewriterFacts.
Context {G : Geometry}.
#[local] Arguments firstn : simpl never.

(** The loop over the columns of one line. *)
Lemma column_parts_Ok (p : path) (line : Line)
    (items : list (nat * (option Z * option Z))) (parts : list line_part) :
  (forall i, exists cp, _column_path p (1 + Z.of_nat i) = Ok cp) ->
  exists seg,
    foldM (column_part p line) items parts = Ok (parts ++ seg)
    /\ List.length seg = List.length items
    /\ map snd seg = map (fun it => Some (snd it)) items
    /\ Forall (fun part => snd (fst part) = line) seg.
Proof.
  intros Hcp. revert parts. induction items as [|[i r] items IH]; intros parts.
  - exists []. simpl. rewrite app_nil_r. auto.
  - destruct (Hcp i) as [cp Hi]. cbn [foldM]. unfold column_part at 1.
    simpl fst. simpl snd. rewrite Hi. cbn [bind].
    destruct (IH (parts ++ [(cp, line, Some r)])) as (seg & Hrun & Hlen & Hmap & Hall).
    exists ((cp, line, Some r) :: seg). rewrite Hrun, <- app_assoc.
    split; [reflexivity|]. split; [simpl; congruence|].
    split; [simpl; congruence|constructor; auto].
Qed.

(** One line whose table component is well formed, or which is no table
    line. *)
Lemma rewrite_line_Ok (columns : pdict (list Z)) (parts : list line_part)
    (p : path) (line : Line) :
  (forall xs, pget columns (firstn 3 p) = Some xs ->
              four_fields p = true /\ line_id_ok p) ->
  exists seg,
    rewrite_line columns parts (p, line) = Ok (parts ++ seg)
    /\ parts_of_line columns (p, line) seg.
Proof.
  intros Hok. unfold rewrite_line, parts_of_line. simpl fst. simpl snd.
  destruct (pget columns (firstn 3 p)) as [xs|].
  - destruct (Hok xs eq_refl) as [Hf Hid].
    destruct (column_parts_Ok p line (enumerate (column_pairs xs)) parts)
      as (seg & Hrun & Hlen & Hmap & Hall).
    { intros i. apply column_path_Ok; auto. lia. }
    exists seg. split; [assumption|]. split; [|split; [|assumption]].
    + rewrite Hlen. unfold enumerate. rewrite enumerate_from_length.
      rewrite column_pairs_ranges. apply ranges_from_length.
    + rewrite Hmap, <- (map_map snd Some). unfold enumerate.
      rewrite enumerate_from_snd, column_pairs_ranges. reflexivity.
  - eauto.
Qed.

Lemma rewriter_Ok (columns : pdict (list Z)) (lines : pdict Line)
    (parts : list line_part) :
  (forall p line xs, In (p, line) lines -> pget columns (firstn 3 p) = Some xs ->
                     four_fields p = true /\ line_id_ok p) ->
  exists segs,
    foldM (rewrite_line columns) lines parts = Ok (parts ++ List.concat segs)
    /\ Forall2 (parts_of_line columns) lines segs.
Proof.
  revert parts. induction lines as [|[p line] lines IH]; intros parts Hok.
  - exists []. simpl. rewrite app_nil_r. auto.
  - destruct (rewrite_line_Ok columns parts p line) as (seg & Hrun & Hseg).
    { intros xs Hxs. apply (Hok p line xs); [left; reflexivity|assumption]. }
    destruct (IH (parts ++ seg)) as (segs & Hrest & Hall).
    { intros p' line' xs Hin. apply (Hok p' line' xs). right. assumption. }
    exists (seg :: segs). cbn [foldM]. rewrite Hrun. cbn [bind].
    rewrite Hrest. simpl. rewrite <- app_assoc. auto.
Qed.
End RewriterFacts.

(** C7. When the table paths are well formed (the table component of every
    line that matches a TableColumns entry has exactly four fields and its
    last component is an integer), the rewriter returns, line by line in
    the order of the lines: for a line whose block prefix matches an entry
    with N boundaries, exactly N + 1 parts of that line, whose column ranges
    are the consecutive boundary pairs with [None] on the outer edges; for a
    line without matching entry, the line once, with its path unchanged and
    the column range [None]. *)
Theorem table_lines_split_into_columns {G : Geometry}
    (columns : pdict (list Z)) (lines : pdict Line) :
  (forall p line xs, In (p, line) lines -> pget columns (firstn 3 p) = Some xs ->
                     four_fields p = true /\ line_id_ok p) ->
  exists segs,
    LineRewriter_call columns lines = Ok (List.concat segs)
    /\ Forall2 (parts_of_line columns) lines segs.
Proof.
  intros Hok. unfold LineRewriter_call.
  destruct (rewriter_Ok columns lines [] Hok) as (segs & Hrun & Hall).
  exists segs. auto.
Qed.

Lemma lines_to_rewrite_wellformed :
  forall p (line : Line) xs,
    In (p, line) Ex.lines_to_rewrite ->
    pget (LineRewriter_init Ex.table_with_columns) (firstn 3 p) = Some xs ->
    four_fields p = true /\ line_id_ok p.
Proof.
  intros p line xs [Heq|[Heq|[]]] Hxs; injection Heq as <- <-.
  - split; [reflexivity|]. exists (CInt 0), 0. split; reflexivity.
  - vm_compute in Hxs. discriminate Hxs.
Qed.

(** A line of a table with the boundaries 100 and 300 and a line of a text
    block. *)
Lemma table_lines_split_into_columns_witness :
  exists segs,
    LineRewriter_call (LineRewriter_init Ex.table_with_columns) Ex.lines_to_rewrite
    = Ok (List.concat segs)
    /\ Forall2 (parts_of_line (LineRewriter_init Ex.table_with_columns))
         Ex.lines_to_rewrite segs.
Proof.
  exact (table_lines_split_into_columns
           (LineRewriter_init Ex.table_with_columns) Ex.lines_to_rewrite
           lines_to_rewrite_wellformed).
Defined.

(** The example of the specification: the boundaries 100 and 300 give the
    three ranges (None, 100), (100, 300), (300, None). *)
Lemma column_pairs_100_300 :
  column_pairs [100; 300]
  = [(None, Some 100); (Some 100, Some 300); (Some 300, None)].
Proof. reflexivity. Qed.

Section RewriterErrors.
Context {G : Geometry}.
#[local] Arguments firstn : simpl never.

(** The keys built by [LineRewriter.__init__] are tuples of strings. *)
Lemma init_keys_strings (tc : list (string * list Z)) (k : path) :
  In k (keys (LineRewriter_init tc)) -> exists fs, k = map CStr fs.
Proof.
  unfold LineRewriter_init.
  assert (Hgen : forall d : pdict (list Z),
             (forall k, In k (keys d) -> exists fs, k = map CStr fs) ->
             forall k, In k (keys (fold_left
                                     (fun d item => pset d (path_of_key (fst item)) (snd item))
                                     tc d)) ->
                       exists fs, k = map CStr fs).
  { induction tc as [|[key xs] tc IH]; intros d Hd k0 Hin; simpl in Hin.
    - auto.
    - apply (IH (pset d (path_of_key key) xs)); [|assumption].
      intros k1 Hk1. apply keys_pset in Hk1. destruct Hk1 as [->|Hk1]; [|auto].
      exists (split "/" key). reflexivity. }
  apply Hgen. intros k0 [].
Qed.

(** A path with four components that matches a table entry starts with
    three strings. *)
Lemma matched_path_shape (tc : list (string * list Z)) (p : path) (xs : list Z) :
  (4 <= List.length p)%nat ->
  pget (LineRewriter_init tc) (firstn 3 p) = Some xs ->
  exists pr lb s rest, p = pr :: lb :: CStr s :: rest.
Proof.
  intros Hlen Hget. apply pget_In, init_keys_strings in Hget.
  destruct Hget as [fs Hfs].
  destruct p as [|pr [|lb [|c rest]]]; simpl in Hlen; try lia.
  unfold firstn in Hfs. destruct fs as [|a [|b [|s fs]]]; try discriminate.
  injection Hfs as -> -> -> _. eauto.
Qed.

End RewriterErrors.

Section RewriterRaises.
Context {G : Geometry}.
Variable tc : list (string * list Z).
#[local] Arguments firstn : simpl never.

Local Notation "'columns'" := (LineRewriter_init tc).

Lemma rewrite_line_malformed (parts : list line_part) (p : path) (line : Line) :
  (4 <= List.length p)%nat -> malformed columns p = true ->
  rewrite_line columns parts (p, line) = Raise RuntimeError.
Proof.
  intros Hlen Hbad. unfold malformed in Hbad. unfold rewrite_line.
  destruct (pget columns (firstn 3 p)) as [xs|] eqn:Hget; [|discriminate].
  apply negb_true_iff in Hbad.
  destruct (matched_path_shape tc p xs Hlen Hget) as (pr & lb & s & rest & ->).
  rewrite column_pairs_ranges. unfold column_ranges, enumerate.
  destruct xs as [|x xs]; cbn [ranges_from List.length seq combine foldM];
    unfold column_part at 1; simpl fst;
    rewrite (column_path_Runtime pr lb s rest (1 + Z.of_nat 0) Hbad) by (simpl; lia);
    reflexivity.
Qed.

Lemma rewrite_line_fine (parts : list line_part) (p : path) (line : Line) :
  line_id_ok p -> malformed columns p = false ->
  exists seg, rewrite_line columns parts (p, line) = Ok (parts ++ seg).
Proof.
  intros Hid Hfine.
  destruct (rewrite_line_Ok columns parts p line) as (seg & Hrun & _); [|eauto].
  intros xs Hxs. unfold malformed in Hfine. rewrite Hxs in Hfine.
  apply negb_false_iff in Hfine. auto.
Qed.

(** The rewriter raises the validation error exactly when some line is
    malformed, and returns otherwise. *)
Lemma rewriter_result (lines : pdict Line) (parts : list line_part) :
  (forall p line, In (p, line) lines -> (4 <= List.length p)%nat /\ line_id_ok p) ->
  if existsb (fun it => malformed columns (fst it)) lines
  then foldM (rewrite_line columns) lines parts = Raise RuntimeError
  else exists parts', foldM (rewrite_line columns) lines parts = Ok parts'.
Proof.
  revert parts. induction lines as [|[p line] lines IH]; intros parts Hwf.
  - simpl. eauto.
  - destruct (Hwf p line (or_introl eq_refl)) as [Hlen Hid].
    cbn [existsb fst foldM]. destruct (malformed columns p) eqn:Hbad; cbn [orb].
    + rewrite rewrite_line_malformed by assumption. reflexivity.
    + destruct (rewrite_line_fine parts p line Hid Hbad) as (seg & ->). cbn [bind].
      apply IH. intros p' line' Hin. apply (Hwf p' line'). right. assumption.
Qed.
End RewriterRaises.

(** C8. For lines whose paths have the four components of a line path with
    an integer line identifier, the rewriter raises the validation error
    ([RuntimeError]) if and only if some line whose block prefix matches a
    TableColumns entry has a table component that does not consist of
    exactly four dot-separated fields; the error takes the place of the
    whole result, and without such a line the rewriter returns its parts. *)
Theorem malformed_table_path_raises {G : Geometry}
    (tc : list (string * list Z)) (lines : pdict Line) :
  (forall p line, In (p, line) lines -> (4 <= List.length p)%nat /\ line_id_ok p) ->
  (LineRewriter_call (LineRewriter_init tc) lines = Raise RuntimeError
   <-> exists p line xs,
         In (p, line) lines
         /\ pget (LineRewriter_init tc) (firstn 3 p) = Some xs
         /\ four_fields p = false)
  /\ (LineRewriter_call (LineRewriter_init tc) lines <> Raise RuntimeError ->
      exists parts, LineRewriter_call (LineRewriter_init tc) lines = Ok parts).
Proof.
  intros Hwf. unfold LineRewriter_call.
  pose proof (rewriter_result tc lines [] Hwf) as Hres.
  destruct (existsb (fun it => malformed (LineRewriter_init tc) (fst it)) lines) eqn:Hex.
  - split; [|intros Hne; contradiction].
    split; [intros _|intros _; assumption].
    apply existsb_exists in Hex. destruct Hex as ([p line] & Hin & Hbad).
    simpl in Hbad. unfold malformed in Hbad.
    destruct (pget (LineRewriter_init tc) (firstn 3 p)) as [xs|] eqn:Hget;
      [|discriminate].
    exists p, line, xs. apply negb_true_iff in Hbad. auto.
  - destruct Hres as [parts Hparts]. split; [|eauto].
    split; [rewrite Hparts; discriminate|].
    intros (p & line & xs & Hin & Hget & Hf). exfalso.
    assert (Hex' : existsb (fun it => malformed (LineRewriter_init tc) (fst it)) lines = true).
    { apply existsb_exists. exists (p, line). split; [assumption|].
      simpl. unfold malformed. rewrite Hget, Hf. reflexivity. }
    congruence.
Qed.

Lemma lines_of_short_table_wellformed :
  forall p (line : Line),
    In (p, line) Ex.lines_of_short_table -> (4 <= List.length p)%nat /\ line_id_ok p.
Proof.
  intros p line [Heq|[Heq|[]]]; injection Heq as <- <-;
    (split; [simpl; lia|exists (CInt 0), 0; split; reflexivity]).
Qed.

(** The table path with the three fields block.division.row: the rewriter
    raises, also for the text line that precedes the table line. *)
Lemma malformed_table_path_raises_witness :
  LineRewriter_call (LineRewriter_init Ex.short_table) Ex.lines_of_short_table
  = Raise RuntimeError.
Proof.
  apply (proj1 (malformed_table_path_raises Ex.short_table Ex.lines_of_short_table
                  lines_of_short_table_wellformed)).
  exists (Ex.regions_TABULAR ++ [CStr "block.division.row"; CInt 0]), Ex.row_line,
    [100; 300].
  split; [right; left; reflexivity|]. split; reflexivity.
Defined.

(* ================================================================= *)
(** * Further properties of the code *)

(** ** [reliable_contours]: regions kept, and when the call raises *)

Section ReliableContoursMore.
Context {G : Geometry}.
#[local] Arguments firstn : simpl never.

(** The third loop raises [KeyError] at the first block with lines that is
    not ignored and has no contour, and nothing else. *)
Lemma block_loop_raises (C : pdict geom) (ign : option (path -> bool))
    (items : pdict (list Line)) (rel : pdict geom) :
  (exists p, In p (keys items) /\ not_ignored ign p = true /\ pmem C p = false) ->
  foldM (block_step C ign) items rel = Raise KeyError.
Proof.
  revert rel. induction items as [|[q ls] items IH]; intros rel (p & Hin & Hi & Hm).
  - destruct Hin.
  - cbn [foldM]. unfold block_step at 1. destruct (not_ignored ign q) eqn:Hq.
    + unfold dict_item. fold (pget C q). destruct (pget C q) as [c|] eqn:Hc.
      * cbn [bind]. apply IH. exists p. destruct Hin as [Heq|Hin]; [|auto].
        simpl in Heq. subst q. apply pmem_false in Hm. congruence.
      * reflexivity.
    + cbn [bind]. apply IH. exists p. destruct Hin as [Heq|Hin]; [|auto].
      simpl in Heq. subst q. congruence.
Qed.

(** No freed line that predicts a (predictor, class) pair is stored under
    the path of a contour. *)
Lemma free_loop_misses_contours (C : pdict geom) (dl : ref)
    (fl : list (path * Line)) (mx mx' : pdict Z) (rel1 : pdict geom)
    (h h' : store) (k : path) :
  compute_max_ids C = Ok mx ->
  free_loop dl fl (mx, [], h) = (mx', rel1, h') ->
  (forall P line, In (P, line) fl -> List.length P = 2%nat) ->
  In k (keys C) ->
  pget rel1 k = None.
Proof.
  intros Hmx Hfree Hpairs Hin.
  apply compute_max_ids_spec in Hmx. destruct Hmx as [Hmax Hkeys].
  destruct (pget rel1 k) as [g|] eqn:Hg; [exfalso|reflexivity].
  pose proof (free_loop_reliable_keys dl fl mx [] h k g) as Hfk.
  unfold pdict in *. rewrite Hfree in Hfk.
  destruct (Hfk Hg) as [Hnil|(pre & P & line & post & Hfl & Hk & _)]; [discriminate|].
  assert (HP : List.length P = 2%nat).
  { apply (Hpairs P line). rewrite Hfl. apply in_or_app. right. left. reflexivity. }
  subst k. apply (fresh_path_not_block C P _ pre (Hmax P) Hin).
  - destruct (Hkeys _ Hin) as (c & z & Hc & _). eauto.
  - unfold fresh_path. rewrite length_app. simpl. lia.
Qed.
End ReliableContoursMore.

(** X1. No predicted region is dropped: every contour path is a key of the
    mapping that [reliable_contours] returns.  When the freed lines predict
    (predictor, class) pairs, a region that is ignored, or in which no line
    lies, keeps its predicted contour unchanged. *)
Theorem regions_kept {G : Geometry}
    (C : pdict geom) (al dl : ref) (fl : list (path * Line))
    (ign : option (path -> bool)) (h h' : store) (rel : pdict geom) :
  reliable_contours C al fl dl ign h = (Ok rel, h') ->
  (forall k, In k (keys C) -> pmem rel k = true)
  /\ ((forall P line, In (P, line) fl -> List.length P = 2%nat) ->
      forall k c, pget C k = Some c ->
        not_ignored ign k = false
        \/ (forall lp, In lp (keys (h' al)) -> firstn 3 lp <> k) ->
        pget rel k = Some c).
Proof.
  intros Hrun. apply reliable_contours_Ok in Hrun.
  destruct Hrun as (mx & mx' & rel1 & rel2 & Hmx & Hfree & Hblocks & ->). split.
  - intros k Hin. apply pmem_true.
    apply In_pget in Hin. destruct Hin as [c Hc].
    assert (Hget : exists g, pget (passthrough C rel2) k = Some g).
    { rewrite passthrough_get. destruct (pget rel2 k); eauto. }
    destruct Hget as [g Hg]. eapply pget_In, Hg.
  - intros Hpairs k c Hc Hcase.
    rewrite passthrough_get.
    rewrite (block_loop_untouched C ign _ rel1 rel2 k Hblocks).
    + rewrite (free_loop_misses_contours C dl fl mx mx' rel1 h h' k Hmx Hfree Hpairs).
      * assumption.
      * eapply pget_In, Hc.
    + intros (Hin & Hi & _). destruct Hcase as [Hign|Hnone]; [congruence|].
      apply group_block_lines_keys in Hin. destruct Hin as (lp & Hlp & Heq).
      apply (Hnone lp Hlp Heq).
Qed.

(** A page with the contours 0 and 2 and no lines in them: three freed
    lines are added, and the contour 2 is passed through. *)
Lemma regions_kept_witness :
  exists rel h',
    reliable_contours Ex.contours_0_2 1%nat Ex.three_freed 0%nat None Ex.empty_store
    = (Ok rel, h')
    /\ pget rel (Ex.regions_TEXT ++ [CStr "2"]) = Some (Rect.rect 0 10 20 30).
Proof.
  eexists. eexists. split; [reflexivity|].
  refine (proj2 (regions_kept Ex.contours_0_2 1%nat 0%nat Ex.three_freed None
                   Ex.empty_store _ _ eq_refl) _
            (Ex.regions_TEXT ++ [CStr "2"]) (Rect.rect 0 10 20 30) eq_refl _).
  - intros P line [H|[H|[H|[]]]]; injection H as <- _; reflexivity.
  - right. intros lp Hlp. vm_compute in Hlp. destruct Hlp.
Defined.

(** X2. [reliable_contours] reads the third component of every contour path
    as an integer before it does anything else.  If some contour path has no
    third component, or one that is not an integer literal (the cell path
    of a table, say), the call raises [IndexError] or [ValueError]: nothing
    is returned and no dictionary of the store is changed. *)
Theorem malformed_contour_path_raises {G : Geometry}
    (C : pdict geom) (al dl : ref) (fl : list (path * Line))
    (ign : option (path -> bool)) (h : store) (k : path) :
  In k (keys C) ->
  (forall c z, nth_error k 2 = Some c -> py_int c <> Ok z) ->
  exists e, reliable_contours C al fl dl ign h = (Raise e, h)
            /\ (e = IndexError \/ e = ValueError).
Proof.
  intros Hin Hbad.
  assert (Hmx : exists e, compute_max_ids C = Raise e /\ (e = IndexError \/ e = ValueError)).
  { unfold compute_max_ids. generalize (@nil (path * Z)) as mx.
    induction (keys C) as [|k0 ks IH]; intros mx; [destruct Hin|].
    cbn [foldM]. unfold max_ids_step at 1. unfold index.
    destruct (nth_error k0 2) as [c|] eqn:Hc; cbn [bind].
    - unfold py_int at 1. destruct c as [s|z].
      + destruct (int_of_string s) as [z|] eqn:Hs; cbn [bind].
        * destruct Hin as [<-|Hin]; [|apply IH; assumption].
          exfalso. apply (Hbad (CStr s) z Hc). unfold py_int. rewrite Hs. reflexivity.
        * eauto.
      + cbn [bind]. destruct Hin as [<-|Hin]; [|apply IH; assumption].
        exfalso. apply (Hbad (CInt z) z Hc). reflexivity.
    - eauto. }
  destruct Hmx as (e & Hmx & He). exists e. split; [|assumption].
  unfold reliable_contours. rewrite Hmx. reflexivity.
Qed.

(** The contour of a table cell makes the call raise. *)
Lemma malformed_contour_path_raises_witness :
  exists e,
    reliable_contours More.cell_contours 1%nat Ex.three_freed 0%nat None Ex.empty_store
    = (Raise e, Ex.empty_store)
    /\ (e = IndexError \/ e = ValueError).
Proof.
  apply (malformed_contour_path_raises More.cell_contours 1%nat 0%nat Ex.three_freed None
           Ex.empty_store Ex.cell (or_introl eq_refl)).
  intros c z Hc. injection Hc as <-. vm_compute. discriminate.
Defined.

Section ReliableContoursRaises.
Context {G : Geometry}.
#[local] Arguments firstn : simpl never.

(** The call after a successful first loop. *)
Lemma reliable_contours_after_max (C : pdict geom) (al dl : ref)
    (fl : list (path * Line)) (ign : option (path -> bool)) (h h' : store)
    (mx mx' : pdict Z) (rel1 : pdict geom) :
  compute_max_ids C = Ok mx ->
  free_loop dl fl (mx, [], h) = (mx', rel1, h') ->
  reliable_contours C al fl dl ign h
  = (let* rel2 := foldM (block_step C ign) (group_block_lines (h' al)) rel1 in
     Ok (passthrough C rel2), h').
Proof.
  intros Hmx Hfree. unfold reliable_contours. rewrite Hmx.
  unfold pdict in *. rewrite Hfree. reflexivity.
Qed.
End ReliableContoursRaises.

(** X3. With well-formed contour paths, [reliable_contours] raises
    [KeyError] when some line lies in a block that is not ignored and has no
    contour, and returns a mapping otherwise.  The lines are those of
    [all_lines] after the freed lines were stored: the freed lines stay in
    the dictionary of detected lines also when the call raises. *)
Theorem line_without_contour_raises {G : Geometry}
    (C : pdict geom) (al dl : ref) (fl : list (path * Line))
    (ign : option (path -> bool)) (h : store) :
  (forall k, In k (keys C) -> exists c z, nth_error k 2 = Some c /\ py_int c = Ok z) ->
  let run := reliable_contours C al fl dl ign h in
  ((exists lp, In lp (keys (snd run al)) /\ not_ignored ign (firstn 3 lp) = true
               /\ pmem C (firstn 3 lp) = false) ->
   fst run = Raise KeyError)
  /\ ((forall lp, In lp (keys (snd run al)) -> not_ignored ign (firstn 3 lp) = true ->
                  pmem C (firstn 3 lp) = true) ->
      exists rel, fst run = Ok rel).
Proof.
  intros HC run. split.
  - intros (lp & Hlp & Hi & Hm).
    destruct (compute_max_ids_total C HC) as [mx Hmx].
    destruct (free_loop dl fl (mx, [], h)) as [[mx' rel1] h'] eqn:Hfree.
    unfold run in *.
    rewrite (reliable_contours_after_max C al dl fl ign h h' mx mx' rel1 Hmx Hfree) in *.
    cbn [fst snd] in *.
    rewrite block_loop_raises; [reflexivity|].
    exists (firstn 3 lp). split; [|auto].
    apply group_keys. right. eauto.
  - intros Hall. apply reliable_contours_total; assumption.
Qed.

Lemma stray_line_has_no_contour :
  exists lp,
    In lp (keys (snd (reliable_contours Ex.contours_0_2 1%nat Ex.three_freed 0%nat None
                        More.store_of_stray) 1%nat))
    /\ not_ignored None (firstn 3 lp) = true
    /\ pmem Ex.contours_0_2 (firstn 3 lp) = false.
Proof.
  exists (Ex.regions_TEXT ++ [CStr "7"; CInt 0]).
  split; [left; reflexivity|]. split; reflexivity.
Qed.

(** A line in the block regions/TEXT/7, where only the contours 0 and 2
    exist. *)
Lemma line_without_contour_raises_witness :
  fst (reliable_contours Ex.contours_0_2 1%nat Ex.three_freed 0%nat None
         More.store_of_stray)
  = Raise KeyError.
Proof.
  exact (proj1 (line_without_contour_raises Ex.contours_0_2 1%nat 0%nat Ex.three_freed
                  None More.store_of_stray contours_0_2_wellformed)
           stray_line_has_no_contour).
Defined.

(** X4. The dictionary of detected lines cannot also serve as [all_lines]:
    when the two parameters are the same dictionary, no block is ignored
    and some freed line predicts a (predictor, class) pair, the freed line
    is stored under a new block path that has no contour, and the third
    loop raises [KeyError]. *)
Theorem shared_lines_dictionary_raises {G : Geometry}
    (C : pdict geom) (dl : ref) (fl : list (path * Line)) (h : store)
    (P : path) (line : Line) :
  (forall k, In k (keys C) -> exists c z, nth_error k 2 = Some c /\ py_int c = Ok z) ->
  In (P, line) fl -> List.length P = 2%nat ->
  fst (reliable_contours C dl fl dl None h) = Raise KeyError.
Proof.
  intros HC Hin HP.
  destruct (compute_max_ids_total C HC) as [mx Hmx].
  destruct (free_loop dl fl (mx, [], h)) as [[mx' rel1] h'] eqn:Hfree.
  rewrite (reliable_contours_after_max C dl dl fl None h h' mx mx' rel1 Hmx Hfree).
  cbn [fst].
  apply in_split in Hin. destruct Hin as (pre & post & Hfl).
  pose proof (free_loop_emits dl pre post P line mx [] h) as Hemit.
  unfold pdict in *. rewrite <- Hfl, Hfree in Hemit. destruct Hemit as [_ Hemit].
  rewrite (block_loop_raises C None); [reflexivity|].
  exists (fresh_path P (dict_get_default path_eqb 0 mx P) pre).
  split; [|split; [reflexivity|]].
  - apply group_keys. right.
    exists (fresh_path P (dict_get_default path_eqb 0 mx P) pre ++ [CInt 0]).
    split; [eapply pget_In, Hemit|].
    unfold fresh_path. destruct P as [|a [|b [|? ?]]]; try discriminate. reflexivity.
  - destruct (pmem C (fresh_path P (dict_get_default path_eqb 0 mx P) pre)) eqn:Hm;
      [exfalso|reflexivity].
    apply pmem_true in Hm. apply compute_max_ids_spec in Hmx. destruct Hmx as [Hmax Hkeys].
    apply (fresh_path_not_block C P _ pre (Hmax P) Hm).
    + destruct (Hkeys _ Hm) as (c & z & Hc & _). eauto.
    + unfold fresh_path. rewrite length_app. simpl. lia.
Qed.

(** One dictionary for both parameters, with the contours 0 and 2 and three
    freed lines. *)
Lemma shared_lines_dictionary_raises_witness :
  fst (reliable_contours Ex.contours_0_2 0%nat Ex.three_freed 0%nat None Ex.store_kept_a)
  = Raise KeyError.
Proof.
  exact (shared_lines_dictionary_raises Ex.contours_0_2 0%nat Ex.three_freed
           Ex.store_kept_a Ex.regions_TEXT Ex.freed_b contours_0_2_wellformed
           (or_introl eq_refl) eq_refl).
Defined.

(** ** Reclassification: nothing else is kept, the order of the freed lines *)

Section ReclassifyMore.
Context {G : Geometry}.
Variables (threshold : Q) (c_tables : list path).
#[local] Arguments firstn : simpl never.

(** The inner loop: where a kept entry comes from, and the freed lines. *)
Lemma reclassify_lines_inv (pn cn bid : comp) (lines : list Line) (s : nat)
    (det : pdict Line) (free : list (path * Line)) :
  let st' := fold_left (reclassify_line threshold c_tables pn cn bid)
               (combine (seq s (List.length lines)) lines) (det, free) in
  (forall k line, pget (fst st') k = Some line ->
      pget det k = Some line
      \/ exists i, k = [pn; cn; bid; CInt (Z.of_nat (s + i))]
                   /\ nth_error lines i = Some line
                   /\ Qgt_bool (line_error c_tables pn cn bid line) threshold = false)
  /\ snd st'
     = free ++ map (fun l => (predicted_path l, l))
                 (filter (fun l => Qgt_bool (line_error c_tables pn cn bid l) threshold)
                    lines).
Proof.
  revert s det free. induction lines as [|l ls IH]; intros s det free; simpl.
  - rewrite app_nil_r. auto.
  - destruct (Qgt_bool (line_error c_tables pn cn bid l) threshold) eqn:Hl.
    + destruct (IH (S s) det (free ++ [(predicted_path l, l)])) as [IHk IHf].
      split.
      * intros k line Hk. destruct (IHk k line Hk) as [Hold|(i & -> & Hi & Hq)]; [auto|].
        right. exists (S i). replace (s + S i)%nat with (S s + i)%nat by lia. auto.
      * rewrite IHf, <- app_assoc. reflexivity.
    + destruct (IH (S s) (pset det [pn; cn; bid; CInt (Z.of_nat s)] l) free)
        as [IHk IHf].
      split; [|assumption].
      intros k line Hk. destruct (IHk k line Hk) as [Hold|(i & -> & Hi & Hq)].
      * destruct (path_eq_dec [pn; cn; bid; CInt (Z.of_nat s)] k) as [<-|Hne].
        -- rewrite pget_pset_same in Hold. injection Hold as <-.
           right. exists 0%nat. rewrite Nat.add_0_r. auto.
        -- rewrite pget_pset_other in Hold by assumption. auto.
      * right. exists (S i). replace (s + S i)%nat with (S s + i)%nat by lia. auto.
Qed.

Lemma reclassify_block_inv (st st' : pdict Line * list (path * Line))
    (parts : path) (lines : list Line) :
  reclassify_block threshold c_tables st (parts, lines) = Ok st' ->
  exists pn cn bid,
    firstn 3 parts = [pn; cn; bid]
    /\ st' = fold_left (reclassify_line threshold c_tables pn cn bid) (enumerate lines) st.
Proof.
  unfold reclassify_block, index. intros H.
  destruct parts as [|pn [|cn [|bid rest]]]; try discriminate H.
  simpl in H. injection H as <-. exists pn, cn, bid. auto.
Qed.

Lemma reclassify_blocks_inv (bs : list (path * list Line))
    (det det' : pdict Line) (free free' : list (path * Line)) :
  foldM (reclassify_block threshold c_tables) bs (det, free) = Ok (det', free') ->
  (forall k line, pget det' k = Some line ->
      pget det k = Some line
      \/ exists parts lines pn cn bid i,
           In (parts, lines) bs /\ firstn 3 parts = [pn; cn; bid]
           /\ k = [pn; cn; bid; CInt (Z.of_nat i)]
           /\ nth_error lines i = Some line
           /\ Qgt_bool (line_error c_tables pn cn bid line) threshold = false)
  /\ free' = free ++ flat_map (freed_of_block threshold c_tables) bs.
Proof.
  revert det free. induction bs as [|[parts lines] bs IH]; intros det free H.
  - simpl in H. injection H as <- <-. rewrite app_nil_r. auto.
  - cbn [foldM] in H. apply bind_Ok in H. destruct H as ([det1 free1] & Hstep & H).
    apply reclassify_block_inv in Hstep. destruct Hstep as (pn & cn & bid & Hp & Hst).
    pose proof (reclassify_lines_inv pn cn bid lines 0 det free) as Hinner.
    fold (enumerate lines) in Hinner. cbv zeta in Hinner. rewrite <- Hst in Hinner.
    cbn [fst snd] in Hinner. destruct Hinner as [Hk1 Hf1].
    destruct (IH det1 free1 H) as [IHk IHf]. split.
    + intros k line Hk.
      destruct (IHk k line Hk)
        as [Hold|(parts' & lines' & pn' & cn' & bid' & i & Hin & Hrest)].
      * destruct (Hk1 k line Hold) as [Hold'|(i & -> & Hi & Hq)]; [auto|].
        right. exists parts, lines, pn, cn, bid, i. simpl. auto 10.
      * right. exists parts', lines', pn', cn', bid', i. simpl. auto.
    + rewrite IHf, Hf1, <- app_assoc. f_equal. cbn [flat_map]. f_equal.
      unfold freed_of_block. cbn [fst snd]. rewrite Hp. reflexivity.
Qed.

Lemma Qgt_bool_false (a b : Q) : Qgt_bool a b = false <-> Qle_bool a b = true.
Proof. unfold Qgt_bool. apply negb_false_iff. Qed.
End ReclassifyMore.

(** X5. Nothing but kept lines is in [detected_lines]: every entry of the
    dictionary built by the reclassification is stored under a path of four
    components, the path of a detected block extended by the detector index
    of the line in that block, and the error of the line (after the table
    rule) is at most the threshold. *)
Theorem detected_entries_are_kept_lines {G : Geometry}
    (threshold : Q) (table_columns : list (string * list Z))
    (detected_lines_by_block : list (path * list Line))
    (detected : pdict Line) (free : list (path * Line)) :
  reclassify threshold table_columns detected_lines_by_block = Ok (detected, free) ->
  forall k line, pget detected k = Some line ->
    exists parts lines pn cn bid i,
      In (parts, lines) detected_lines_by_block
      /\ firstn 3 parts = [pn; cn; bid]
      /\ k = [pn; cn; bid; CInt (Z.of_nat i)]
      /\ nth_error lines i = Some line
      /\ Qle_bool (line_error (c_tables_of table_columns) pn cn bid line) threshold = true.
Proof.
  unfold reclassify. intros Hrun k line Hk.
  destruct (reclassify_blocks_inv threshold (c_tables_of table_columns) _ _ _ _ _ Hrun)
    as [Hkept _].
  destruct (Hkept k line Hk)
    as [Hnil|(parts & lines & pn & cn & bid & i & Hin & Hp & Hkey & Hi & Hq)];
    [discriminate|].
  exists parts, lines, pn, cn, bid, i. rewrite <- Qgt_bool_false. auto 10.
Qed.

(** The block with the errors 0.8 and 0.1: the only entry is the second
    line. *)
Lemma detected_entries_are_kept_lines_witness :
  exists parts lines pn cn bid i,
    In (parts, lines) Ex.far_then_near
    /\ firstn 3 parts = [pn; cn; bid]
    /\ Ex.block_0 ++ [CInt 1] = [pn; cn; bid; CInt (Z.of_nat i)]
    /\ nth_error lines i = Some Ex.line_near
    /\ Qle_bool (line_error (c_tables_of []) pn cn bid Ex.line_near) (1 # 2) = true.
Proof.
  exact (detected_entries_are_kept_lines (1 # 2) [] Ex.far_then_near
           [ (Ex.block_0 ++ [CInt 1], Ex.line_near) ]
           [ (Ex.regions_TABULAR, Ex.line_far) ] eq_refl
           (Ex.block_0 ++ [CInt 1]) Ex.line_near eq_refl).
Defined.

(** X6. The freed lines are collected in detection order: the list
    [free_lines] is, block after block in the order of the detector and
    line after line within a block, the lines whose error is above the
    threshold, each paired with its own predicted path. *)
Theorem freed_lines_in_detection_order {G : Geometry}
    (threshold : Q) (table_columns : list (string * list Z))
    (detected_lines_by_block : list (path * list Line))
    (detected : pdict Line) (free : list (path * Line)) :
  reclassify threshold table_columns detected_lines_by_block = Ok (detected, free) ->
  free = flat_map (freed_of_block threshold (c_tables_of table_columns))
           detected_lines_by_block.
Proof.
  unfold reclassify. intros Hrun.
  destruct (reclassify_blocks_inv threshold (c_tables_of table_columns) _ _ _ _ _ Hrun)
    as [_ Hfree].
  exact Hfree.
Qed.

Lemma freed_lines_in_detection_order_witness :
  [ (Ex.regions_TABULAR, Ex.line_far) ]
  = flat_map (freed_of_block (1 # 2) (c_tables_of [])) Ex.far_then_near.
Proof.
  exact (freed_lines_in_detection_order (1 # 2) [] Ex.far_then_near
           [ (Ex.block_0 ++ [CInt 1], Ex.line_near) ]
           [ (Ex.regions_TABULAR, Ex.line_far) ] eq_refl).
Defined.

Section ThresholdFacts.
Context {G : Geometry}.
#[local] Arguments firstn : simpl never.

Lemma reclassify_blocks_lengths (threshold : Q) (c_tables : list path)
    (bs : list (path * list Line)) (st st' : pdict Line * list (path * Line)) :
  foldM (reclassify_block threshold c_tables) bs st = Ok st' ->
  forall it, In it bs -> (3 <= List.length (fst it))%nat.
Proof.
  revert st. induction bs as [|[parts lines] bs IH]; intros st H it Hin; [destruct Hin|].
  cbn [foldM] in H. apply bind_Ok in H. destruct H as (st1 & Hstep & H).
  destruct Hin as [<-|Hin]; [|eapply IH; eauto].
  apply reclassify_block_inv in Hstep. destruct Hstep as (pn & cn & bid & Hp & _).
  cbn [fst]. apply (f_equal (@List.length comp)) in Hp. rewrite length_firstn in Hp.
  cbn [List.length] in Hp. lia.
Qed.

Lemma freed_of_block_incl (t t' : Q) (c_tables : list path)
    (item : path * list Line) (x : path * Line) :
  (t <= t')%Q -> In x (freed_of_block t' c_tables item) ->
  In x (freed_of_block t c_tables item).
Proof.
  intros Hle. unfold freed_of_block.
  destruct (firstn 3 (fst item)) as [|pn [|cn [|bid [|? ?]]]]; auto.
  rewrite !in_map_iff. intros (l & Hx & Hl). exists l. split; [assumption|].
  apply filter_In in Hl. destruct Hl as [Hl Hq]. apply filter_In. split; [assumption|].
  unfold Qgt_bool in *. apply negb_true_iff in Hq. apply negb_true_iff.
  destruct (Qle_bool (line_error c_tables pn cn bid l) t) eqn:Ht; [|reflexivity].
  apply Qle_bool_iff in Ht.
  assert (Ht' : Qle_bool (line_error c_tables pn cn bid l) t' = true)
    by (apply Qle_bool_iff; eapply Qle_trans; eassumption).
  congruence.
Qed.
End ThresholdFacts.

(** X7. Raising the threshold never frees a line that was kept: when the
    blocks are distinct, every entry of [detected_lines] at a threshold is
    an entry at every larger threshold, and every line freed at the larger
    threshold is freed at the smaller one. *)
Theorem higher_threshold_keeps_more {G : Geometry}
    (t t' : Q) (table_columns : list (string * list Z))
    (detected_lines_by_block : list (path * list Line))
    (detected detected' : pdict Line) (free free' : list (path * Line)) :
  NoDup (map (fun it => firstn 3 (fst it)) detected_lines_by_block) ->
  (t <= t')%Q ->
  reclassify t table_columns detected_lines_by_block = Ok (detected, free) ->
  reclassify t' table_columns detected_lines_by_block = Ok (detected', free') ->
  (forall k line, pget detected k = Some line -> pget detected' k = Some line)
  /\ (forall x, In x free' -> In x free).
Proof.
  unfold reclassify. intros Hnd Hle Hrun Hrun'. split.
  - intros k line Hk.
    destruct (reclassify_blocks_inv t (c_tables_of table_columns) _ _ _ _ _ Hrun)
      as [Hkept _].
    destruct (Hkept k line Hk)
      as [Hnil|(parts & lines & pn & cn & bid & i & Hin & Hp & -> & Hi & Hq)];
      [discriminate|].
    destruct (reclassify_blocks_spec t' (c_tables_of table_columns)
                detected_lines_by_block [] [] Hnd
                (reclassify_blocks_lengths _ _ _ _ _ Hrun'))
      as (d & f & Hrun'' & _ & _ & Hspec).
    pose proof (eq_trans (eq_sym Hrun') Hrun'') as Heq. injection Heq as <- <-.
    specialize (Hspec parts lines pn cn bid i line Hin Hp Hi).
    assert (Hq' : Qgt_bool (line_error (c_tables_of table_columns) pn cn bid line) t'
                  = false).
    { apply Qgt_bool_false, Qle_bool_iff. apply Qgt_bool_false, Qle_bool_iff in Hq.
      eapply Qle_trans; eassumption. }
    rewrite Hq' in Hspec. exact Hspec.
  - intros x Hx.
    destruct (reclassify_blocks_inv t (c_tables_of table_columns) _ _ _ _ _ Hrun)
      as [_ ->].
    destruct (reclassify_blocks_inv t' (c_tables_of table_columns) _ _ _ _ _ Hrun')
      as [_ ->].
    simpl in *. apply in_flat_map in Hx. destruct Hx as (item & Hitem & Hx).
    apply in_flat_map. exists item. split; [assumption|].
    eapply freed_of_block_incl; eassumption.
Qed.

(** The block with the errors 0.8 and 0.1, at the thresholds 0.5 and 0.9:
    the line kept at 0.5 is kept at 0.9. *)
Lemma higher_threshold_keeps_more_witness :
  pget [ (Ex.block_0 ++ [CInt 0], Ex.line_far); (Ex.block_0 ++ [CInt 1], Ex.line_near) ]
       (Ex.block_0 ++ [CInt 1])
  = Some Ex.line_near.
Proof.
  refine (proj1 (higher_threshold_keeps_more (1 # 2) (9 # 10) [] Ex.far_then_near
                   [ (Ex.block_0 ++ [CInt 1], Ex.line_near) ]
                   [ (Ex.block_0 ++ [CInt 0], Ex.line_far);
                     (Ex.block_0 ++ [CInt 1], Ex.line_near) ]
                   [ (Ex.regions_TABULAR, Ex.line_far) ] []
                   (proj1 far_then_near_wellformed) _ eq_refl eq_refl)
            (Ex.block_0 ++ [CInt 1]) Ex.line_near eq_refl).
  discriminate.
Defined.

(** ** The confidence sampler: the values of the evidence *)

Lemma count_label_nonneg (labels : list nat) (v : nat) : 0 <= count_label labels v.
Proof. unfold count_label. lia. Qed.

Lemma np_sum_member (counts : list Z) (c : Z) :
  Forall (fun x => 0 <= x) counts -> In c counts -> 0 <= c <= np_sum counts.
Proof.
  induction counts as [|x xs IH]; intros Hall Hin; [destruct Hin|].
  inversion Hall as [|? ? Hx Hxs]; subst. simpl.
  assert (0 <= np_sum xs).
  { clear -Hxs. induction xs as [|y ys IHy]; simpl; [lia|].
    inversion Hxs; subst. specialize (IHy H2). lia. }
  destruct Hin as [<-|Hin]; [lia|]. specialize (IH Hxs Hin). lia.
Qed.

Lemma bincount_nonneg (labels : list nat) (m : nat) :
  Forall (fun x => 0 <= x) (bincount labels m).
Proof.
  unfold bincount. apply Forall_forall. intros x Hx.
  apply in_map_iff in Hx. destruct Hx as (v & <- & _). apply count_label_nonneg.
Qed.

Lemma np_index_In (a : list Z) (i c : Z) : np_index a i = Ok c -> In c a.
Proof.
  unfold np_index, index. intros H.
  destruct ((0 <=? i) && (i <? Z.of_nat (List.length a))).
  - destruct (nth_error a (Z.to_nat i)) eqn:E; [|discriminate].
    injection H as <-. eapply nth_error_In, E.
  - destruct ((- Z.of_nat (List.length a) <=? i) && (i <? 0)); [|discriminate].
    destruct (nth_error a (Z.to_nat (Z.of_nat (List.length a) + i))) eqn:E;
      [|discriminate].
    injection H as <-. eapply nth_error_In, E.
Qed.

Lemma fraction_bounds (c t : Z) :
  0 <= c <= t -> 0 < t -> (0 <= inject_Z c / inject_Z t <= 1)%Q.
Proof.
  intros Hc Ht.
  assert (Hpos : (0 < inject_Z t)%Q)
    by (change 0%Q with (inject_Z 0); rewrite <- Zlt_Qlt; assumption).
  split.
  - apply Qle_shift_div_l; [assumption|]. rewrite Qmult_0_l.
    change 0%Q with (inject_Z 0). rewrite <- Zle_Qle. lia.
  - apply Qle_shift_div_r; [assumption|]. rewrite Qmult_1_l.
    rewrite <- Zle_Qle. lia.
Qed.

(** X8. Every evidence value that the confidence sampler returns is a
    fraction between 0 and 1. *)
Theorem evidence_values_are_fractions {G : Geometry}
    (s : ConfidenceSampler) (p : path) (line : Line) (res : Q)
    (evidence : list (string * Q)) :
  ConfidenceSampler_call s p line res = Ok evidence ->
  forall key q, In (key, q) evidence -> (0 <= q <= 1)%Q.
Proof.
  unfold ConfidenceSampler_call. intros Hrun key q Hin.
  destruct (firstn 2 p) as [|a [|b [|? ?]]]; try discriminate.
  destruct a as [name|z]; [|discriminate].
  unfold dict_item in Hrun.
  destruct (dict_get String.eqb (predictions s) name) as [pr|]; [|discriminate].
  cbn [bind] in Hrun.
  destruct (scale_grid _ _ _) as [g|e]; [|discriminate]. cbn [bind] in Hrun.
  destruct (cv2_remap _ g) as [labels|e]; [|discriminate]. cbn [bind] in Hrun.
  set (counts := bincount (List.concat labels)
                   (List.length (predictor_classes pr))) in *.
  destruct (Z.ltb_spec 0 (np_sum counts)) as [Hpos|Hle].
  - destruct (evidence_fold name counts (np_sum counts) (predictor_classes pr) [])
      as [_ Hev]; [lia|].
    destruct (Hev evidence Hrun key q Hin) as [[]|(cname & v & c & _ & _ & Hc & ->)].
    apply fraction_bounds; [|assumption].
    apply np_sum_member; [apply bincount_nonneg|]. eapply np_index_In, Hc.
  - injection Hrun as <-. destruct Hin.
Qed.

(** The first line of the scenario: three of four samples are TEXT. *)
Lemma evidence_values_are_fractions_witness :
  ConfidenceSampler_call Ex.scenario_sampler Ex.block_0 Ex.scenario_first (1 # 2)
  = Ok [("regions/BACKGROUND", 1 # 4); ("regions/TEXT", 3 # 4);
        ("regions/TABULAR", 0 # 4)]
  /\ (0 <= 3 # 4 <= 1)%Q.
Proof.
  split; [reflexivity|].
  exact (evidence_values_are_fractions Ex.scenario_sampler Ex.block_0 Ex.scenario_first
           (1 # 2) _ eq_refl "regions/TEXT" (3 # 4) (or_intror (or_introl eq_refl))).
Defined.

Lemma string_app_inj (a x y : string) : (a ++ x)%string = (a ++ y)%string -> x = y.
Proof.
  induction a as [|c a IH]; simpl; [auto|]. intros H. injection H as H. auto.
Qed.

Lemma sget_sset_same {V : Type} (d : list (string * V)) (k : string) (v : V) :
  dict_get String.eqb (dict_set String.eqb d k v) k = Some v.
Proof.
  induction d as [|[k0 v0] d IH]; simpl.
  - rewrite String.eqb_refl. reflexivity.
  - destruct (String.eqb k0 k) eqn:E; simpl; rewrite E; auto.
Qed.

Lemma sget_sset_other {V : Type} (d : list (string * V)) (k k' : string) (v : V) :
  k <> k' ->
  dict_get String.eqb (dict_set String.eqb d k v) k' = dict_get String.eqb d k'.
Proof.
  intros Hne. induction d as [|[k0 v0] d IH]; simpl.
  - destruct (String.eqb_spec k k'); [contradiction|reflexivity].
  - destruct (String.eqb_spec k0 k) as [->|Hk]; simpl.
    + destruct (String.eqb_spec k k'); [contradiction|reflexivity].
    + destruct (String.eqb k0 k'); auto.
Qed.

Lemma nth_error_map_seq {A : Type} (f : nat -> A) (s n i : nat) :
  (i < n)%nat -> nth_error (map f (seq s n)) i = Some (f (s + i)%nat).
Proof.
  revert s i. induction n as [|n IH]; intros s i Hi; [lia|].
  destruct i as [|i]; simpl.
  - rewrite Nat.add_0_r. reflexivity.
  - rewrite IH by lia. f_equal. f_equal. lia.
Qed.

Lemma bincount_length (labels : list nat) (m : nat) :
  (m <= List.length (bincount labels m))%nat.
Proof.
  unfold bincount. rewrite length_map, length_seq. destruct labels; lia.
Qed.

(** A class value below the number of classes is a valid index of the
    counts, thanks to [minlength]. *)
Lemma np_index_bincount (labels : list nat) (m : nat) (v : Z) :
  0 <= v < Z.of_nat m ->
  np_index (bincount labels m) v = Ok (count_label labels (Z.to_nat v)).
Proof.
  intros Hv. pose proof (bincount_length labels m) as Hlen. unfold np_index.
  destruct (Z.leb_spec 0 v); [|lia].
  destruct (Z.ltb_spec v (Z.of_nat (List.length (bincount labels m)))); [|lia].
  cbn [andb]. unfold index, bincount in *. rewrite length_map, length_seq in *.
  rewrite nth_error_map_seq by lia. reflexivity.
Qed.

Lemma evidence_fold_exact (name : string) (counts : list Z) (total : Z)
    (classes : list (string * Z)) (ev : list (string * Q)) :
  total <> 0 ->
  (forall cn v, In (cn, v) classes -> exists c, np_index counts v = Ok c) ->
  NoDup (map fst classes) ->
  exists ev',
    foldM (evidence_step name counts total) classes ev = Ok ev'
    /\ (forall cn v c, In (cn, v) classes -> np_index counts v = Ok c ->
          dict_get String.eqb ev' (name ++ "/" ++ cn)%string
          = Some (inject_Z c / inject_Z total)%Q)
    /\ (forall key, (forall cn, In cn (map fst classes) ->
                                key <> (name ++ "/" ++ cn)%string) ->
                    dict_get String.eqb ev' key = dict_get String.eqb ev key).
Proof.
  intros Ht. revert ev. induction classes as [|[cn0 v0] classes IH]; intros ev Hidx Hnd.
  - exists ev. simpl. split; [reflexivity|]. split; [intros ? ? ? []|auto].
  - simpl in Hnd. inversion Hnd as [|? ? Hnotin Hnd']; subst.
    destruct (Hidx cn0 v0 (or_introl eq_refl)) as [c0 Hc0].
    cbn [foldM]. unfold evidence_step at 1. cbn [fst snd]. rewrite Hc0. cbn [bind].
    unfold np_true_divide. destruct (Z.eqb_spec total 0); [contradiction|]. cbn [bind].
    destruct (IH (dict_set String.eqb ev (name ++ "/" ++ cn0)%string
                    (inject_Z c0 / inject_Z total)%Q)) as (ev' & Hrun & Hval & Hframe).
    { intros cn v Hin. apply (Hidx cn v). right. assumption. }
    { assumption. }
    exists ev'. split; [assumption|]. split.
    + intros cn v c [Heq|Hin] Hc.
      * injection Heq as -> ->. rewrite Hframe.
        -- rewrite sget_sset_same. congruence.
        -- intros cn' Hcn' Heq. apply string_app_inj, string_app_inj in Heq.
           subst cn'. contradiction.
      * eapply Hval; eassumption.
    + intros key Hkey. rewrite Hframe.
      * apply sget_sset_other. intros Heq. apply (Hkey cn0); [left; reflexivity|auto].
      * intros cn Hcn. apply Hkey. right. assumption.
Qed.

(** X9. When the classes of the predictor are numbered from 0 below the
    number of classes and have distinct names, and the resampling of the
    scaled grid gives the labels of its points, the sampler returns, for
    every class, the number of samples with the label of the class divided
    by the number of samples; the [minlength] of [np.bincount] keeps every
    [counts[k.value]] in range. *)
Theorem evidence_is_label_frequency {G : Geometry}
    (s : ConfidenceSampler) (p : path) (line : Line) (res : Q)
    (name : string) (cls : comp) (predictor : Predictor)
    (g : grid) (remapped : list (list nat)) :
  firstn 2 p = [CStr name; cls] ->
  dict_get String.eqb (predictions s) name = Some predictor ->
  (forall cn v, In (cn, v) (predictor_classes predictor) ->
                0 <= v < Z.of_nat (List.length (predictor_classes predictor))) ->
  NoDup (map fst (predictor_classes predictor)) ->
  scale_grid (_page_shape s) (labels_shape predictor) (warped_grid s line res) = Ok g ->
  cv2_remap (labels_at predictor) g = Ok remapped ->
  exists evidence,
    ConfidenceSampler_call s p line res = Ok evidence
    /\ forall cn v, In (cn, v) (predictor_classes predictor) ->
         dict_get String.eqb evidence (name ++ "/" ++ cn)%string
         = Some (inject_Z (count_label (List.concat remapped) (Z.to_nat v))
                 / inject_Z (Z.of_nat (List.length (List.concat remapped))))%Q.
Proof.
  intros Hp Hpred Hrange Hnd Hscale Hremap.
  unfold ConfidenceSampler_call. rewrite Hp. unfold dict_item. rewrite Hpred. cbn [bind].
  rewrite Hscale. cbn [bind]. rewrite Hremap. cbn [bind].
  set (labels := List.concat remapped) in *.
  assert (Hlabels : labels <> []).
  { destruct (cv2_remap_result (labels_at predictor) g)
      as [[_ Hraise]|(Hpoints & ls & Hls & Hlen)]; [congruence|].
    assert (ls = remapped) by congruence. subst ls. fold labels in Hlen.
    intros Hnil. rewrite Hnil in Hlen. simpl in Hlen.
    destruct (List.concat g); [auto|discriminate]. }
  set (counts := bincount labels (List.length (predictor_classes predictor))).
  assert (Htotal : np_sum counts = Z.of_nat (List.length labels))
    by apply np_sum_bincount.
  assert (Hpos : 0 < np_sum counts).
  { rewrite Htotal. destruct labels; [contradiction|]. simpl List.length. lia. }
  destruct (Z.ltb_spec 0 (np_sum counts)); [|lia].
  destruct (evidence_fold_exact name counts (np_sum counts)
              (predictor_classes predictor) []) as (ev & Hrun & Hval & _).
  - lia.
  - intros cn v Hin. eexists. apply np_index_bincount. eapply Hrange, Hin.
  - assumption.
  - exists ev. split; [assumption|]. intros cn v Hin.
    rewrite <- Htotal. eapply Hval; [eassumption|].
    apply np_index_bincount. eapply Hrange, Hin.
Qed.

Lemma regions_predictor_wellformed :
  (forall cn v, In (cn, v) (predictor_classes Ex.regions_predictor) ->
                0 <= v < Z.of_nat (List.length (predictor_classes Ex.regions_predictor)))
  /\ NoDup (map fst (predictor_classes Ex.regions_predictor)).
Proof.
  split.
  - intros cn v [H|[H|[H|[]]]]; injection H as <- <-; simpl; lia.
  - repeat constructor; simpl; intuition discriminate.
Qed.

(** The first line of the scenario: the evidence for TEXT is 3 / 4. *)
Lemma evidence_is_label_frequency_witness :
  exists evidence,
    ConfidenceSampler_call Ex.scenario_sampler Ex.block_0 Ex.scenario_first (1 # 2)
    = Ok evidence
    /\ dict_get String.eqb evidence "regions/TEXT" = Some (inject_Z 3 / inject_Z 4)%Q.
Proof.
  destruct (evidence_is_label_frequency Ex.scenario_sampler Ex.block_0 Ex.scenario_first
              (1 # 2) "regions" (CStr "TEXT") Ex.regions_predictor _ _ eq_refl eq_refl
              (proj1 regions_predictor_wellformed) (proj2 regions_predictor_wellformed)
              eq_refl eq_refl)
    as (evidence & Hrun & Hval).
  exists evidence. split; [exact Hrun|].
  exact (Hval "TEXT" 1 (or_intror (or_introl eq_refl))).
Defined.

(** ** Table keys: [split] and [join] *)

Lemma split_nonempty (sep : ascii) (s : string) : split sep s <> [].
Proof.
  destruct s as [|c r]; simpl; [discriminate|].
  destruct (Ascii.eqb c sep); [discriminate|]. destruct (split sep r); discriminate.
Qed.

Lemma join_cons (sep f : string) (fs : list string) :
  fs <> [] -> join sep (f :: fs) = (f ++ sep ++ join sep fs)%string.
Proof. destruct fs; [contradiction|reflexivity]. Qed.

(** Splitting loses nothing: joining the fields gives the string back. *)
Lemma join_split (sep : ascii) (s : string) :
  join (String sep EmptyString) (split sep s) = s.
Proof.
  induction s as [|c r IH]; [reflexivity|]. simpl split.
  destruct (Ascii.eqb_spec c sep) as [->|Hne].
  - rewrite join_cons by apply split_nonempty. rewrite IH. reflexivity.
  - pose proof (split_nonempty sep r) as Hr.
    destruct (split sep r) as [|h t]; [contradiction|].
    destruct t as [|h' t'].
    + simpl in *. congruence.
    + rewrite (join_cons _ (String c h)) by discriminate.
      rewrite (join_cons _ h) in IH by discriminate.
      simpl in IH |- *. rewrite IH. reflexivity.
Qed.

Lemma split_fields_clean (sep : ascii) (s : string) :
  Forall (fun f => has_char sep f = false) (split sep s).
Proof.
  induction s as [|c r IH]; simpl.
  - repeat constructor.
  - destruct (Ascii.eqb c sep) eqn:E.
    + constructor; [reflexivity|assumption].
    + destruct (split sep r) as [|h t]; [repeat constructor; simpl; rewrite E; reflexivity|].
      inversion IH; subst. constructor; [|assumption]. simpl. rewrite E. assumption.
Qed.

Lemma split_clean (sep : ascii) (f : string) :
  has_char sep f = false -> split sep f = [f].
Proof.
  induction f as [|c r IH]; simpl; [reflexivity|].
  destruct (Ascii.eqb c sep); [discriminate|]. simpl. intros H. rewrite IH by assumption.
  reflexivity.
Qed.

Lemma split_app_sep (sep : ascii) (f rest : string) :
  has_char sep f = false ->
  split sep (f ++ String sep rest) = f :: split sep rest.
Proof.
  induction f as [|c r IH]; simpl.
  - rewrite Ascii.eqb_refl. reflexivity.
  - destruct (Ascii.eqb c sep); [discriminate|]. simpl. intros H.
    rewrite IH by assumption. reflexivity.
Qed.

(** Joining fields without separator and splitting again gives the fields
    back. *)
Lemma split_join (sep : ascii) (fs : list string) :
  fs <> [] -> Forall (fun f => has_char sep f = false) fs ->
  split sep (join (String sep EmptyString) fs) = fs.
Proof.
  induction fs as [|f fs IH]; [contradiction|]. intros _ Hall.
  inversion Hall as [|? ? Hf Hfs]; subst.
  destruct fs as [|g fs].
  - simpl. apply split_clean. assumption.
  - rewrite join_cons by discriminate.
    change (f ++ String sep "" ++ join (String sep "") (g :: fs))%string
      with (f ++ String sep (join (String sep "") (g :: fs)))%string.
    rewrite split_app_sep by assumption. rewrite IH; [reflexivity|discriminate|assumption].
Qed.

Lemma path_of_key_inj (k k' : string) : path_of_key k = path_of_key k' -> k = k'.
Proof.
  unfold path_of_key. intros H.
  assert (Hs : split "/" k = split "/" k').
  { revert H. generalize (split "/" k) (split "/" k'). intros l.
    induction l as [|a l IH]; intros [|b l'] H; simpl in H; try discriminate; auto.
    injection H as -> H. f_equal. auto. }
  rewrite <- (join_split "/" k), <- (join_split "/" k'), Hs. reflexivity.
Qed.


Section RewriterTables.
Context {G : Geometry}.
#[local] Arguments firstn : simpl never.

Local Notation "'init_step'" :=
  (fun (d : pdict (list Z)) (item : string * list Z) =>
     pset d (path_of_key (fst item)) (snd item)).

Lemma init_fold_keys (tc : list (string * list Z)) (d : pdict (list Z)) (p : path) :
  In p (keys (fold_left init_step tc d))
  <-> In p (keys d) \/ In p (map path_of_key (keys tc)).
Proof.
  revert d. induction tc as [|[k xs] tc IH]; intros d; simpl.
  - tauto.
  - rewrite IH, keys_pset. intuition congruence.
Qed.

Lemma init_fold_frame (tc : list (string * list Z)) (d : pdict (list Z)) (p : path) :
  ~ In p (map path_of_key (keys tc)) ->
  pget (fold_left init_step tc d) p = pget d p.
Proof.
  revert d. induction tc as [|[k xs] tc IH]; intros d Hnot; simpl; [reflexivity|].
  rewrite IH.
  - apply pget_pset_other. intros Heq. apply Hnot. left. assumption.
  - intros Hin. apply Hnot. right. assumption.
Qed.

Lemma init_fold_get (tc : list (string * list Z)) (d : pdict (list Z))
    (k : string) (xs : list Z) :
  NoDup (keys tc) -> In (k, xs) tc ->
  pget (fold_left init_step tc d) (path_of_key k) = Some xs.
Proof.
  revert d. induction tc as [|[k0 x0] tc IH]; intros d Hnd Hin; [destruct Hin|].
  simpl in Hnd. inversion Hnd as [|? ? Hnotin Hnd']; subst. simpl.
  destruct Hin as [Heq|Hin].
  - injection Heq as -> ->. rewrite init_fold_frame.
    + apply pget_pset_same.
    + intros Hin. apply in_map_iff in Hin. destruct Hin as (k' & Hk' & Hin).
      apply path_of_key_inj in Hk'. subst k'. contradiction.
  - apply IH; assumption.
Qed.

Lemma path_in_In (p : path) (l : list path) : path_in p l = true <-> In p l.
Proof.
  unfold path_in. rewrite existsb_exists. split.
  - intros (x & Hx & Heq). apply path_eqb_eq in Heq. subst. assumption.
  - intros H. exists p. split; [assumption|apply path_eqb_refl].
Qed.
End RewriterTables.

(** X10. The two readers of the table columns agree: the block paths for
    which [process] finds [has_columns] are the block paths for which the
    line rewriter finds column boundaries. *)
Theorem has_columns_agrees_with_rewriter
    (table_columns : list (string * list Z)) (p : path) :
  path_in p (c_tables_of table_columns) = pmem (LineRewriter_init table_columns) p.
Proof.
  unfold c_tables_of, LineRewriter_init.
  destruct (pmem _ p) eqn:Hm.
  - apply pmem_true, init_fold_keys in Hm. destruct Hm as [[]|Hm].
    apply path_in_In. assumption.
  - destruct (path_in p _) eqn:Hp; [|reflexivity].
    apply path_in_In in Hp.
    assert (Hk : pmem (fold_left (fun d item => pset d (path_of_key (fst item)) (snd item))
                         table_columns []) p = true).
    { apply pmem_true, init_fold_keys. right. assumption. }
    congruence.
Qed.

(** X11. [LineRewriter.__init__] loses no table: for column data with
    distinct keys, the boundaries of every key are found under the path
    that the key splits into, and every path with boundaries comes from a
    key. *)
Theorem table_entries_retrievable (tc : list (string * list Z)) :
  NoDup (keys tc) ->
  (forall k xs, In (k, xs) tc -> pget (LineRewriter_init tc) (path_of_key k) = Some xs)
  /\ (forall p xs, pget (LineRewriter_init tc) p = Some xs ->
        exists k, In (k, xs) tc /\ p = path_of_key k).
Proof.
  intros Hnd. split.
  - intros k xs Hin. apply init_fold_get; assumption.
  - intros p xs Hget. pose proof (pget_In _ _ _ Hget) as Hin.
    apply init_fold_keys in Hin. destruct Hin as [[]|Hin].
    apply in_map_iff in Hin. destruct Hin as (k & <- & Hk).
    unfold keys in Hk. apply in_map_iff in Hk. destruct Hk as ([k' xs'] & Hk' & Hin).
    simpl in Hk'. subst k'. exists k. split; [|reflexivity].
    pose proof (eq_trans (eq_sym Hget) (init_fold_get tc [] k xs' Hnd Hin)) as Heq.
    injection Heq as ->. assumption.
Qed.

Lemma table_entries_retrievable_witness :
  pget (LineRewriter_init Ex.table_with_columns)
       (path_of_key "regions/TABULAR/3.1.1.1")
  = Some [100; 300].
Proof.
  refine (proj1 (table_entries_retrievable Ex.table_with_columns _) _ _
            (or_introl eq_refl)).
  repeat constructor. intros [].
Defined.

(** ** Printing and reading integers: [str] and [int] *)

Lemma string_forall_app (P : ascii -> bool) (a b : string) :
  string_forall P (a ++ b) = string_forall P a && string_forall P b.
Proof.
  induction a as [|c a IH]; simpl; [reflexivity|]. rewrite IH, andb_assoc. reflexivity.
Qed.

Lemma string_forall_rev (P : ascii -> bool) (s : string) :
  string_forall P (string_rev s) = string_forall P s.
Proof.
  induction s as [|c s IH]; simpl; [reflexivity|].
  rewrite string_forall_app, IH. simpl. rewrite andb_true_r. apply andb_comm.
Qed.

Lemma string_rev_snoc (s : string) (c : ascii) :
  string_rev (s ++ String c EmptyString) = String c (string_rev s).
Proof.
  induction s as [|a s IH]; simpl; [reflexivity|]. rewrite IH. reflexivity.
Qed.

Lemma string_rev_involutive (s : string) : string_rev (string_rev s) = s.
Proof.
  induction s as [|c s IH]; simpl; [reflexivity|]. rewrite string_rev_snoc, IH. reflexivity.
Qed.

Lemma lstrip_clean (s : string) :
  string_forall (fun c => negb (is_space c)) s = true -> lstrip s = s.
Proof.
  destruct s as [|c r]; simpl; [reflexivity|].
  destruct (is_space c); [discriminate|reflexivity].
Qed.

(** Nothing is stripped from a string without white space. *)
Lemma strip_clean (s : string) :
  string_forall (fun c => negb (is_space c)) s = true -> strip s = s.
Proof.
  intros H. unfold strip. rewrite (lstrip_clean s H).
  rewrite lstrip_clean by (rewrite string_forall_rev; assumption).
  apply string_rev_involutive.
Qed.

Lemma uint_string_digits (d : Decimal.uint) :
  string_forall is_digit (NilEmpty.string_of_uint d) = true.
Proof.
  induction d; cbn [NilEmpty.string_of_uint string_forall]; rewrite ?IHd; reflexivity.
Qed.

Lemma digits_clean (s : string) :
  string_forall is_digit s = true ->
  string_forall (fun c => negb (is_space c)) s = true.
Proof.
  induction s as [|c r IH]; simpl; [reflexivity|].
  intros H. apply andb_true_iff in H. destruct H as [Hc Hr].
  rewrite (IH Hr), andb_true_r.
  unfold is_digit, digit_val, is_space in *.
  destruct ((48 <=? nat_of_ascii c)%nat && (nat_of_ascii c <=? 57)%nat) eqn:E;
    [|discriminate].
  apply andb_true_iff in E. destruct E as [E1 E2].
  apply Nat.leb_le in E1. apply Nat.leb_le in E2.
  destruct (Nat.leb_spec 9 (nat_of_ascii c)), (Nat.leb_spec (nat_of_ascii c) 13),
           (Nat.eqb_spec (nat_of_ascii c) 32); simpl; try reflexivity; lia.
Qed.

Lemma parse_uint_acc (d : Decimal.uint) (acc : positive) :
  parse_digits (NilEmpty.string_of_uint d) (Z.pos acc) true
  = Some (Z.pos (Pos.of_uint_acc d acc)).
Proof.
  revert acc.
  induction d; intros acc; cbn [NilEmpty.string_of_uint Pos.of_uint_acc];
    [reflexivity| ..];
    (unfold parse_digits; fold parse_digits;
     match goal with
     | |- context [digit_val ?c] =>
         let v := eval vm_compute in (digit_val c) in change (digit_val c) with v
     end;
     cbv beta iota;
     match goal with
     | |- parse_digits _ ?a true = Some (Z.pos (Pos.of_uint_acc _ ?b)) =>
         replace a with (Z.pos b) by lia
     end;
     apply IHd).
Qed.

Lemma parse_uint (d : Decimal.uint) :
  parse_digits (NilEmpty.string_of_uint d) 0 true = Some (Z.of_N (Pos.of_uint d)).
Proof.
  induction d; cbn [NilEmpty.string_of_uint Pos.of_uint];
    [reflexivity| ..];
    (unfold parse_digits; fold parse_digits;
     match goal with
     | |- context [digit_val ?c] =>
         let v := eval vm_compute in (digit_val c) in change (digit_val c) with v
     end;
     cbv beta iota;
     first [ exact IHd | apply parse_uint_acc ]).
Qed.

(** A digit string reads the same whether or not a digit came before. *)
Lemma parse_digits_first (s : string) (acc : Z) :
  s <> EmptyString -> string_forall is_digit s = true ->
  parse_digits s acc false = parse_digits s acc true.
Proof.
  destruct s as [|c r]; [contradiction|]. intros _ H. simpl in H.
  apply andb_true_iff in H. destruct H as [Hc _]. unfold is_digit in Hc.
  simpl. destruct (digit_val c); [reflexivity|discriminate].
Qed.

(** A string that starts with a digit is read without sign. *)
Lemma int_of_digit_string (s : string) :
  s <> EmptyString -> string_forall is_digit s = true ->
  int_of_string s = parse_digits s 0 true.
Proof.
  intros Hne Hd. unfold int_of_string.
  rewrite strip_clean by (apply digits_clean; assumption).
  rewrite <- parse_digits_first by assumption.
  destruct s as [|c r]; [contradiction|]. simpl in Hd.
  apply andb_true_iff in Hd. destruct Hd as [Hc _].
  destruct c as [[|] [|] [|] [|] [|] [|] [|] [|]]; try discriminate Hc; reflexivity.
Qed.

Lemma uint_string_nonempty (d : Decimal.uint) :
  d <> Decimal.Nil -> NilEmpty.string_of_uint d <> EmptyString.
Proof. destruct d; simpl; congruence. Qed.

Lemma nilzero_string (d : Decimal.uint) :
  d <> Decimal.Nil -> NilZero.string_of_uint d = NilEmpty.string_of_uint d.
Proof. destruct d; [contradiction|reflexivity..]. Qed.

(** [int(str(z)) = z]. *)
Lemma int_of_string_of_Z (z : Z) : int_of_string (string_of_Z z) = Some z.
Proof.
  unfold string_of_Z. destruct z as [|p|p]; cbn [Z.to_int NilZero.string_of_int].
  - reflexivity.
  - pose proof (DecimalPos.Unsigned.to_uint_nonnil p) as Hnil.
    rewrite nilzero_string by assumption.
    rewrite int_of_digit_string
      by (apply uint_string_nonempty || apply uint_string_digits; assumption).
    rewrite parse_uint, DecimalPos.Unsigned.of_to. reflexivity.
  - pose proof (DecimalPos.Unsigned.to_uint_nonnil p) as Hnil.
    rewrite nilzero_string by assumption.
    unfold int_of_string. rewrite strip_clean.
    + rewrite parse_digits_first
        by (apply uint_string_nonempty || apply uint_string_digits; assumption).
      rewrite parse_uint, DecimalPos.Unsigned.of_to. reflexivity.
    + cbn [string_forall]. rewrite digits_clean by apply uint_string_digits. reflexivity.
Qed.

Lemma string_of_Z_inj (a b : Z) : string_of_Z a = string_of_Z b -> a = b.
Proof.
  intros H. apply (f_equal int_of_string) in H.
  rewrite !int_of_string_of_Z in H. congruence.
Qed.

Lemma digits_without (c : ascii) (s : string) :
  is_digit c = false -> string_forall is_digit s = true -> has_char c s = false.
Proof.
  intros Hc. induction s as [|a r IH]; simpl; [reflexivity|].
  intros H. apply andb_true_iff in H. destruct H as [Ha Hr].
  rewrite (IH Hr), orb_false_r.
  destruct (Ascii.eqb_spec a c) as [->|]; [congruence|reflexivity].
Qed.

(** The decimal form of an integer contains no dot. *)
Lemma string_of_Z_no_dot (z : Z) : has_char "." (string_of_Z z) = false.
Proof.
  unfold string_of_Z. destruct z as [|p|p]; cbn [Z.to_int NilZero.string_of_int].
  - reflexivity.
  - rewrite nilzero_string by apply DecimalPos.Unsigned.to_uint_nonnil.
    apply digits_without; [reflexivity|apply uint_string_digits].
  - rewrite nilzero_string by apply DecimalPos.Unsigned.to_uint_nonnil.
    cbn [has_char]. rewrite digits_without; [reflexivity|reflexivity|].
    apply uint_string_digits.
Qed.

(** ** The line rewriter: lines outside tables, and the paths of the parts *)

Section RewriterPaths.
Context {G : Geometry}.
#[local] Arguments firstn : simpl never.

Lemma rewriter_identity_from (columns : pdict (list Z)) (lines : pdict Line)
    (parts : list line_part) :
  (forall p, In p (keys lines) -> pget columns (firstn 3 p) = None) ->
  foldM (rewrite_line columns) lines parts
  = Ok (parts ++ map (fun it => (fst it, snd it, None)) lines).
Proof.
  revert parts. induction lines as [|[p line] lines IH]; intros parts Hnone.
  - simpl. rewrite app_nil_r. reflexivity.
  - cbn [foldM]. unfold rewrite_line at 1.
    rewrite (Hnone p (or_introl eq_refl)). cbn [bind].
    rewrite IH by (intros q Hq; apply Hnone; right; assumption).
    simpl. rewrite <- app_assoc. reflexivity.
Qed.

(** The path that [_column_path] builds. *)
Lemma column_path_value (pr lb : comp) (s : string) (rest : path)
    (a b c d : string) (l : comp) (n column : Z) :
  split "." s = [a; b; c; d] ->
  last_comp (pr :: lb :: CStr s :: rest) = Ok l -> py_int l = Ok n ->
  1 <= column ->
  _column_path (pr :: lb :: CStr s :: rest) column
  = Ok [pr; lb; CStr (join "." [a; b; string_of_Z (1 + n); string_of_Z column]);
        CStr (string_of_Z 0)].
Proof.
  intros Hs Hl Hn Hcol. unfold _column_path.
  destruct (Z.ltb_spec column 1); [lia|].
  unfold firstn, index. cbn [nth_error bind]. rewrite Hs, Hl. cbn [bind].
  rewrite Hn. reflexivity.
Qed.

Lemma column_parts_value (p : path) (line : Line) (cp : nat -> path)
    (items : list (nat * (option Z * option Z))) (parts : list line_part) :
  (forall i, _column_path p (1 + Z.of_nat i) = Ok (cp i)) ->
  foldM (column_part p line) items parts
  = Ok (parts ++ map (fun it => (cp (fst it), line, Some (snd it))) items).
Proof.
  intros Hcp. revert parts. induction items as [|[i r] items IH]; intros parts.
  - simpl. rewrite app_nil_r. reflexivity.
  - cbn [foldM]. unfold column_part at 1. cbn [fst snd]. rewrite Hcp. cbn [bind].
    rewrite IH, <- app_assoc. reflexivity.
Qed.

Lemma NoDup_map_injective {A B : Type} (f : A -> B) (l : list A) :
  (forall x y, f x = f y -> x = y) -> NoDup l -> NoDup (map f l).
Proof.
  intros Hinj. induction 1 as [|x l Hx Hnd IH]; simpl; constructor; [|assumption].
  intros Hin. apply in_map_iff in Hin. destruct Hin as (y & Hy & Hin).
  apply Hinj in Hy. subst. contradiction.
Qed.

Lemma join_last_inj (a b c x y : string) :
  join "." [a; b; c; x] = join "." [a; b; c; y] -> x = y.
Proof.
  simpl. intros Heq.
  apply string_app_inj in Heq. injection Heq as Heq.
  apply string_app_inj in Heq. injection Heq as Heq.
  apply string_app_inj in Heq. injection Heq as Heq. exact Heq.
Qed.

Lemma column_name_inj (pr lb tl : comp) (a b c : string) (x y : Z) :
  [pr; lb; CStr (join "." [a; b; c; string_of_Z x]); tl]
  = [pr; lb; CStr (join "." [a; b; c; string_of_Z y]); tl] -> x = y.
Proof.
  intros Heq. injection Heq as Heq.
  apply join_last_inj, string_of_Z_inj in Heq. exact Heq.
Qed.

Lemma enumerate_fst {A : Type} (l : list A) (s : nat) :
  map fst (combine (seq s (List.length l)) l) = seq s (List.length l).
Proof.
  revert s. induction l as [|a l IH]; intros s; simpl; [reflexivity|].
  rewrite IH. reflexivity.
Qed.
End RewriterPaths.

(** X12. Lines outside tables pass through the rewriter: when no line has a
    block prefix with column boundaries (in particular without any table),
    the rewriter does not raise and returns every line once, in order, with
    its path unchanged and the column range [None]. *)
Theorem rewriter_identity_without_tables {G : Geometry}
    (columns : pdict (list Z)) (lines : pdict Line) :
  (forall p, In p (keys lines) -> pget columns (firstn 3 p) = None) ->
  LineRewriter_call columns lines = Ok (map (fun it => (fst it, snd it, None)) lines).
Proof.
  intros Hnone. unfold LineRewriter_call.
  rewrite rewriter_identity_from by assumption. reflexivity.
Qed.

Lemma rewriter_identity_without_tables_witness :
  LineRewriter_call (LineRewriter_init []) Ex.lines_to_rewrite
  = Ok [ (Ex.cell ++ [CInt 0], Ex.row_line, None);
         (Ex.block_0 ++ [CInt 0], Ex.line_a, None) ].
Proof.
  exact (rewriter_identity_without_tables (LineRewriter_init []) Ex.lines_to_rewrite
           (fun p _ => eq_refl)).
Defined.

(** X13. The parts of a table line: for a line path
    (predictor, label, "block.division.row.col", ..., line_id) that matches
    an entry with N boundaries, the parts have the paths
    (predictor, label, "block.division.<line_id + 1>.<column>", "0") for the
    columns 1 to N + 1, in order.  These paths are pairwise distinct, and
    each is again a well-formed table path. *)
Theorem column_part_paths {G : Geometry}
    (columns : pdict (list Z)) (line : Line) (xs : list Z)
    (pr lb : comp) (s : string) (rest : path) (a b c d : string) (l : comp) (n : Z) :
  let p := pr :: lb :: CStr s :: rest in
  pget columns (firstn 3 p) = Some xs ->
  split "." s = [a; b; c; d] ->
  last_comp p = Ok l -> py_int l = Ok n ->
  exists seg,
    rewrite_line columns [] (p, line) = Ok seg
    /\ map part_path seg
       = map (fun i => [pr; lb;
                        CStr (join "." [a; b; string_of_Z (1 + n);
                                        string_of_Z (1 + Z.of_nat i)]);
                        CStr "0"])
           (seq 0 (S (List.length xs)))
    /\ NoDup (map part_path seg)
    /\ Forall (fun part => four_fields (part_path part) = true
                           /\ line_id_ok (part_path part)) seg.
Proof.
  intros p Hget Hs Hl Hn.
  set (cp := fun i : nat =>
               [pr; lb;
                CStr (join "." [a; b; string_of_Z (1 + n); string_of_Z (1 + Z.of_nat i)]);
                CStr "0"]).
  assert (Hcp : forall i, _column_path p (1 + Z.of_nat i) = Ok (cp i)).
  { intros i. unfold p. erewrite column_path_value by (eassumption || lia). reflexivity. }
  assert (Hpaths : forall items : list (nat * (option Z * option Z)),
             map part_path (map (fun it => (cp (fst it), line, Some (snd it))) items)
             = map cp (map fst items)).
  { intros items. rewrite !map_map. reflexivity. }
  exists (map (fun it => (cp (fst it), line, Some (snd it))) (enumerate (column_pairs xs))).
  assert (Hlen : List.length (column_pairs xs) = S (List.length xs))
    by (rewrite column_pairs_ranges; apply ranges_from_length).
  assert (Hmap : map part_path
                   (map (fun it => (cp (fst it), line, Some (snd it)))
                      (enumerate (column_pairs xs)))
                 = map cp (seq 0 (S (List.length xs)))).
  { rewrite Hpaths. unfold enumerate. rewrite enumerate_fst, Hlen. reflexivity. }
  split; [|split; [exact Hmap|split]].
  - unfold rewrite_line. fold p. rewrite Hget.
    rewrite (column_parts_value p line cp) by assumption. reflexivity.
  - rewrite Hmap. apply NoDup_map_injective; [|apply seq_NoDup].
    intros i j Heq. unfold cp in Heq. apply column_name_inj in Heq. lia.
  - apply Forall_forall. intros part Hin. apply in_map_iff in Hin.
    destruct Hin as ([i r] & <- & _). unfold part_path. cbn [fst snd]. split.
    + unfold four_fields, table_fields, cp. cbn [nth_error].
      rewrite split_join; [reflexivity|discriminate|].
      pose proof (split_fields_clean "." s) as Hclean. rewrite Hs in Hclean.
      inversion Hclean as [|? ? Ha Hrest]; subst.
      inversion Hrest as [|? ? Hb _]; subst.
      repeat constructor; auto using string_of_Z_no_dot.
    + exists (CStr "0"), 0. split; reflexivity.
Qed.

(** The line of the table with the boundaries 100 and 300: three parts with
    the columns 1, 2 and 3 of the line 1. *)
Lemma column_part_paths_witness :
  exists seg,
    rewrite_line (LineRewriter_init Ex.table_with_columns) []
      (Ex.cell ++ [CInt 0], Ex.row_line) = Ok seg
    /\ map part_path seg
       = [ Ex.regions_TABULAR ++ [CStr "3.1.1.1"; CStr "0"];
           Ex.regions_TABULAR ++ [CStr "3.1.1.2"; CStr "0"];
           Ex.regions_TABULAR ++ [CStr "3.1.1.3"; CStr "0"] ].
Proof.
  destruct (column_part_paths (LineRewriter_init Ex.table_with_columns) Ex.row_line
              [100; 300] (CStr "regions") (CStr "TABULAR") "3.1.1.1" [CInt 0]
              "3" "1" "1" "1" (CInt 0) 0 eq_refl eq_refl eq_refl eq_refl)
    as (seg & Hrun & Hpaths & _).
  exists seg. split; [exact Hrun|exact Hpaths].
Defined.

Lemma py_int_decimal (n : Z) : py_int (CStr (string_of_Z n)) = Ok n.
Proof. unfold py_int. rewrite int_of_string_of_Z. reflexivity. Qed.

(** X14. A line identifier may come as an integer or as its decimal string
    (as read back from an entry name): for a path with at least the three
    components predictor, label and block name before the identifier,
    [_column_path] gives the same result for both.  (With only two
    components before it, the identifier itself is taken for the block
    name, and the two forms raise different errors.) *)
Theorem line_id_string_or_int (pre : path) (n column : Z) :
  (3 <= List.length pre)%nat ->
  _column_path (pre ++ [CStr (string_of_Z n)]) column
  = _column_path (pre ++ [CInt n]) column.
Proof.
  intros Hlen.
  destruct pre as [|pr [|lb [|c rest]]]; simpl in Hlen; try lia.
  unfold _column_path, last_comp. cbn [app]. cbn [rev]. rewrite !rev_app_distr.
  cbn [rev app firstn index nth_error bind].
  rewrite py_int_decimal. reflexivity.
Qed.

Lemma line_id_string_or_int_witness :
  _column_path (Ex.cell ++ [CStr "7"]) 2 = _column_path (Ex.cell ++ [CInt 7]) 2.
Proof.
  exact (line_id_string_or_int Ex.cell 7 2 (le_n 3)).
Defined.

(** ** [LineExtractor]: which lines are extracted, and when it raises *)

Lemma pset_fresh {V : Type} (d : pdict V) (k : path) (v : V) :
  ~ In k (keys d) -> pset d k v = d ++ [(k, v)].
Proof.
  unfold pset, keys. induction d as [|[k0 v0] d IH]; simpl; intros Hnot.
  - reflexivity.
  - rewrite path_eqb_neq by (intros ->; apply Hnot; left; reflexivity).
    rewrite IH by (intros Hin; apply Hnot; right; assumption). reflexivity.
Qed.

Lemma dict_of_items_from {V : Type} (items acc : pdict V) :
  NoDup (keys (acc ++ items)) ->
  fold_left (fun d kv => pset d (fst kv) (snd kv)) items acc = acc ++ items.
Proof.
  revert acc. induction items as [|[k v] items IH]; intros acc Hnd; simpl.
  - rewrite app_nil_r. reflexivity.
  - assert (Hfresh : ~ In k (keys acc)).
    { unfold keys in *. rewrite map_app in Hnd. simpl in Hnd.
      apply NoDup_remove_2 in Hnd. intros Hin. apply Hnd, in_or_app. left. assumption. }
    rewrite (pset_fresh acc k v Hfresh), IH; rewrite <- app_assoc; [reflexivity|assumption].
Qed.

(** [dict] of the items of a dictionary is the same dictionary. *)
Lemma dict_of_items_NoDup {V : Type} (items : pdict V) :
  NoDup (keys items) -> dict_of_items items = items.
Proof. intros Hnd. apply (dict_of_items_from items []). assumption. Qed.

Lemma NoDup_keys_filter {V : Type} (f : path * V -> bool) (d : pdict V) :
  NoDup (keys d) -> NoDup (keys (filter f d)).
Proof.
  unfold keys. induction d as [|kv d IH]; simpl; intros Hnd; [constructor|].
  inversion Hnd as [|? ? Hnot Hnd']; subst.
  destruct (f kv); simpl; [|auto]. constructor; [|auto].
  intros Hin. apply Hnot. apply in_map_iff in Hin. destruct Hin as (x & Hx & Hin).
  apply filter_In in Hin. apply in_map_iff. exists x. tauto.
Qed.

Lemma filter_twice {A : Type} (f g : A -> bool) (l : list A) :
  filter f (filter g l) = filter (fun x => g x && f x) l.
Proof.
  induction l as [|a l IH]; simpl; [reflexivity|].
  destruct (g a); simpl; [destruct (f a)|]; rewrite IH; reflexivity.
Qed.

Lemma existsb_filter {A : Type} (f g : A -> bool) (l : list A) :
  existsb f (filter g l) = existsb (fun x => g x && f x) l.
Proof.
  induction l as [|a l IH]; simpl; [reflexivity|].
  destruct (g a); simpl; rewrite IH; reflexivity.
Qed.

Section ExtractorFacts.
Context {G : Geometry}.
Variable Image : Type.
Variable confidence : Line -> Q.
Variable image : Line -> option (option Z * option Z) -> Image.

(** The dictionary that reaches the rewriter. *)
Lemma extractor_lines (ex : LineExtractor) (lines : pdict Line)
    (ignored : option (path -> bool)) :
  NoDup (keys lines) ->
  dict_of_items (filtered_lines confidence ex (not_ignored_lines ignored lines))
  = filter (extracted confidence ex ignored) lines.
Proof.
  intros Hnd. unfold filtered_lines, not_ignored_lines, extracted, Qlt_bool.
  destruct ignored as [ign|].
  - rewrite (dict_of_items_NoDup (filter _ lines)) by (apply NoDup_keys_filter; assumption).
    rewrite filter_twice.
    rewrite dict_of_items_NoDup by (apply NoDup_keys_filter; assumption).
    apply filter_ext. intros kv. rewrite negb_involutive. reflexivity.
  - rewrite dict_of_items_NoDup by (apply NoDup_keys_filter; assumption).
    apply filter_ext. intros kv. rewrite negb_involutive. reflexivity.
Qed.

Lemma images_of_parts (ex : LineExtractor) (lines : pdict Line)
    (segs : list (list line_part)) :
  Forall2 (parts_of_line (_rewriter ex)) lines segs ->
  Forall2 (images_of_line Image image ex) lines
    (map (map (_extract_line_image Image image)) segs).
Proof.
  induction 1 as [|item seg lines segs Hseg Hall IH]; simpl; constructor; [|assumption].
  exists seg. auto.
Qed.
End ExtractorFacts.

(** X15. The extractor's images: for a dictionary of lines with well-formed
    table paths, the extractor returns the images line by line, in the
    order of the dictionary, of exactly the lines that are not ignored and
    whose confidence is at least the minimum (a line whose confidence
    equals the minimum is extracted); each such line gives the images of
    its parts: one image of the whole line, or one per column of its
    table. *)
Theorem extractor_images {G : Geometry} (Image : Type) (confidence : Line -> Q)
    (image : Line -> option (option Z * option Z) -> Image)
    (ex : LineExtractor) (lines : pdict Line) (ignored : option (path -> bool)) :
  NoDup (keys lines) ->
  (forall p line xs,
     In (p, line) lines -> extracted confidence ex ignored (p, line) = true ->
     pget (_rewriter ex) (firstn 3 p) = Some xs ->
     four_fields p = true /\ line_id_ok p) ->
  exists segs,
    LineExtractor_call Image confidence image ex lines ignored = Ok (List.concat segs)
    /\ Forall2 (images_of_line Image image ex)
         (filter (extracted confidence ex ignored) lines) segs.
Proof.
  intros Hnd Hwf. unfold LineExtractor_call.
  rewrite extractor_lines by assumption. unfold LineRewriter_call.
  destruct (rewriter_Ok (_rewriter ex) (filter (extracted confidence ex ignored) lines) [])
    as (segs & Hrun & Hall).
  { intros p line xs Hin. apply filter_In in Hin. destruct Hin as [Hin Hkeep].
    exact (Hwf p line xs Hin Hkeep). }
  exists (map (map (_extract_line_image Image image)) segs).
  rewrite Hrun. cbn [bind app]. rewrite concat_map.
  split; [reflexivity|apply images_of_parts; assumption].
Qed.

(** The table line "row" has the confidence 1/2, the minimum, and gives
    three images; the text line "a" has the confidence 3/10 and is
    skipped. *)
Lemma extractor_images_witness :
  exists segs,
    LineExtractor_call _ Pages.confidence_by_name Pages.named_image
      Pages.table_extractor Ex.lines_to_rewrite None = Ok (List.concat segs)
    /\ Forall2 (images_of_line _ Pages.named_image Pages.table_extractor)
         [ (Ex.cell ++ [CInt 0], Ex.row_line) ] segs.
Proof.
  refine (extractor_images _ Pages.confidence_by_name Pages.named_image
            Pages.table_extractor Ex.lines_to_rewrite None _ _).
  - repeat constructor; simpl; intuition discriminate.
  - intros p line xs [Heq|[Heq|[]]] Hkeep Hxs; injection Heq as <- <-.
    + split; [reflexivity|]. exists (CInt 0), 0. split; reflexivity.
    + vm_compute in Hkeep. discriminate Hkeep.
Defined.

(** X16. Skipping comes before rewriting: for lines with four path
    components and an integer line identifier, the extractor raises the
    validation error ([RuntimeError]) exactly when a line that is neither
    ignored nor below the minimum confidence has a malformed table path,
    and returns images otherwise.  A malformed table path of a skipped line
    does not make the extractor raise. *)
Theorem extractor_raises_on_extracted_lines_only {G : Geometry} (Image : Type)
    (confidence : Line -> Q) (image : Line -> option (option Z * option Z) -> Image)
    (min_confidence : Q) (tc : list (string * list Z))
    (lines : pdict Line) (ignored : option (path -> bool)) :
  let ex := {| _min_confidence := min_confidence; _rewriter := LineRewriter_init tc |} in
  NoDup (keys lines) ->
  (forall p line, In (p, line) lines -> extracted confidence ex ignored (p, line) = true ->
                  (4 <= List.length p)%nat /\ line_id_ok p) ->
  if existsb (fun it => extracted confidence ex ignored it
                        && malformed (LineRewriter_init tc) (fst it)) lines
  then LineExtractor_call Image confidence image ex lines ignored = Raise RuntimeError
  else exists images,
         LineExtractor_call Image confidence image ex lines ignored = Ok images.
Proof.
  intros ex Hnd Hwf. unfold LineExtractor_call.
  rewrite extractor_lines by assumption. unfold LineRewriter_call.
  rewrite <- existsb_filter.
  pose proof (rewriter_result tc (filter (extracted confidence ex ignored) lines) []) as Hres.
  cbn [_rewriter ex].
  destruct (existsb (fun it => malformed (LineRewriter_init tc) (fst it))
              (filter (extracted confidence ex ignored) lines)).
  - rewrite Hres; [reflexivity|].
    intros p line Hin. apply filter_In in Hin. destruct Hin as [Hin Hkeep].
    exact (Hwf p line Hin Hkeep).
  - destruct Hres as [parts Hparts].
    { intros p line Hin. apply filter_In in Hin. destruct Hin as [Hin Hkeep].
      exact (Hwf p line Hin Hkeep). }
    rewrite Hparts. cbn [bind]. eauto.
Qed.

(** The table line with the three fields block.division.row has the
    confidence 3/10 and is skipped: the extractor returns. *)
Lemma extractor_raises_on_extracted_lines_only_witness :
  exists images,
    LineExtractor_call _ Pages.confidence_by_name Pages.named_image
      Pages.short_table_extractor Pages.lines_with_faint_row None = Ok images.
Proof.
  refine (extractor_raises_on_extracted_lines_only _ Pages.confidence_by_name
            Pages.named_image (1 # 2) Ex.short_table Pages.lines_with_faint_row None _ _).
  - repeat constructor; simpl; intuition discriminate.
  - intros p line [Heq|[Heq|[]]] Hkeep; injection Heq as <- <-;
      (split; [simpl; lia|exists (CInt 0), 0; split; reflexivity]).
Defined.

(** ** The warp stage: entry names *)

Lemma string_length_app (a b : string) :
  String.length (a ++ b) = (String.length a + String.length b)%nat.
Proof. induction a as [|c a IH]; simpl; [reflexivity|]. rewrite IH. reflexivity. Qed.

Lemma string_app_inv_tail (a b e : string) : (a ++ e)%string = (b ++ e)%string -> a = b.
Proof.
  revert b. induction a as [|c a IH]; intros [|c' b] H; simpl in H.
  - reflexivity.
  - apply (f_equal String.length) in H. simpl in H. rewrite string_length_app in H. lia.
  - apply (f_equal String.length) in H. simpl in H. rewrite string_length_app in H. lia.
  - injection H as -> H. rewrite (IH b H). reflexivity.
Qed.

Lemma string_app_assoc (a b c : string) : ((a ++ b) ++ c)%string = (a ++ (b ++ c))%string.
Proof. induction a as [|x a IH]; simpl; [reflexivity|]. rewrite IH. reflexivity. Qed.

Lemma has_char_app (c : ascii) (a b : string) :
  has_char c (a ++ b) = has_char c a || has_char c b.
Proof.
  induction a as [|x a IH]; simpl; [reflexivity|]. rewrite IH, orb_assoc. reflexivity.
Qed.

Lemma zeros_digits (k : nat) : string_forall is_digit (zeros k) = true.
Proof. induction k as [|k IH]; simpl; [reflexivity|assumption]. Qed.

Lemma zeros_length (k : nat) : String.length (zeros k) = k.
Proof. induction k as [|k IH]; simpl; [reflexivity|]. rewrite IH. reflexivity. Qed.

Lemma parse_zeros (k : nat) (s : string) :
  parse_digits (zeros k ++ s) 0 true = parse_digits s 0 true.
Proof. induction k as [|k IH]; simpl; [reflexivity|assumption]. Qed.

(** The decimal form of a number that is not negative: digits only, and at
    least one. *)
Lemma string_of_nonneg (n : Z) :
  0 <= n ->
  string_forall is_digit (string_of_Z n) = true /\ string_of_Z n <> EmptyString.
Proof.
  intros Hn. unfold string_of_Z.
  destruct n as [|p|p]; [split; [reflexivity|discriminate]| |lia].
  cbn [Z.to_int NilZero.string_of_int].
  rewrite nilzero_string by apply DecimalPos.Unsigned.to_uint_nonnil.
  split; [apply uint_string_digits|].
  apply uint_string_nonempty, DecimalPos.Unsigned.to_uint_nonnil.
Qed.

Lemma parse_of_nonneg (n : Z) :
  0 <= n -> parse_digits (string_of_Z n) 0 true = Some n.
Proof.
  intros Hn. destruct (string_of_nonneg n Hn) as [Hd Hne].
  rewrite <- int_of_digit_string by assumption. apply int_of_string_of_Z.
Qed.

Lemma zero_pad_digits (width : nat) (n : Z) :
  0 <= n ->
  string_forall is_digit (zero_pad width (string_of_Z n)) = true
  /\ zero_pad width (string_of_Z n) <> EmptyString.
Proof.
  intros Hn. destruct (string_of_nonneg n Hn) as [Hd Hne]. unfold zero_pad. split.
  - rewrite string_forall_app, zeros_digits, Hd. reflexivity.
  - intros H. apply (f_equal String.length) in H. rewrite string_length_app in H.
    destruct (string_of_Z n); [contradiction|]. simpl in H. lia.
Qed.

(** [int("%0<width>d" % z) = z]. *)
Lemma int_of_format_0d (width : nat) (z : Z) :
  int_of_string (format_0d width z) = Some z.
Proof.
  unfold format_0d. destruct (Z.ltb_spec z 0) as [Hneg|Hpos].
  - assert (Hn : 0 <= - z) by lia.
    destruct (zero_pad_digits (width - 1) (- z) Hn) as [Hd Hne].
    unfold int_of_string. rewrite strip_clean.
    + rewrite parse_digits_first by assumption.
      unfold zero_pad. rewrite parse_zeros, parse_of_nonneg by assumption.
      simpl. f_equal. lia.
    + cbn [string_forall]. rewrite digits_clean by assumption. reflexivity.
  - destruct (zero_pad_digits width z Hpos) as [Hd Hne].
    rewrite int_of_digit_string by assumption.
    unfold zero_pad. rewrite parse_zeros. apply parse_of_nonneg. assumption.
Qed.

Lemma format_0d_width (width : nat) (n : Z) :
  0 <= n -> (width <= String.length (format_0d width n))%nat.
Proof.
  intros Hn. unfold format_0d. destruct (Z.ltb_spec n 0); [lia|].
  unfold zero_pad. rewrite string_length_app, zeros_length. lia.
Qed.

Lemma format_0d_no_slash (width : nat) (n : Z) :
  0 <= n -> has_char "/" (format_0d width n) = false.
Proof.
  intros Hn. unfold format_0d. destruct (Z.ltb_spec n 0); [lia|].
  apply digits_without; [reflexivity|]. apply zero_pad_digits. assumption.
Qed.

(** The name as the fields joined by "/". *)
Lemma warp_line_name_join (pr lb blk : comp) (i : nat) :
  warp_line_name pr lb blk i
  = join "/" [py_str pr; py_str lb; py_str blk; format_0d 4 (Z.of_nat i)].
Proof. reflexivity. Qed.

(** X17. The names of the warp stage read back: when the three components
    of the block contain no "/", splitting the name of a line at "/" gives
    the block's components and the zero-padded line index, which has at
    least four characters and which [int] reads as the index of the line
    among the lines of its block. *)
Theorem warp_line_name_reads_back (pr lb blk : comp) (i : nat) :
  has_char "/" (py_str pr) = false ->
  has_char "/" (py_str lb) = false ->
  has_char "/" (py_str blk) = false ->
  exists digits,
    path_of_key (warp_line_name pr lb blk i)
    = [CStr (py_str pr); CStr (py_str lb); CStr (py_str blk); CStr digits]
    /\ py_int (CStr digits) = Ok (Z.of_nat i)
    /\ (4 <= String.length digits)%nat.
Proof.
  intros Hpr Hlb Hblk. exists (format_0d 4 (Z.of_nat i)).
  split; [|split].
  - unfold path_of_key. rewrite warp_line_name_join, split_join; [reflexivity|discriminate|].
    repeat constructor; try assumption. apply format_0d_no_slash. lia.
  - unfold py_int. rewrite int_of_format_0d. reflexivity.
  - apply format_0d_width. lia.
Qed.

(** The twelfth line of the block regions/TEXT/0. *)
Lemma warp_line_name_reads_back_witness :
  exists digits,
    path_of_key "regions/TEXT/0/0011"
    = [CStr "regions"; CStr "TEXT"; CStr "0"; CStr digits]
    /\ py_int (CStr digits) = Ok 11
    /\ (4 <= String.length digits)%nat.
Proof.
  exact (warp_line_name_reads_back (CStr "regions") (CStr "TEXT") (CStr "0") 11
           eq_refl eq_refl eq_refl).
Defined.

Lemma warp_line_name_inj (pr lb blk pr' lb' blk' : comp) (i j : nat) :
  Forall (fun c => has_char "/" (py_str c) = false) [pr; lb; blk] ->
  Forall (fun c => has_char "/" (py_str c) = false) [pr'; lb'; blk'] ->
  warp_line_name pr lb blk i = warp_line_name pr' lb' blk' j ->
  map py_str [pr; lb; blk] = map py_str [pr'; lb'; blk'] /\ i = j.
Proof.
  intros Hc Hc' Heq. apply (f_equal (split "/")) in Heq.
  rewrite !warp_line_name_join in Heq.
  inversion Hc as [|? ? H1 Hc1]; subst. inversion Hc1 as [|? ? H2 Hc2]; subst.
  inversion Hc2 as [|? ? H3 _]; subst.
  inversion Hc' as [|? ? H1' Hc1']; subst. inversion Hc1' as [|? ? H2' Hc2']; subst.
  inversion Hc2' as [|? ? H3' _]; subst.
  rewrite !split_join in Heq;
    try discriminate;
    try (repeat constructor; try assumption; apply format_0d_no_slash; lia).
  injection Heq as Ha Hb Hc3 Hd. split; [simpl; congruence|].
  apply (f_equal int_of_string) in Hd. rewrite !int_of_format_0d in Hd.
  injection Hd as Hd. lia.
Qed.

Section WarpFacts.
Context {G : Geometry}.
#[local] Arguments firstn : simpl never.

Local Notation "'clean'" := (fun c : comp => has_char "/" (py_str c) = false).

(** A block key with three components that contain no "/". *)
Local Notation "'key_ok'" :=
  (fun parts : path => (3 <= List.length parts)%nat /\ Forall clean (firstn 3 parts)).

Lemma key_ok_shape (parts : path) :
  key_ok parts ->
  exists pr lb blk rest, parts = pr :: lb :: blk :: rest /\ Forall clean [pr; lb; blk].
Proof.
  intros [Hlen Hclean]. destruct parts as [|pr [|lb [|blk rest]]]; simpl in Hlen; try lia.
  exists pr, lb, blk, rest. split; [reflexivity|exact Hclean].
Qed.

Lemma enumerate_names {A B : Type} (f : nat -> string) (g : A -> B) (l : list A) (s : nat) :
  map fst (map (fun il => (f (fst il), g (snd il))) (combine (seq s (List.length l)) l))
  = map f (seq s (List.length l)).
Proof.
  revert s. induction l as [|a l IH]; intros s; simpl; [reflexivity|].
  rewrite IH. reflexivity.
Qed.

(** The loop over the blocks writes the names of each block in turn. *)
Lemma warp_fold (bl : list (path * list Line)) (files : list (string * warp_entry)) :
  (forall parts lines, In (parts, lines) bl -> key_ok parts) ->
  exists files',
    foldM warp_block bl files = Ok files'
    /\ map fst files' = map fst files ++ flat_map warp_names bl.
Proof.
  revert files. induction bl as [|[parts lines] bl IH]; intros files Hok.
  - exists files. simpl. rewrite app_nil_r. auto.
  - destruct (key_ok_shape parts (Hok parts lines (or_introl eq_refl)))
      as (pr & lb & blk & rest & -> & _).
    destruct (IH (files
                  ++ map (fun il => ((warp_line_name pr lb blk (fst il) ++ ".json")%string,
                                     WarpLine (snd il)))
                       (enumerate lines)))
      as (files' & Hrun & Hnames).
    { intros parts' lines' Hin. apply (Hok parts' lines'). right. assumption. }
    exists files'. split; [exact Hrun|].
    rewrite Hnames, map_app. unfold enumerate.
    rewrite (enumerate_names (fun i => (warp_line_name pr lb blk i ++ ".json")%string)).
    cbn [flat_map]. unfold warp_names at 2. cbn [fst snd].
    rewrite <- app_assoc. reflexivity.
Qed.

Lemma warp_name_has_slash (item : path * list Line) (x : string) :
  In x (warp_names item) -> has_char "/" x = true.
Proof.
  unfold warp_names. destruct (fst item) as [|pr [|lb [|blk rest]]]; try contradiction.
  intros Hin. apply in_map_iff in Hin. destruct Hin as (i & <- & _).
  unfold warp_line_name. rewrite !has_char_app. cbn [has_char].
  rewrite orb_true_r. reflexivity.
Qed.

Lemma warp_names_NoDup (bl : list (path * list Line)) :
  (forall parts lines, In (parts, lines) bl -> key_ok parts) ->
  NoDup (map (fun it => map py_str (firstn 3 (fst it))) bl) ->
  NoDup (flat_map warp_names bl).
Proof.
  induction bl as [|[parts lines] bl IH]; intros Hok Hnd; [constructor|].
  cbn [map fst] in Hnd. inversion Hnd as [|? ? Hfresh Hnd']; subst.
  destruct (key_ok_shape parts (Hok parts lines (or_introl eq_refl)))
    as (pr & lb & blk & rest & -> & Hclean).
  assert (Hok' : forall parts' lines', In (parts', lines') bl -> key_ok parts')
    by (intros parts' lines' Hin; apply (Hok parts' lines'); right; assumption).
  cbn [flat_map]. apply NoDup_app.
  - unfold warp_names. cbn [fst snd]. apply NoDup_map_injective; [|apply seq_NoDup].
    intros i j Heq. apply string_app_inv_tail in Heq.
    apply (warp_line_name_inj pr lb blk pr lb blk i j Hclean Hclean Heq).
  - apply IH; assumption.
  - intros x Hx Hx'. apply Hfresh.
    apply in_flat_map in Hx'. destruct Hx' as ([parts' lines'] & Hin & Hx').
    destruct (key_ok_shape parts' (Hok' parts' lines' Hin))
      as (pr' & lb' & blk' & rest' & -> & Hclean').
    unfold warp_names in Hx, Hx'. cbn [fst snd] in Hx, Hx'.
    apply in_map_iff in Hx. destruct Hx as (i & <- & _).
    apply in_map_iff in Hx'. destruct Hx' as (j & Heq & _).
    apply string_app_inv_tail in Heq.
    destruct (warp_line_name_inj pr' lb' blk' pr lb blk j i Hclean' Hclean Heq)
      as [Hkey _].
    apply in_map_iff. exists (pr' :: lb' :: blk' :: rest', lines').
    split; [exact Hkey|exact Hin].
Qed.
End WarpFacts.

(** X18. The archive of the warp stage: when every block key of the
    detector's result has three components (at least) without "/", the
    stage does not raise and writes "meta.json" and then, block by block,
    one entry for each line, named by the block and the index of the line
    in its block.  If moreover no two blocks have the same three names, no
    two entries of the archive have the same name. *)
Theorem warp_entries_distinct {G : Geometry}
    (detector : pdict geom -> list (path * list Line)) (blocks : pdict geom) :
  (forall parts lines,
     In (parts, lines) (detector blocks) ->
     (3 <= List.length parts)%nat
     /\ Forall (fun c => has_char "/" (py_str c) = false) (firstn 3 parts)) ->
  exists files,
    warp_process detector blocks = Ok files
    /\ map fst files = "meta.json" :: flat_map warp_names (detector blocks)
    /\ (NoDup (map (fun it => map py_str (firstn 3 (fst it))) (detector blocks)) ->
        NoDup (map fst files)).
Proof.
  intros Hok. unfold warp_process.
  destruct (warp_fold (detector blocks) [("meta.json", WarpMeta 1)] Hok)
    as (files & Hrun & Hnames).
  exists files. split; [exact Hrun|]. split; [exact Hnames|].
  intros Hnd. rewrite Hnames. cbn [map fst app]. constructor.
  - intros Hin. apply in_flat_map in Hin. destruct Hin as (item & _ & Hin).
    apply warp_name_has_slash in Hin. discriminate Hin.
  - apply warp_names_NoDup; assumption.
Qed.

(** Two text blocks with two lines and one line. *)
Lemma warp_entries_distinct_witness :
  exists files,
    warp_process (fun _ => Pages.detected) Ex.contour_0 = Ok files
    /\ map fst files
       = [ "meta.json"; "regions/TEXT/0/0000.json"; "regions/TEXT/0/0001.json";
           "regions/TEXT/1/0000.json" ]
    /\ NoDup (map fst files).
Proof.
  destruct (warp_entries_distinct (G := Rect.geometry) (fun _ => Pages.detected)
              Ex.contour_0) as (files & Hrun & Hnames & Hnd).
  - intros parts lines [Heq|[Heq|[]]]; injection Heq as <- <-;
      (split; [simpl; lia|repeat constructor]).
  - exists files. split; [exact Hrun|]. split; [exact Hnames|].
    apply Hnd. repeat constructor; simpl; intuition discriminate.
Defined.

(** ** [LineDetectionProcessor.process]: no page gets its archives *)

(** X19. [process] never reaches its writers: for a page without blocks it
    returns early, and for every other page it raises (at the latest at the
    call of [reliable_contours], whatever the detector, the sampler and the
    options are).  No page gets a lines archive or a contours archive. *)
Theorem process_returns_no_output {G : Geometry} (options : Options) (page : Page) :
  match blocks page with
  | [] => process options page = Ok None
  | _ :: _ => exists e, process options page = Raise e
  end.
Proof.
  unfold process. destruct (blocks page) as [|b bs]; [reflexivity|].
  destruct (update_confidences _ _) as [[]|e]; cbn [bind]; [|eauto].
  destruct (reclassify _ _ _) as [[det free]|e]; cbn [bind]; [|eauto].
  exists TypeError. reflexivity.
Qed.
